(** * pg-mcp: access control, validation, rate limiting, execution, metrics,
      retries, and the query pipeline

    A shallow embedding of the Python sources under
    [w5/pg-mcp/pg_mcp_server] together with the properties that the design
    document states about them, and further properties of the same code.

    Conventions of the embedding:
    - methods take the object ([self]) as an explicit argument and return the
      updated object next to their result;
    - a Python call that may raise returns an [Outcome];
    - [time.time()] and the rows a connection fetches are inputs;
    - Python floats (timestamps, counter values, durations) are represented
      by rationals [Q]; the properties below use their order, and where a
      sum, a product or a quotient appears it is the operation that the
      code performs, in the order in which it performs it: sums are not
      regrouped or reordered and no bound on a quotient is stated (the
      arithmetic used is that adding a value that is not negative does not
      lower a counter, and the order of [now - time_window], a clock
      reading minus the integer window);
    - the calls that the pipeline and the [query] tool make on the metrics
      collector are returned as a list, in the order in which they are made;
    - the model behind the generator and the result validator is an input:
      the outcome of its call;
    - the SQL parser and generator (package [sqlglot]) are not part of the
      repository: they are section variables, and the syntax tree they
      produce is the data type [Expression]. *)

From Stdlib Require Import Ascii QArith Qround Lqa Sorted.
From stdpp Require Import gmap strings list fin_maps pretty.

Set Default Proof Using "Type".
Set Warnings "-register-all".
Open Scope string_scope.
Open Scope Z_scope.

(* ===================================================================== *)
(** * Part I: definitions                                                 *)
(* ===================================================================== *)

(** ** Python exceptions and outcomes *)

Inductive ExcClass : Type :=
| ParseError               (* sqlglot.errors.ParseError *)
| RuntimeError
| PermissionError
| PostgresConnectionError  (* asyncpg *)
| InterfaceError           (* asyncpg *)
| PostgresError            (* asyncpg, any other server error *)
| OtherException.          (* any other subclass of Exception *)

Record PyExc : Type := MkExc { exc_class : ExcClass; exc_str : string }.

Inductive Outcome (A : Type) : Type :=
| Return (a : A)
| Raise (e : PyExc).
Arguments Return {A} a.
Arguments Raise {A} e.

Definition bind {A B : Type} (m : Outcome A) (k : A -> Outcome B) : Outcome B :=
  match m with
  | Return a => k a
  | Raise e => Raise e
  end.

(** [try: m  except Exception as e: h e] *)
Definition try_except {A : Type} (m : Outcome A) (h : PyExc -> Outcome A) : Outcome A :=
  match m with
  | Return a => Return a
  | Raise e => h e
  end.

Notation "'do' x <- m ; k" := (bind m (fun x => k))
  (at level 10, x name, m at level 100, k at level 200).

(** ** Small pieces of Python's built-ins *)

(** [ts > cutoff] on timestamps. *)
Definition Qgtb (x y : Q) : bool := negb (Qle_bool x y).

(** [int(x)] on a float: truncation towards zero. *)
Definition py_int (x : Q) : Z := Z.quot (Qnum x) (Zpos (Qden x)).

(** [min(l)] for a non-empty list whose head is [x]. *)
Definition py_min (x : Q) (l : list Q) : Q :=
  fold_left (fun m y => if Qgtb m y then y else m) l x.

(** [", ".join(l)] and friends. *)
Definition join (sep : string) (l : list string) : string := String.concat sep l.

(** [x in l] for a list of strings. *)
Definition str_in (x : string) (l : list string) : bool :=
  existsb (String.eqb x) l.

(** [s.lower()] on ASCII text (the two agree on every string made of ASCII
    characters; bytes outside ASCII are left alone). *)
Definition lower_ascii (c : ascii) : ascii :=
  let n := N_of_ascii c in
  if ((65 <=? n) && (n <=? 90))%N then ascii_of_N (n + 32) else c.

Fixpoint lower (s : string) : string :=
  match s with
  | String.EmptyString => String.EmptyString
  | String.String c s' => String.String (lower_ascii c) (lower s')
  end.

(** [l[:n]] for an integer [n], negative stops counting from the end. *)
Definition slice_to {A : Type} (l : list A) (n : Z) : list A :=
  if n <? 0 then firstn (Z.to_nat (Z.of_nat (length l) + n)) l
  else firstn (Z.to_nat n) l.

(** ** utils/rate_limiter.py *)

Module RateLimiter.

Record RateLimitConfig : Type := {
  max_requests : Z;
  time_window : Z;
  enabled : bool
}.

Record RequestRecord : Type := { timestamps : list Q }.

(** [RateLimiter]: [records] is a [defaultdict(RequestRecord)]; the lock
    makes every call atomic, so calls are modelled one after the other. *)
Record t : Type := {
  config : RateLimitConfig;
  records : gmap string RequestRecord
}.

Definition init (cfg : RateLimitConfig) : t :=
  {| config := cfg; records := ∅ |}.

Definition set_records (self : t) (m : gmap string RequestRecord) : t :=
  {| config := config self; records := m |}.

(** [self.records[key]] on the defaultdict: a missing key yields (and
    stores) a fresh empty record. *)
Definition record_of (self : t) (key : string) : RequestRecord :=
  default {| timestamps := [] |} (records self !! key).

(** [[ts for ts in record.timestamps if ts > cutoff_time]] *)
Definition prune (cutoff_time : Q) (l : list Q) : list Q :=
  List.filter (fun ts => Qgtb ts cutoff_time) l.

Definition msg_zero (cfg : RateLimitConfig) : string :=
  "Rate limit exceeded: 0/" +:+ pretty (max_requests cfg) +:+
  " requests in " +:+ pretty (time_window cfg) +:+ "s window.".

Definition msg_exceeded (cfg : RateLimitConfig) (n : nat) (wait_time : Z) : string :=
  "Rate limit exceeded: " +:+ pretty n +:+ "/" +:+ pretty (max_requests cfg) +:+
  " requests in " +:+ pretty (time_window cfg) +:+ "s window. " +:+
  "Retry after " +:+ pretty wait_time +:+ " seconds.".

(** [check_rate_limit(key)], with [current_time = time.time()] as input. *)
Definition check_rate_limit (key : string) (current_time : Q) (self : t)
  : (bool * option string) * t :=
  if negb (enabled (config self)) then ((true, None), self)
  else
    let record := record_of self key in
    let cutoff_time := (current_time - inject_Z (time_window (config self)))%Q in
    let ts := prune cutoff_time (timestamps record) in
    if max_requests (config self) <=? Z.of_nat (length ts) then
      let self' := set_records self (<[key := {| timestamps := ts |}]> (records self)) in
      match ts with
      | [] => ((false, Some (msg_zero (config self))), self')
      | t0 :: rest =>
          let oldest_timestamp := py_min t0 rest in
          let wait_time :=
            py_int (oldest_timestamp + inject_Z (time_window (config self))
                    - current_time)%Q in
          ((false, Some (msg_exceeded (config self) (length ts) wait_time)), self')
      end
    else
      ((true, None),
       set_records self
         (<[key := {| timestamps := ts ++ [current_time] |}]> (records self))).

Record Usage : Type := {
  current_requests : Z;
  usage_max_requests : Z;
  usage_time_window : Z;
  remaining_requests : Z
}.

(** [get_current_usage(key)]; [self.records.get(key)] does not create the
    record. *)
Definition get_current_usage (key : string) (current_time : Q) (self : t)
  : Usage * t :=
  match records self !! key with
  | None =>
      ({| current_requests := 0;
          usage_max_requests := max_requests (config self);
          usage_time_window := time_window (config self);
          remaining_requests := max_requests (config self) |}, self)
  | Some record =>
      let cutoff_time := (current_time - inject_Z (time_window (config self)))%Q in
      let valid_requests := Z.of_nat (length (prune cutoff_time (timestamps record))) in
      ({| current_requests := valid_requests;
          usage_max_requests := max_requests (config self);
          usage_time_window := time_window (config self);
          remaining_requests := Z.max 0 (max_requests (config self) - valid_requests) |},
       self)
  end.

(** [reset(key=None)]: [if key:] is false for [None] and for the empty
    string. *)
Definition reset (key : option string) (self : t) : t :=
  match key with
  | Some k =>
      if String.eqb k "" then set_records self ∅
      else set_records self (delete k (records self))
  | None => set_records self ∅
  end.

(** A call on the limiter, and what it answered. *)
Inductive Call : Type :=
| CheckRateLimit (key : string) (now : Q)
| GetCurrentUsage (key : string) (now : Q)
| Reset (key : option string).

Inductive Answer : Type :=
| Checked (r : bool * option string)
| UsageIs (u : Usage)
| ResetDone.

Definition step (c : Call) (self : t) : Answer * t :=
  match c with
  | CheckRateLimit key now =>
      let '(r, self') := check_rate_limit key now self in (Checked r, self')
  | GetCurrentUsage key now =>
      let '(u, self') := get_current_usage key now self in (UsageIs u, self')
  | Reset key => (ResetDone, reset key self)
  end.

Fixpoint run (cs : list Call) (self : t) : list Answer * t :=
  match cs with
  | [] => ([], self)
  | c :: cs' =>
      let '(a, self') := step c self in
      let '(answers, self'') := run cs' self' in
      (a :: answers, self'')
  end.

Definition is_usage (c : Call) : bool :=
  match c with GetCurrentUsage _ _ => true | _ => false end.

Definition is_checked (a : Answer) : bool :=
  match a with Checked _ => true | _ => false end.

(** Number of timestamps of [key]'s record inside the closed window
    [[now - W, now]] (the window as the design document writes it). *)
Definition count_closed_window (self : t) (key : string) (now : Q) : nat :=
  length (List.filter
            (fun ts => Qle_bool (now - inject_Z (time_window (config self)))%Q ts
                       && Qle_bool ts now)
            (timestamps (record_of self key))).

(** Number of timestamps inside the half-open window [(now - W, now]]. *)
Definition count_open_window (self : t) (key : string) (now : Q) : nat :=
  length (List.filter
            (fun ts => Qgtb ts (now - inject_Z (time_window (config self)))%Q
                       && Qle_bool ts now)
            (timestamps (record_of self key))).

(** Number of timestamps that a probe at [now] keeps ([ts > now - W]). *)
Definition count_live (self : t) (key : string) (now : Q) : nat :=
  length (prune (now - inject_Z (time_window (config self)))%Q
                (timestamps (record_of self key))).

(** No record is longer than the capacity. *)
Definition within_capacity (self : t) : Prop :=
  forall key record,
    records self !! key = Some record ->
    Z.of_nat (length (timestamps record)) <= max_requests (config self).

(** The limiter that a sequence of calls on a new limiter leaves behind. *)
Definition after (cfg : RateLimitConfig) (cs : list Call) : t := snd (run cs (init cfg)).

End RateLimiter.

(** ** utils/metrics.py (counters and gauges of [MetricsCollector]) *)

Module Metrics.

Record t : Type := {
  enabled : bool;
  collect_query : bool;
  collect_sql : bool;
  collect_db : bool;
  _counters : gmap string Q;   (* defaultdict(float) *)
  _gauges : gmap string Q
}.

Definition init (enabled collect_query_metrics collect_sql_metrics
                 collect_db_metrics : bool) : t :=
  {| enabled := enabled;
     collect_query := collect_query_metrics;
     collect_sql := collect_sql_metrics;
     collect_db := collect_db_metrics;
     _counters := ∅;
     _gauges := ∅ |}.

Definition set_counters (self : t) (m : gmap string Q) : t :=
  {| enabled := enabled self; collect_query := collect_query self;
     collect_sql := collect_sql self; collect_db := collect_db self;
     _counters := m; _gauges := _gauges self |}.

Definition set_gauges (self : t) (m : gmap string Q) : t :=
  {| enabled := enabled self; collect_query := collect_query self;
     collect_sql := collect_sql self; collect_db := collect_db self;
     _counters := _counters self; _gauges := m |}.

(** [metric.startswith(p)] *)
Definition startswith (metric p : string) : bool := String.prefix p metric.

Definition _should_collect (self : t) (metric : string) : bool :=
  if negb (enabled self) then false
  else if startswith metric "mcp.query." && negb (collect_query self) then false
  else if startswith metric "mcp.sql." && negb (collect_sql self) then false
  else if (startswith metric "mcp.db." || startswith metric "mcp.schema."
           || startswith metric "mcp.validation.") && negb (collect_db self)
       then false
  else true.

(** Order of Python tuples [(k, v)] of strings. *)
Definition item_leb (a b : string * string) : bool :=
  match String.compare (fst a) (fst b) with
  | Lt => true
  | Gt => false
  | Eq => String.leb (snd a) (snd b)
  end.

Fixpoint insert_item (x : string * string) (l : list (string * string))
  : list (string * string) :=
  match l with
  | [] => [x]
  | y :: l' => if item_leb x y then x :: l else y :: insert_item x l'
  end.

(** [sorted(labels.items())] *)
Definition sorted (items : list (string * string)) : list (string * string) :=
  foldr insert_item [] items.

(** [labels: Optional[dict[str, str]]], a dict as the list of its items. *)
Definition Labels : Type := option (list (string * string)).

Definition _make_key (metric : string) (labels : Labels) : string :=
  match labels with
  | None | Some [] => metric
  | Some items =>
      let label_str :=
        join "," (map (fun kv => fst kv +:+ "=" +:+ snd kv) (sorted items)) in
      metric +:+ "{" +:+ label_str +:+ "}"
  end.

(** [increment(metric, value=1.0, labels=None)] *)
Definition increment (metric : string) (value : Q) (labels : Labels) (self : t) : t :=
  if negb (_should_collect self metric) then self
  else
    let key := _make_key metric labels in
    set_counters self
      (<[key := (default 0%Q (_counters self !! key) + value)%Q]> (_counters self)).

Definition set_gauge (metric : string) (value : Q) (labels : Labels) (self : t) : t :=
  if negb (_should_collect self metric) then self
  else set_gauges self (<[_make_key metric labels := value]> (_gauges self)).

Definition get_counter (metric : string) (labels : Labels) (self : t) : Q :=
  default 0%Q (_counters self !! _make_key metric labels).

Definition get_gauge (metric : string) (labels : Labels) (self : t) : option Q :=
  _gauges self !! _make_key metric labels.

Definition reset (self : t) : t := set_gauges (set_counters self ∅) ∅.

Inductive Call : Type :=
| Increment (metric : string) (value : Q) (labels : Labels)
| SetGauge (metric : string) (value : Q) (labels : Labels)
| Reset.

Definition step (c : Call) (self : t) : t :=
  match c with
  | Increment metric value labels => increment metric value labels self
  | SetGauge metric value labels => set_gauge metric value labels self
  | Reset => reset self
  end.

Definition run (cs : list Call) (self : t) : t := fold_left (fun s c => step c s) cs self.



End Metrics.

(** ** The syntax tree of sqlglot, as the sources use it

    [sqlglot] is an external package.  What follows fixes the part of its
    documented interface that the validator and the rewriter rely on:
    expression nodes with a class, named arguments and object identity;
    breadth-first [walk]/[find_all]/[find]; the accessors [text], [name],
    [catalog], [table]; [set]; [copy]; and [exp.and_]. *)

Module Sqlglot.

Inductive ExprClass : Type :=
| Select | Union | Subquery | Table | Column
| Identifier | Literal | Var | Star | Null
| From | Where | Join | And | Or | Xor | Paren
| Anonymous                                   (* exp.Anonymous, a Func *)
| Builtin (class_name sql_name : string)      (* any other subclass of exp.Func *)
| Other (class_name : string).                (* any other class: Delete, EQ, ... *)

(** An expression object: [uid] stands for the identity of the Python
    object ([is]); [strs] are its string-valued arguments, [kids] its
    expression-valued arguments in the order of [args] (a list-valued
    argument contributes one entry per element). *)
Inductive Expression : Type :=
| Node (uid : nat) (cls : ExprClass)
       (strs : list (string * string)) (kids : list (string * Expression)).

Definition uid (e : Expression) : nat := match e with Node u _ _ _ => u end.
Definition cls (e : Expression) : ExprClass := match e with Node _ c _ _ => c end.
Definition strs (e : Expression) : list (string * string) :=
  match e with Node _ _ s _ => s end.
Definition kids (e : Expression) : list (string * Expression) :=
  match e with Node _ _ _ k => k end.

(** [type(e).__name__] *)
Definition type_name (c : ExprClass) : string :=
  match c with
  | Select => "Select" | Union => "Union" | Subquery => "Subquery"
  | Table => "Table" | Column => "Column" | Identifier => "Identifier"
  | Literal => "Literal" | Var => "Var" | Star => "Star" | Null => "Null"
  | From => "From" | Where => "Where" | Join => "Join"
  | And => "And" | Or => "Or" | Xor => "Xor" | Paren => "Paren"
  | Anonymous => "Anonymous"
  | Builtin n _ => n
  | Other n => n
  end.

(** [isinstance(e, exp.X)] *)
Definition is_select (c : ExprClass) : bool := match c with Select => true | _ => false end.
Definition is_table (c : ExprClass) : bool := match c with Table => true | _ => false end.
Definition is_column (c : ExprClass) : bool := match c with Column => true | _ => false end.
Definition is_where (c : ExprClass) : bool := match c with Where => true | _ => false end.
Definition is_subquery (c : ExprClass) : bool := match c with Subquery => true | _ => false end.
Definition is_anonymous (c : ExprClass) : bool := match c with Anonymous => true | _ => false end.
Definition is_func (c : ExprClass) : bool :=
  match c with Anonymous | Builtin _ _ => true | _ => false end.
Definition is_connector (c : ExprClass) : bool :=
  match c with And | Or | Xor => true | _ => false end.

Fixpoint assoc {A : Type} (key : string) (l : list (string * A)) : option A :=
  match l with
  | [] => None
  | (k, v) :: l' => if String.eqb k key then Some v else assoc key l'
  end.

(** [e.args.get(key)] when the value is an expression. *)
Definition arg (key : string) (e : Expression) : option Expression := assoc key (kids e).

(** [e.text(key)] *)
Definition text (key : string) (e : Expression) : string :=
  match assoc key (strs e) with
  | Some s => s
  | None =>
      match arg key e with
      | Some k =>
          match cls k with
          | Identifier | Literal | Var => default "" (assoc "this" (strs k))
          | Star => "*"
          | Null => "NULL"
          | _ => ""
          end
      | None => ""
      end
  end.

(** [e.name] *)
Definition name (e : Expression) : string := text "this" e.

(** [Table.name], [Table.db], [Table.catalog], [Column.table] *)
Definition table_name (e : Expression) : string :=
  match arg "this" e with
  | None => ""
  | Some k => if is_func (cls k) then "" else name k
  end.
Definition db (e : Expression) : string := text "db" e.
Definition catalog (e : Expression) : string := text "catalog" e.
Definition table (e : Expression) : string := text "table" e.

(** [e.iter_expressions()] *)
Definition children (e : Expression) : list Expression := map snd (kids e).

Fixpoint size (e : Expression) : nat :=
  match e with
  | Node _ _ _ ks =>
      S ((fix sizes (l : list (string * Expression)) : nat :=
            match l with
            | [] => O
            | (_, k) :: l' => (size k + sizes l')%nat
            end) ks)
  end.

(** [e.bfs()]: pop a node, yield it, enqueue its children. *)
Fixpoint bfs (fuel : nat) (queue : list Expression) : list Expression :=
  match fuel with
  | O => []
  | S fuel' =>
      match queue with
      | [] => []
      | node :: queue' => node :: bfs fuel' (queue' ++ children node)
      end
  end.

(** [e.walk()] (breadth first, the default); the fuel is the exact number
    of nodes. *)
Definition walk (e : Expression) : list Expression := bfs (size e) [e].

(** [e.find_all(exp.X)] and [e.find(exp.X)] *)
Definition find_all (p : ExprClass -> bool) (e : Expression) : list Expression :=
  List.filter (fun n => p (cls n)) (walk e).
Definition find (p : ExprClass -> bool) (e : Expression) : option Expression :=
  head (find_all p e).

(** [x] is [e] or occurs below it. *)
Inductive subexpr (x : Expression) : Expression -> Prop :=
| subexpr_here : subexpr x x
| subexpr_below (e k : Expression) :
    In k (children e) -> subexpr x k -> subexpr x e.

(** [d[key] = v] on the expression-valued arguments. *)
Fixpoint put (key : string) (v : Expression) (l : list (string * Expression))
  : list (string * Expression) :=
  match l with
  | [] => [(key, v)]
  | (k, x) :: l' => if String.eqb k key then (k, v) :: l' else (k, x) :: put key v l'
  end.

(** [target.set(key, v)], seen from the root [e] of the tree that holds the
    object [target]. *)
Fixpoint set (target : nat) (key : string) (v : Expression) (e : Expression)
  : Expression :=
  match e with
  | Node u c ss ks =>
      if Nat.eqb u target then Node u c ss (put key v ks)
      else Node u c ss
             ((fix sets (l : list (string * Expression)) : list (string * Expression) :=
                 match l with
                 | [] => []
                 | (k, x) :: l' => (k, set target key v x) :: sets l'
                 end) ks)
  end.

(** Fresh objects: every node of [e] gets a new identity, starting at
    [next].  Used for the result of a parse and for [e.copy()]. *)
Fixpoint fresh (e : Expression) (next : nat) : Expression * nat :=
  match e with
  | Node _ c ss ks =>
      let '(ks', next') :=
        (fix freshs (l : list (string * Expression)) (n : nat)
           : list (string * Expression) * nat :=
           match l with
           | [] => ([], n)
           | (k, x) :: l' =>
               let '(x', n1) := fresh x n in
               let '(l'', n2) := freshs l' n1 in
               ((k, x') :: l'', n2)
           end) ks (S next) in
      (Node next c ss ks', next')
  end.

Definition copy (e : Expression) (next : nat) : Expression * nat := fresh e next.

(** [_wrap(e, Connector)] *)
Definition wrap (e : Expression) (next : nat) : Expression * nat :=
  if is_connector (cls e) then (Node next Paren [] [("this", e)], S next)
  else (e, next).

(** [exp.and_(a, b)]: operands that are [None] are dropped, the others
    copied; connectors are parenthesised.  With no operand left the call
    raises ([None] here). *)
Definition and_ (a b : option Expression) (next : nat) : option (Expression * nat) :=
  match a, b with
  | None, None => None
  | Some x, None | None, Some x => Some (copy x next)
  | Some x, Some y =>
      let '(x', n1) := copy x next in
      let '(y', n2) := copy y n1 in
      let '(wx, n3) := wrap x' n2 in
      let '(wy, n4) := wrap y' n3 in
      Some (Node n4 And [] [("this", wx); ("expression", wy)], S n4)
  end.

(** [exp.Where(this=c)] *)
Definition mk_where (c : option Expression) (next : nat) : Expression * nat :=
  (Node next Where [] (match c with Some x => [("this", x)] | None => [] end), S next).

End Sqlglot.

(** ** models/security.py *)

Module Security.

Inductive AccessLevel : Type := NONE | READ | ADMIN.

Record TableAccessRule : Type := {
  schema : string;                         (* default "public" *)
  table : string;
  access_level : AccessLevel;
  allowed_columns : option (list string);
  denied_columns : option (list string);
  row_filter : option string;
  comment : option string
}.

Record DatabaseAccessPolicy : Type := {
  database_name : string;
  default_access : AccessLevel;
  table_rules : list TableAccessRule;
  require_explain : bool;
  max_explain_cost : option Q;
  blocked_tables : list string
}.

Definition get_table_access (self : DatabaseAccessPolicy) (schema_ table_ : string)
  : option TableAccessRule :=
  List.find (fun rule => String.eqb (schema rule) schema_ && String.eqb (table rule) table_)
            (table_rules self).

Definition is_table_blocked (self : DatabaseAccessPolicy) (schema_ table_ : string) : bool :=
  let table_name := schema_ +:+ "." +:+ table_ in
  str_in table_name (blocked_tables self) || str_in table_ (blocked_tables self).

Definition get_allowed_columns (self : DatabaseAccessPolicy) (schema_ table_ : string)
  : option (list string) :=
  match get_table_access self schema_ table_ with
  | None => None
  | Some rule => allowed_columns rule
  end.

Definition get_denied_columns (self : DatabaseAccessPolicy) (schema_ table_ : string)
  : list string :=
  match get_table_access self schema_ table_ with
  | None => []
  | Some rule => default [] (denied_columns rule)
  end.

Definition get_row_filter (self : DatabaseAccessPolicy) (schema_ table_ : string)
  : option string :=
  match get_table_access self schema_ table_ with
  | None => None
  | Some rule => row_filter rule
  end.

End Security.

Module SecurityValidationResult.

Record t : Type := {
  is_valid : bool;
  error_message : option string;
  blocked_tables : list string;
  blocked_columns : list string;
  rewritten_sql : option string
}.

End SecurityValidationResult.

(** Truth value of a Python string and of a list. *)
Definition nonempty_str (s : string) : bool := negb (String.eqb s "").
Definition nonempty {A : Type} (l : list A) : bool :=
  match l with [] => false | _ => true end.

(** ** core/sql_validator.py *)

Module SQLValidator.
Import Sqlglot.

Section WithSqlglot.

(** [sqlglot.parse_one(sql, dialect="postgres")],
    [e.sql(dialect="postgres", pretty=True)] and [str(e)]. *)
Variable parse_one : string -> Outcome Expression.
Variable to_sql : Expression -> Outcome string.
Variable expr_str : Expression -> string.

Definition dangerous_function_names : list string :=
  [ "pg_read_file"; "pg_write_file"; "pg_execute"; "copy";
    "pg_terminate_backend"; "pg_cancel_backend"; "set_config";
    "current_setting"; "pg_reload_conf"; "pg_rotate_logfile";
    "pg_ls_dir"; "pg_read_binary_file"; "pg_stat_file" ].

(** [str(node.this)] *)
Definition str_this (node : Expression) : string :=
  match assoc "this" (strs node) with
  | Some s => s
  | None =>
      match arg "this" node with
      | Some k => expr_str k
      | None => "None"
      end
  end.

(** The identifier that the loop of [_check_dangerous_functions] reads off a
    function node, before lowering: [str(node.this)] for an anonymous
    function, [node.sql_name()] for every other one (each function class has
    [sql_name], so the last branch of the source is never taken). *)
Definition func_identifier (node : Expression) : string :=
  match cls node with
  | Anonymous => str_this node
  | Builtin _ sql_name => sql_name
  | _ => name node
  end.

Definition func_name (node : Expression) : string := lower (func_identifier node).

Definition _check_dangerous_functions (parsed : Expression) : list string :=
  List.filter (fun func_name => nonempty_str func_name
                                && str_in func_name dangerous_function_names)
              (map func_name (find_all is_func parsed)).

Definition _check_subqueries (parsed : Expression) : option string :=
  head (omap (fun node =>
                if is_subquery (cls node) then
                  match arg "this" node with
                  | Some subquery =>
                      if is_select (cls subquery) then None
                      else Some (type_name (cls subquery))
                  | None => Some "NoneType"
                  end
                else None)
             (walk parsed)).

Definition validate_sql (sql : string) : bool * option string :=
  match parse_one sql with
  | Return parsed =>
      if negb (is_select (cls parsed)) then
        (false, Some ("Only SELECT queries are allowed. Detected: "
                      +:+ type_name (cls parsed)))
      else
        let dangerous_funcs := _check_dangerous_functions parsed in
        if nonempty dangerous_funcs then
          (false, Some ("Dangerous functions detected: " +:+ join ", " dangerous_funcs))
        else
          match _check_subqueries parsed with
          | Some non_select =>
              if nonempty_str non_select then
                (false, Some ("Non-SELECT statement in subquery: " +:+ non_select))
              else (true, None)
          | None => (true, None)
          end
  | Raise e =>
      match exc_class e with
      | ParseError => (false, Some ("SQL syntax error: " +:+ exc_str e))
      | _ => (false, Some ("SQL validation failed: " +:+ exc_str e))
      end
  end.

(** [format_sql(sql)] *)
Definition format_sql (sql : string) : Outcome string :=
  try_except (do parsed <- parse_one sql; to_sql parsed)
             (fun _ => Return sql).

End WithSqlglot.

(** The generator is stable on what the parser reads back: when a parsed
    text is printed, and the print parses and is printed again, the two
    prints are the same text. *)
Definition print_stable (parse_one : string -> Outcome Expression)
           (to_sql : Expression -> Outcome string) : Prop :=
  forall sql parsed formatted parsed' formatted',
    parse_one sql = Return parsed -> to_sql parsed = Return formatted ->
    parse_one formatted = Return parsed' -> to_sql parsed' = Return formatted' ->
    formatted' = formatted.

(** A function name matches a listed name regardless of letter case. *)
Definition matches_ci (identifier listed : string) : Prop :=
  lower identifier = lower listed.

End SQLValidator.

(** ** core/sql_access_control.py *)

Module SQLAccessControlRewriter.
Import Sqlglot Security.

(** [table_name.split(".", 1)] when the name contains a dot. *)
Fixpoint split_dot (s : string) : option (string * string) :=
  match s with
  | String.EmptyString => None
  | String.String c s' =>
      if Ascii.eqb c "." then Some (String.EmptyString, s')
      else match split_dot s' with
           | Some (a, b) => Some (String.String c a, b)
           | None => None
           end
  end.

Definition _split_table_name (table_name : string) : string * string :=
  match split_dot table_name with
  | Some parts => parts
  | None => ("public", table_name)
  end.

Definition _get_table_for_column (col_node parsed : Expression) : option string :=
  if nonempty_str (Sqlglot.table col_node) then Some (Sqlglot.table col_node)
  else match find_all is_table parsed with
       | table_node :: _ => Some (Sqlglot.table_name table_node)
       | [] => None
       end.

(** The schema under which the loop checks a table reference, and the name
    it reports. *)
Definition checked_schema (table_node : Expression) : string :=
  if nonempty_str (catalog table_node) then catalog table_node else "public".

Definition reported_name (table_node : Expression) : string :=
  checked_schema table_node +:+ "." +:+ table_name table_node.

Definition checked_blocked (policy : DatabaseAccessPolicy) (table_node : Expression) : bool :=
  is_table_blocked policy (checked_schema table_node) (table_name table_node).

(** The WHERE clause of each SELECT of a tree, in the order of the walk. *)
Definition where_clauses (parsed : Expression) : list (option Expression) :=
  map (arg "where") (find_all is_select parsed).

Section WithSqlglot.

Variable parse_one : string -> Outcome Expression.
Variable to_sql : Expression -> Outcome string.

(** The tree under rewriting together with the next unused object
    identity. *)
Definition Heap : Type := (Expression * nat)%type.

(** The first SELECT, in breadth-first order, among whose tables the
    object [table_node] occurs; the root when there is none and the root
    is a SELECT. *)
Definition enclosing_select (parsed table_node : Expression) : option Expression :=
  match List.find
          (fun select_node =>
             existsb (fun tbl => Nat.eqb (uid tbl) (uid table_node))
                     (find_all is_table select_node))
          (find_all is_select parsed) with
  | Some select => Some select
  | None => if is_select (cls parsed) then Some parsed else None
  end.

Definition _apply_row_filter (h : Heap) (table_node : Expression) (row_filter : string)
  : Heap :=
  let '(parsed, next) := h in
  match enclosing_select parsed table_node with
  | None => h
  | Some select =>
      match parse_one ("SELECT * FROM t WHERE " +:+ row_filter) with
      | Raise _ => h
      | Return filter_expr0 =>
          let '(filter_expr, next1) := fresh filter_expr0 next in
          match find is_where filter_expr with
          | None => (parsed, next1)
          | Some filter_where =>
              let filter_condition := arg "this" filter_where in
              match arg "where" select with
              | Some existing_where =>
                  match and_ (arg "this" existing_where) filter_condition next1 with
                  | Some (combined, next2) =>
                      let '(w, next3) := mk_where (Some combined) next2 in
                      (Sqlglot.set (uid select) "where" w parsed, next3)
                  | None => (parsed, next1)
                  end
              | None =>
                  let '(w, next2) := mk_where filter_condition next1 in
                  (Sqlglot.set (uid select) "where" w parsed, next2)
              end
          end
      end
  end.

(** One turn of the loop over the table references. *)
Definition table_step (policy : DatabaseAccessPolicy)
           (acc : list string * Heap) (table_node : Expression) : list string * Heap :=
  let '(blocked_tables, h) := acc in
  let schema := if nonempty_str (catalog table_node) then catalog table_node
                else "public" in
  let table := table_name table_node in
  if is_table_blocked policy schema table then
    ((blocked_tables ++ [schema +:+ "." +:+ table])%list, h)
  else
    match get_row_filter policy schema table with
    | Some row_filter =>
        if nonempty_str row_filter then
          (blocked_tables, _apply_row_filter h table_node row_filter)
        else acc
    | None => acc
    end.

(** One turn of the loop over the column references. *)
Definition column_step (policy : DatabaseAccessPolicy) (parsed : Expression)
           (blocked_columns : list string) (col_node : Expression) : list string :=
  match _get_table_for_column col_node parsed with
  | Some table_name =>
      if nonempty_str table_name then
        let '(schema, table) := _split_table_name table_name in
        let blocked := schema +:+ "." +:+ table +:+ "." +:+ name col_node in
        if str_in (name col_node) (get_denied_columns policy schema table) then
          (blocked_columns ++ [blocked])%list
        else
          match get_allowed_columns policy schema table with
          | Some allowed_cols =>
              if nonempty allowed_cols && negb (str_in (name col_node) allowed_cols)
              then (blocked_columns ++ [blocked])%list
              else blocked_columns
          | None => blocked_columns
          end
      else blocked_columns
  | None => blocked_columns
  end.

(** The two loops of [rewrite_and_validate] on a parsed statement.  The
    generator [parsed.find_all(exp.Table)] has enqueued the children of
    every SELECT before it yields a table below it, and the rewriting
    only exchanges the WHERE argument of such a SELECT for fresh nodes,
    so the loop meets exactly the tables of the statement as parsed. *)
Definition scan (policy : DatabaseAccessPolicy) (h0 : Heap)
  : list string * list string * Expression :=
  let '(blocked_tables, (parsed, _)) :=
    fold_left (table_step policy) (find_all is_table (fst h0)) ([], h0) in
  let blocked_columns :=
    fold_left (column_step policy parsed) (find_all is_column parsed) [] in
  (blocked_tables, blocked_columns, parsed).

Definition denial_message (blocked_tables blocked_columns : list string) : string :=
  join "; "
    ((if nonempty blocked_tables
      then ["Blocked tables: " +:+ join ", " blocked_tables] else [])
     ++ (if nonempty blocked_columns
         then ["Blocked columns: " +:+ join ", " blocked_columns] else []))%list.

Definition access_control_error (e : PyExc) : SecurityValidationResult.t :=
  {| SecurityValidationResult.is_valid := false;
     SecurityValidationResult.error_message :=
       Some ("Access control error: " +:+ exc_str e);
     SecurityValidationResult.blocked_tables := [];
     SecurityValidationResult.blocked_columns := [];
     SecurityValidationResult.rewritten_sql := None |}.

(** The body of the [try] of [rewrite_and_validate]. *)
Definition rewrite_and_validate_try (policy : DatabaseAccessPolicy) (sql : string)
  : Outcome SecurityValidationResult.t :=
  do parsed0 <- parse_one sql;
  let '(blocked_tables, blocked_columns, parsed) := scan policy (fresh parsed0 O) in
  if nonempty blocked_tables || nonempty blocked_columns then
    Return {| SecurityValidationResult.is_valid := false;
              SecurityValidationResult.error_message :=
                Some (denial_message blocked_tables blocked_columns);
              SecurityValidationResult.blocked_tables := blocked_tables;
              SecurityValidationResult.blocked_columns := blocked_columns;
              SecurityValidationResult.rewritten_sql := None |}
  else
    do rewritten_sql <- to_sql parsed;
    Return {| SecurityValidationResult.is_valid := true;
              SecurityValidationResult.error_message := None;
              SecurityValidationResult.blocked_tables := [];
              SecurityValidationResult.blocked_columns := [];
              SecurityValidationResult.rewritten_sql := Some rewritten_sql |}.

Definition rewrite_and_validate (policy : DatabaseAccessPolicy) (sql : string)
  : SecurityValidationResult.t :=
  match rewrite_and_validate_try policy sql with
  | Return result => result
  | Raise e => access_control_error e
  end.

End WithSqlglot.

End SQLAccessControlRewriter.

(** ** utils/retry.py, core/sql_executor.py, core/multi_database_executor.py *)

Module Executor.
Import Security.

(** Values of a result row and [type(value).__name__]. *)
Inductive PyValue : Type :=
| VNone | VBool (b : bool) | VInt (z : Z) | VFloat (q : Q) | VStr (s : string).

Definition value_type_name (v : PyValue) : string :=
  match v with
  | VNone => "NoneType" | VBool _ => "bool" | VInt _ => "int"
  | VFloat _ => "float" | VStr _ => "str"
  end.

(** An [asyncpg.Record]: its items in column order. *)
Definition Row : Type := list (string * PyValue).

Record ColumnMetadata : Type := { name : string; type : string }.

(** [d[k] = v] on a dict kept as the list of its items. *)
Fixpoint dict_set (k : string) (v : PyValue) (d : list (string * PyValue))
  : list (string * PyValue) :=
  match d with
  | [] => [(k, v)]
  | (k', v') :: d' => if String.eqb k' k then (k', v) :: d' else (k', v') :: dict_set k v d'
  end.

(** [dict(row)] *)
Definition dict (row : Row) : list (string * PyValue) :=
  fold_left (fun d kv => dict_set (fst kv) (snd kv) d) row [].

Definition QueryResult : Type := (list (list (string * PyValue)) * list ColumnMetadata * Q)%type.

(** [except (asyncpg.PostgresConnectionError, asyncpg.InterfaceError)] *)
Definition is_db_error (e : PyExc) : bool :=
  match exc_class e with
  | PostgresConnectionError | InterfaceError => true
  | _ => false
  end.

(** [retry_on_db_error(max_attempts)(func)]: [func attempt] is the outcome
    of the call made in turn [attempt] of the loop. *)
Fixpoint retry_loop {A : Type} (max_attempts : nat) (func : nat -> Outcome A)
         (turns attempt : nat) : Outcome A :=
  match turns with
  | O => Raise (MkExc RuntimeError "Should not reach here")
  | S turns' =>
      match func attempt with
      | Return a => Return a
      | Raise e =>
          if is_db_error e then
            if Nat.eqb attempt (max_attempts - 1) then Raise e
            else retry_loop max_attempts func turns' (S attempt)
          else Raise e
      end
  end.

Definition retry_on_db_error {A : Type} (max_attempts : nat) (func : nat -> Outcome A)
  : Outcome A :=
  retry_loop max_attempts func max_attempts O.

(** The part shared by both executors, from the check of the result size on:
    [rows] is what [conn.fetch] returned. *)
Definition collect_rows (rows : list Row) (max_rows : Z) (execution_time : Q) : QueryResult :=
  let rows := if Z.of_nat (length rows) >? max_rows then slice_to rows max_rows else rows in
  let results := map dict rows in
  let column_metadata :=
    match rows with
    | [] => []
    | row0 :: _ => map (fun kv => {| name := fst kv; type := value_type_name (snd kv) |}) row0
    end in
  (results, column_metadata, execution_time).

Section WithDatabase.

(** A pool is the behaviour of its connections: [fetch attempt sql] is what
    [conn.fetch(sql)] gives in the given turn of the retry loop. *)
Definition Pool : Type := nat -> string -> Outcome (list Row).

(** Wall-clock time of the fetch, in milliseconds. *)
Variable execution_time : Q.

Record QueryLimitsConfig : Type := { max_rows : Z; max_execution_time : Z }.

Record SQLExecutor : Type := {
  pool : option Pool;
  limits : QueryLimitsConfig
}.

(** The body of [SQLExecutor.execute_query], one attempt. *)
Definition sql_execute_query_once (self : SQLExecutor) (sql : string) (attempt : nat)
  : Outcome QueryResult :=
  match pool self with
  | None => Raise (MkExc RuntimeError "Database pool not initialized")
  | Some p =>
      do rows <- p attempt sql;
      Return (collect_rows rows (max_rows (limits self)) execution_time)
  end.

Definition sql_execute_query (self : SQLExecutor) (sql : string) : Outcome QueryResult :=
  retry_on_db_error 2 (sql_execute_query_once self sql).

(** [sqlglot] as in the rewriter, and [_check_explain_cost(conn, sql)], which
    either returns or raises [PermissionError] (it swallows everything
    else); its reading of the plan text is not modelled. *)
Variable parse_one : string -> Outcome Sqlglot.Expression.
Variable to_sql : Sqlglot.Expression -> Outcome string.
Variable _check_explain_cost : nat -> string -> Outcome unit.

Record DatabaseExecutor : Type := {
  db_pool : option Pool;
  access_policy : option DatabaseAccessPolicy   (* config.access_policy *)
}.

(** The SQL that reaches the database: the rewritten statement when there is
    a policy. *)
Definition final_sql (self : DatabaseExecutor) (sql : string) : Outcome string :=
  match access_policy self with
  | None => Return sql
  | Some policy =>
      let validation_result :=
        SQLAccessControlRewriter.rewrite_and_validate parse_one to_sql policy sql in
      if negb (SecurityValidationResult.is_valid validation_result) then
        Raise (MkExc PermissionError
                 ("Access control violation: "
                  +:+ default "None" (SecurityValidationResult.error_message validation_result)))
      else
        match SecurityValidationResult.rewritten_sql validation_result with
        | Some rewritten => if nonempty_str rewritten then Return rewritten else Return sql
        | None => Return sql
        end
  end.

(** [if policy and policy.require_explain: await self._check_explain_cost(...)] *)
Definition explain_gate (self : DatabaseExecutor) (attempt : nat) (final : string)
  : Outcome unit :=
  match access_policy self with
  | Some policy =>
      if require_explain policy then _check_explain_cost attempt final else Return tt
  | None => Return tt
  end.

(** The body of [DatabaseExecutor.execute_query], one attempt. *)
Definition db_execute_query_once (self : DatabaseExecutor) (sql : string) (max_rows : Z)
           (attempt : nat) : Outcome QueryResult :=
  match db_pool self with
  | None => Raise (MkExc RuntimeError "Database pool not initialized")
  | Some p =>
      do final <- final_sql self sql;
      do _ <- explain_gate self attempt final;
      do rows <- p attempt final;
      Return (collect_rows rows max_rows execution_time)
  end.

Definition db_execute_query (self : DatabaseExecutor) (sql : string) (max_rows : Z)
  : Outcome QueryResult :=
  retry_on_db_error 2 (db_execute_query_once self sql max_rows).

End WithDatabase.

End Executor.

(** ** Sample statements

    Syntax trees of a few statements, written with the argument names that
    sqlglot's PostgreSQL dialect uses ([this], [db], [catalog], [table],
    [expressions], [from], [where], [alias]), and an instance of the parser
    and of the generator that knows these statements only.  The instance is
    used to run the definitions on concrete inputs. *)

Module Samples.
Import Sqlglot.

Definition identifier (s : string) : Expression := Node O Identifier [("this", s)] [].
Definition star : Expression := Node O Star [] [].
Definition literal (s : string) : Expression := Node O Literal [("this", s)] [].
Definition column (c : string) : Expression := Node O Column [] [("this", identifier c)].
Definition table_ (t : string) : Expression := Node O Table [] [("this", identifier t)].
(** [s.t]: the qualifier of a two-part name is the argument [db]. *)
Definition table_in (s t : string) : Expression :=
  Node O Table [] [("this", identifier t); ("db", identifier s)].
Definition from_ (x : Expression) : Expression := Node O From [] [("this", x)].
Definition where_ (c : Expression) : Expression := Node O Where [] [("this", c)].
Definition eq_ (a b : Expression) : Expression :=
  Node O (Other "EQ") [] [("this", a); ("expression", b)].
Definition anonymous (f : string) (args : list Expression) : Expression :=
  Node O Anonymous [("this", f)] (map (pair "expressions") args).
Definition subquery (q : Expression) (alias : string) : Expression :=
  Node O Subquery []
       [("this", q); ("alias", Node O (Other "TableAlias") [] [("this", identifier alias)])].
Definition select_ (exprs : list Expression) (source : option Expression)
           (condition : option Expression) : Expression :=
  Node O Select []
       (map (pair "expressions") exprs
        ++ match source with Some f => [("from", from_ f)] | None => [] end
        ++ match condition with Some w => [("where", where_ w)] | None => [] end)%list.
Definition delete_ (t : string) : Expression :=
  Node O (Other "Delete") [] [("this", table_ t)].

(** [SELECT id FROM orders] *)
Definition select_id_from_orders : Expression :=
  select_ [column "id"] (Some (table_ "orders")) None.

(** [SELECT * FROM secret.users] *)
Definition select_from_secret_users : Expression :=
  select_ [star] (Some (table_in "secret" "users")) None.

(** [SELECT id FROM (SELECT id FROM orders) AS sub] *)
Definition select_from_subquery : Expression :=
  select_ [column "id"] (Some (subquery select_id_from_orders "sub")) None.

(** [SELECT password_hash FROM users] *)
Definition select_password_hash : Expression :=
  select_ [column "password_hash"] (Some (table_ "users")) None.

(** [SELECT * FROM t WHERE user_id = current_user_id()] *)
Definition filter_user_id : Expression :=
  select_ [star] (Some (table_ "t"))
          (Some (eq_ (column "user_id") (anonymous "current_user_id" []))).

(** [SELECT pg_read_file('/etc/passwd')] *)
Definition select_pg_read_file : Expression :=
  select_ [anonymous "pg_read_file" [literal "/etc/passwd"]] None None.

(** [DELETE FROM users] *)
Definition delete_from_users : Expression := delete_ "users".

(** A one-line printer for the classes above. *)
Fixpoint render (fuel : nat) (e : Expression) : string :=
  match fuel with
  | O => ""
  | S fuel' =>
      let r := render fuel' in
      let this := match arg "this" e with Some k => r k | None => "" end in
      let list_of key :=
        join ", " (map (fun kv => r (snd kv))
                       (List.filter (fun kv => String.eqb (fst kv) key) (kids e))) in
      match cls e with
      | Identifier | Var => default "" (assoc "this" (strs e))
      | Literal => "'" +:+ default "" (assoc "this" (strs e)) +:+ "'"
      | Star => "*"
      | Null => "NULL"
      | Column =>
          match arg "table" e with
          | Some t => r t +:+ "." +:+ this
          | None => this
          end
      | Table =>
          match arg "db" e with
          | Some d => r d +:+ "." +:+ this
          | None => this
          end
      | From => "FROM " +:+ this
      | Where => "WHERE " +:+ this
      | Paren => "(" +:+ this +:+ ")"
      | And => this +:+ " AND "
               +:+ match arg "expression" e with Some k => r k | None => "" end
      | Subquery =>
          "(" +:+ this +:+ ")"
          +:+ match arg "alias" e with Some a => " AS " +:+ r a | None => "" end
      | Anonymous =>
          default "" (assoc "this" (strs e)) +:+ "(" +:+ list_of "expressions" +:+ ")"
      | Select =>
          "SELECT " +:+ list_of "expressions"
          +:+ match arg "from" e with Some f => " " +:+ r f | None => "" end
          +:+ match arg "where" e with Some w => " " +:+ r w | None => "" end
      | Other "EQ" =>
          this +:+ " = "
          +:+ match arg "expression" e with Some k => r k | None => "" end
      | Other "Delete" => "DELETE FROM " +:+ this
      | _ => this
      end
  end.

Definition to_sql (e : Expression) : Outcome string := Return (render (size e) e).

Definition statements : list (string * Expression) :=
  [ ("select id from orders", select_id_from_orders);
    ("SELECT * FROM secret.users", select_from_secret_users);
    ("SELECT id FROM (SELECT id FROM orders) AS sub", select_from_subquery);
    ("SELECT password_hash FROM users", select_password_hash);
    ("SELECT * FROM t WHERE user_id = current_user_id()", filter_user_id);
    ("SELECT pg_read_file('/etc/passwd')", select_pg_read_file);
    ("DELETE FROM users", delete_from_users) ].

(** The parser on the statements above and on their printed forms; every
    other text, such as [SELECT * FROM WHERE], is a syntax error (the wording
    of the error is immaterial). *)
Definition parse_one (sql : string) : Outcome Expression :=
  match assoc sql (statements
                   ++ map (fun kv => (render (size (snd kv)) (snd kv), snd kv)) statements)%list with
  | Some e => Return e
  | None => Raise (MkExc ParseError "Invalid expression / Unexpected token")
  end.

(** [str(e)] *)
Definition expr_str (e : Expression) : string := render (size e) e.

(** Policies of the examples. *)
Definition policy (rules : list Security.TableAccessRule) (blocked : list string)
  : Security.DatabaseAccessPolicy :=
  {| Security.database_name := "test";
     Security.default_access := Security.READ;
     Security.table_rules := rules;
     Security.require_explain := false;
     Security.max_explain_cost := None;
     Security.blocked_tables := blocked |}.

Definition rule (table : string) (denied : option (list string))
           (row_filter : option string) : Security.TableAccessRule :=
  {| Security.schema := "public";
     Security.table := table;
     Security.access_level := Security.READ;
     Security.allowed_columns := None;
     Security.denied_columns := denied;
     Security.row_filter := row_filter;
     Security.comment := None |}.

(** [orders.row_filter = "user_id = current_user_id()"] *)
Definition orders_row_filter : Security.DatabaseAccessPolicy :=
  policy [rule "orders" None (Some "user_id = current_user_id()")] [].

(** [blocked_tables = ["secret.users"]] *)
Definition block_secret_users : Security.DatabaseAccessPolicy :=
  policy [] ["secret.users"].

(** [users.denied_columns = ["password_hash"]] *)
Definition deny_password_hash : Security.DatabaseAccessPolicy :=
  policy [rule "users" (Some ["password_hash"]) None] [].

End Samples.

(** ** Probes of one key, one after the other *)

Module RateLimiterTrace.
Import RateLimiter.

(** The probes [check_rate_limit(key)] made at the given times, in order:
    the times of the probes that were allowed, and the limiter afterwards. *)
Fixpoint admitted (key : string) (times : list Q) (self : t) : list Q * t :=
  match times with
  | [] => ([], self)
  | now :: rest =>
      let '(r, self') := check_rate_limit key now self in
      let '(a, self'') := admitted key rest self' in
      (if fst r then now :: a else a, self'')
  end.

(** The clock does not run backwards. *)
Fixpoint nondecreasing (times : list Q) : Prop :=
  match times with
  | [] => True
  | t0 :: rest => (forall t, In t rest -> (t0 <= t)%Q) /\ nondecreasing rest
  end.

(** Number of the given times that lie in [(now - W, now]]. *)
Definition in_window (W : Z) (now : Q) (times : list Q) : nat :=
  length (List.filter (fun ts => Qgtb ts (now - inject_Z W)%Q && Qle_bool ts now) times).

End RateLimiterTrace.

(** ** What a sequence of calls contributes to one metric key *)

Module MetricsTrace.
Import Metrics.

(** What the counter stored under [key] reads after a call, given what it
    read before: an [increment] that is collected and addresses that key
    adds its value to it, a [reset] leaves zero, every other call leaves
    it alone. *)
Definition counter_after (self : t) (key : string) (before : Q) (c : Call) : Q :=
  match c with
  | Increment metric value labels =>
      if _should_collect self metric && String.eqb (_make_key metric labels) key
      then (before + value)%Q else before
  | SetGauge _ _ _ => before
  | Reset => 0%Q
  end.

(** The call may change the gauge stored under [key]: a collected
    [set_gauge] of that key, or a [reset]. *)
Definition touches_gauge (self : t) (key : string) (c : Call) : bool :=
  match c with
  | SetGauge metric _ labels =>
      _should_collect self metric && String.eqb (_make_key metric labels) key
  | Reset => true
  | Increment _ _ _ => false
  end.

End MetricsTrace.

(** ** utils/metrics.py (histograms and timers of [MetricsCollector]) *)

Module MetricsTables.
Import Metrics.

(** [MetricValue]; its [timestamp] ([datetime.now()]) plays no part in any
    computation and is left out. *)
Record MetricValue : Type := { value : Q; labels : list (string * string) }.

(** [MetricStats]; [min] and [max] start at [float("inf")] and
    [float("-inf")], written [None] here. *)
Record MetricStats : Type := {
  count : Z;
  total : Q;
  min : option Q;
  max : option Q;
  avg : Q
}.

Definition new_stats : MetricStats :=
  {| count := 0; total := 0; min := None; max := None; avg := 0 |}.

(** [min(a, b)] and [max(a, b)] of Python: the first argument unless the
    second is strictly smaller (larger). *)
Definition py_min2 (a b : Q) : Q := if Qgtb a b then b else a.
Definition py_max2 (a b : Q) : Q := if Qgtb b a then b else a.

(** [MetricStats.update(value)] *)
Definition update (self : MetricStats) (v : Q) : MetricStats :=
  let count' := count self + 1 in
  let total' := (total self + v)%Q in
  {| count := count';
     total := total';
     min := Some (match min self with None => v | Some m => py_min2 m v end);
     max := Some (match max self with None => v | Some m => py_max2 m v end);
     avg := (total' / inject_Z count')%Q |}.

(** The collector with its four tables: the flags, counters and gauges of
    [Metrics.t], the histograms and the timers. *)
Record t : Type := {
  base : Metrics.t;
  _histograms : gmap string (list MetricValue);   (* defaultdict(list) *)
  _timers : gmap string MetricStats               (* defaultdict(MetricStats) *)
}.

Definition init (enabled collect_query_metrics collect_sql_metrics
                 collect_db_metrics : bool) : t :=
  {| base := Metrics.init enabled collect_query_metrics collect_sql_metrics
                          collect_db_metrics;
     _histograms := ∅;
     _timers := ∅ |}.

(** [l[-n:]] for [n > 0] *)
Definition lastn {A : Type} (n : nat) (l : list A) : list A := skipn (length l - n) l.

(** [record_histogram(metric, value, labels=None)] *)
Definition record_histogram (metric : string) (v : Q) (labels_ : Labels) (self : t) : t :=
  if negb (_should_collect (base self) metric) then self
  else
    let key := _make_key metric labels_ in
    let appended :=
      (default [] (_histograms self !! key)
       ++ [{| value := v; labels := default [] labels_ |}])%list in
    let kept := if (1000 <? length appended)%nat then lastn 1000 appended else appended in
    {| base := base self;
       _histograms := <[key := kept]> (_histograms self);
       _timers := _timers self |}.

(** [record_timer(metric, duration_ms, labels=None)] *)
Definition record_timer (metric : string) (duration_ms : Q) (labels_ : Labels) (self : t) : t :=
  if negb (_should_collect (base self) metric) then self
  else
    let key := _make_key metric labels_ in
    {| base := base self;
       _histograms := _histograms self;
       _timers := <[key := update (default new_stats (_timers self !! key)) duration_ms]>
                    (_timers self) |}.

(** [sorted(values)] on floats, stable. *)
Fixpoint insert_value (x : Q) (l : list Q) : list Q :=
  match l with
  | [] => [x]
  | y :: l' => if Qle_bool x y then x :: l else y :: insert_value x l'
  end.

Definition sorted_values (values : list Q) : list Q := foldr insert_value [] values.

(** [l[i]] for an integer index: negative indices count from the end. *)
Definition index {A : Type} (l : list A) (i : Z) : Outcome A :=
  let j := if i <? 0 then Z.of_nat (length l) + i else i in
  if j <? 0 then Raise (MkExc OtherException "list index out of range")
  else match nth_error l (Z.to_nat j) with
       | Some x => Return x
       | None => Raise (MkExc OtherException "list index out of range")
       end.

(** [_percentile(values, percentile)]; [int(len * percentile / 100)] rounds
    towards zero. *)
Definition _percentile (values : list Q) (percentile : Z) : Outcome Q :=
  match values with
  | [] => Return 0%Q
  | _ =>
      let sorted := sorted_values values in
      let i := Z.quot (Z.of_nat (length sorted) * percentile) 100 in
      index sorted (Z.min i (Z.of_nat (length sorted) - 1))
  end.

(** [sum(values)], [min(values)], [max(values)] *)
Definition sum (values : list Q) : Q := fold_left Qplus values 0%Q.
Definition minimum (x : Q) (l : list Q) : Q := fold_left py_min2 l x.
Definition maximum (x : Q) (l : list Q) : Q := fold_left py_max2 l x.

Record HistogramStats : Type := {
  h_count : Z; h_min : Q; h_max : Q; h_avg : Q; p50 : Q; p95 : Q; p99 : Q
}.

(** [get_histogram_stats(metric, labels=None)] *)
Definition get_histogram_stats (metric : string) (labels_ : Labels) (self : t)
  : Outcome (option HistogramStats) :=
  match map value (default [] (_histograms self !! _make_key metric labels_)) with
  | [] => Return None
  | v0 :: rest =>
      let value_list := v0 :: rest in
      do q50 <- _percentile value_list 50;
      do q95 <- _percentile value_list 95;
      do q99 <- _percentile value_list 99;
      Return (Some {| h_count := Z.of_nat (length value_list);
                      h_min := minimum v0 rest;
                      h_max := maximum v0 rest;
                      h_avg := (sum value_list / inject_Z (Z.of_nat (length value_list)))%Q;
                      p50 := q50; p95 := q95; p99 := q99 |})
  end.

(** [get_timer_stats(metric, labels=None)] *)
Definition get_timer_stats (metric : string) (labels_ : Labels) (self : t)
  : option MetricStats :=
  match _timers self !! _make_key metric labels_ with
  | None => None
  | Some stats => if count stats =? 0 then None else Some stats
  end.

(** Recording several values for one metric, one after the other. *)
Definition record_histograms (metric : string) (labels_ : Labels) (values : list Q)
           (self : t) : t :=
  fold_left (fun s v => record_histogram metric v labels_ s) values self.

Definition record_timers (metric : string) (labels_ : Labels) (durations : list Q)
           (self : t) : t :=
  fold_left (fun s d => record_timer metric d labels_ s) durations self.

(** The values stored for a histogram key. *)
Definition stored (metric : string) (labels_ : Labels) (self : t) : list Q :=
  map value (default [] (_histograms self !! _make_key metric labels_)).

End MetricsTables.

(** ** utils/retry.py: the decorators that wait between attempts *)

Module Retry.

Section WithClasses.

(** The tests of the two [except] clauses:
    [isinstance(e, (asyncio.TimeoutError, asyncpg.QueryCanceledError))] and
    [isinstance(e, (openai.APITimeoutError, openai.APIConnectionError,
    openai.RateLimitError))]. *)
Variable is_timeout_error : PyExc -> bool.
Variable is_api_error : PyExc -> bool.

(** The loop of both wrappers.  [func attempt] is the outcome of the call
    made in turn [attempt]; the second component lists the arguments of
    [asyncio.sleep], in the order of the calls. *)
Fixpoint backoff_loop {A : Type} (retryable : PyExc -> bool) (max_attempts : nat)
         (backoff : Q) (func : nat -> Outcome A) (turns attempt : nat) (current_delay : Q)
  : Outcome A * list Q :=
  match turns with
  | O => (Raise (MkExc RuntimeError "Should not reach here"), [])
  | S turns' =>
      match func attempt with
      | Return a => (Return a, [])
      | Raise e =>
          if retryable e then
            if Nat.eqb attempt (max_attempts - 1) then (Raise e, [])
            else
              let '(r, sleeps) :=
                backoff_loop retryable max_attempts backoff func turns' (S attempt)
                             (current_delay * backoff)%Q in
              (r, current_delay :: sleeps)
          else (Raise e, [])
      end
  end.

(** [retry_on_timeout(max_attempts, delay, backoff)(func)] *)
Definition retry_on_timeout {A : Type} (max_attempts : nat) (delay backoff : Q)
           (func : nat -> Outcome A) : Outcome A * list Q :=
  backoff_loop is_timeout_error max_attempts backoff func max_attempts O delay.

(** [retry_on_api_error(max_attempts, delay, backoff)(func)] *)
Definition retry_on_api_error {A : Type} (max_attempts : nat) (delay backoff : Q)
           (func : nat -> Outcome A) : Outcome A * list Q :=
  backoff_loop is_api_error max_attempts backoff func max_attempts O delay.

End WithClasses.

End Retry.

(** ** core/query_processor.py, models/query.py, models/errors.py *)

Module ErrorType.

Inductive t : Type :=
| SCHEMA_NOT_LOADED | AI_GENERATION_FAILED | VALIDATION_FAILED | EXECUTION_FAILED
| TIMEOUT | INTERNAL_ERROR | CONFIG_INVALID | DATABASE_CONNECTION_FAILED
| RESULT_VALIDATION_FAILED.

End ErrorType.

Module QueryRequest.

Record t : Type := { query : string; database : option string }.

End QueryRequest.

Module QueryMetadata.

Record t : Type := {
  rows : nat;
  execution_time_ms : Q;
  columns : list Executor.ColumnMetadata
}.

End QueryMetadata.

Module QueryResponse.

Record t : Type := {
  sql : string;
  results : list (list (string * Executor.PyValue));
  metadata : QueryMetadata.t;
  database : string
}.

End QueryResponse.

Module QueryError.

Record t : Type := {
  error : ErrorType.t;
  message : string;
  suggestion : option string;
  sql : option string;
  validation_details : option string
}.

End QueryError.

Module StandardMetrics.

Definition QUERY_TOTAL : string := "mcp.query.total".
Definition QUERY_SUCCESS : string := "mcp.query.success".
Definition QUERY_ERROR : string := "mcp.query.error".
Definition QUERY_DURATION : string := "mcp.query.duration_ms".
Definition SQL_GENERATION_TOTAL : string := "mcp.sql.generation.total".
Definition SQL_GENERATION_SUCCESS : string := "mcp.sql.generation.success".
Definition SQL_GENERATION_ERROR : string := "mcp.sql.generation.error".
Definition SQL_GENERATION_DURATION : string := "mcp.sql.generation.duration_ms".
Definition SQL_EXECUTION_TOTAL : string := "mcp.sql.execution.total".
Definition SQL_EXECUTION_SUCCESS : string := "mcp.sql.execution.success".
Definition SQL_EXECUTION_ERROR : string := "mcp.sql.execution.error".
Definition SQL_EXECUTION_DURATION : string := "mcp.sql.execution.duration_ms".
Definition SQL_EXECUTION_ROWS : string := "mcp.sql.execution.rows".
Definition VALIDATION_TOTAL : string := "mcp.validation.total".
Definition VALIDATION_SUCCESS : string := "mcp.validation.success".
Definition VALIDATION_FAILED : string := "mcp.validation.failed".
Definition VALIDATION_DURATION : string := "mcp.validation.duration_ms".
Definition RATE_LIMIT_CHECKS : string := "mcp.rate_limit.checks".
Definition RATE_LIMIT_EXCEEDED : string := "mcp.rate_limit.exceeded".

End StandardMetrics.

Module QueryProcessor.
Import Executor StandardMetrics.

(** A call that the pipeline makes on its metrics collector. *)
Inductive MetricsCall : Type :=
| CallIncrement (metric : string) (labels : Metrics.Labels)
| CallRecordTimer (metric : string) (duration_ms : Q) (labels : Metrics.Labels)
| CallRecordHistogram (metric : string) (value : Q) (labels : Metrics.Labels).

(** How many of the calls increment the counter [metric]. *)
Definition increments (metric : string) (cs : list MetricsCall) : nat :=
  length (List.filter (fun c => match c with
                                | CallIncrement m _ => String.eqb m metric
                                | _ => false
                                end) cs).

(** How many of the calls record a duration for the timer [metric]. *)
Definition timings (metric : string) (cs : list MetricsCall) : nat :=
  length (List.filter (fun c => match c with
                                | CallRecordTimer m _ _ => String.eqb m metric
                                | _ => false
                                end) cs).

(** The values recorded for the histogram [metric], in the order of the
    calls. *)
Definition observations (metric : string) (cs : list MetricsCall) : list Q :=
  omap (fun c => match c with
                 | CallRecordHistogram m v _ => if String.eqb m metric then Some v else None
                 | _ => None
                 end) cs.

(** The three durations that the pipeline measures with [time.time()]. *)
Record Clock : Type := {
  sql_gen_duration : Q;
  sql_exec_duration : Q;
  val_duration : Q
}.

Section WithSqlglot.

Variable parse_one : string -> Outcome Sqlglot.Expression.
Variable to_sql : Sqlglot.Expression -> Outcome string.
Variable expr_str : Sqlglot.Expression -> string.

(** The processor with its collaborators: whether the schema cache holds a
    schema, the outcome of [sql_generator.generate_sql] for a question, the
    outcome of [sql_executor.execute_query] for a statement (the pipeline
    passes the statement and nothing else), the outcome of
    [result_validator.validate_results] for a question, a statement and
    its rows, and whether a collector is attached. *)
Record t : Type := {
  schema : bool;
  generate_sql : string -> Outcome string;
  execute_query : string -> Outcome QueryResult;
  validate_results :
    string -> string -> list (list (string * PyValue)) -> Outcome (bool * option string);
  database_name : string;
  metrics : bool
}.

(** The two executors that the servers hand to the processor.  A
    [DatabaseExecutor] is called without [max_rows], which then has its
    default. *)
Definition sql_executor (execution_time : Q) (executor : SQLExecutor)
  : string -> Outcome QueryResult :=
  sql_execute_query execution_time executor.


(** [if self.metrics: ...] *)
Definition noted (self : t) (cs : list MetricsCall) : list MetricsCall :=
  if metrics self then cs else [].

(** [error_msg or "SQL validation failed"] *)
Definition message_or (error_msg : option string) (fallback : string) : string :=
  match error_msg with
  | Some m => if nonempty_str m then m else fallback
  | None => fallback
  end.

Definition internal_error (e : PyExc) : QueryError.t :=
  {| QueryError.error := ErrorType.INTERNAL_ERROR;
     QueryError.message := "Internal error: " +:+ exc_str e;
     QueryError.suggestion := Some "Please contact system administrator";
     QueryError.sql := None;
     QueryError.validation_details := None |}.

(** [process_query(request)]: the response or the error, and the calls made
    on the collector, in order. *)
Definition process_query (self : t) (clock : Clock) (request : QueryRequest.t)
  : (QueryResponse.t + QueryError.t) * list MetricsCall :=
  if negb (schema self) then
    (inr {| QueryError.error := ErrorType.SCHEMA_NOT_LOADED;
            QueryError.message := "Database schema not loaded";
            QueryError.suggestion := Some "Please restart the server to load schema";
            QueryError.sql := None;
            QueryError.validation_details := None |}, [])
  else
    let labels := Some [("database", database_name self)] in
    let calls1 := noted self [CallIncrement SQL_GENERATION_TOTAL labels] in
    match generate_sql self (QueryRequest.query request) with
    | Raise e =>
        (inr {| QueryError.error := ErrorType.AI_GENERATION_FAILED;
                QueryError.message := "SQL generation failed: " +:+ exc_str e;
                QueryError.suggestion :=
                  Some "Please try again later, or simplify your query description";
                QueryError.sql := None;
                QueryError.validation_details := None |},
         (calls1 ++ noted self [CallIncrement SQL_GENERATION_ERROR labels])%list)
    | Return sql =>
        let calls2 :=
          (calls1
           ++ noted self [CallIncrement SQL_GENERATION_SUCCESS labels;
                          CallRecordTimer SQL_GENERATION_DURATION
                                          (sql_gen_duration clock) labels])%list in
        let '(is_valid, error_msg) := SQLValidator.validate_sql parse_one expr_str sql in
        if negb is_valid then
          (inr {| QueryError.error := ErrorType.VALIDATION_FAILED;
                  QueryError.message := message_or error_msg "SQL validation failed";
                  QueryError.suggestion :=
                    Some "This system only supports SELECT queries. Please rephrase your query.";
                  QueryError.sql := Some sql;
                  QueryError.validation_details := None |}, calls2)
        else
          match SQLValidator.format_sql parse_one to_sql sql with
          | Raise e => (inr (internal_error e), calls2)
          | Return formatted_sql =>
              let calls3 :=
                (calls2 ++ noted self [CallIncrement SQL_EXECUTION_TOTAL labels])%list in
              match execute_query self formatted_sql with
              | Raise e =>
                  (inr {| QueryError.error := ErrorType.EXECUTION_FAILED;
                          QueryError.message := exc_str e;
                          QueryError.suggestion :=
                            Some "Please verify table and column names are correct, or try rephrasing your query";
                          QueryError.sql := Some formatted_sql;
                          QueryError.validation_details := None |},
                   (calls3 ++ noted self [CallIncrement SQL_EXECUTION_ERROR labels])%list)
              | Return (results, columns, execution_time_ms) =>
                  let calls4 :=
                    (calls3
                     ++ noted self [CallIncrement SQL_EXECUTION_SUCCESS labels;
                                    CallRecordTimer SQL_EXECUTION_DURATION
                                                    (sql_exec_duration clock) labels;
                                    CallRecordHistogram SQL_EXECUTION_ROWS
                                      (inject_Z (Z.of_nat (length results))) labels]
                     ++ noted self [CallIncrement VALIDATION_TOTAL labels])%list in
                  match validate_results self (QueryRequest.query request)
                                         formatted_sql results with
                  | Raise e => (inr (internal_error e), calls4)
                  | Return (is_valid, validation_details) =>
                      let calls5 :=
                        (calls4
                         ++ noted self [CallRecordTimer VALIDATION_DURATION
                                                        (val_duration clock) labels])%list in
                      if negb is_valid then
                        (inr {| QueryError.error := ErrorType.RESULT_VALIDATION_FAILED;
                                QueryError.message :=
                                  "AI validation found that query results may not match the request";
                                QueryError.suggestion :=
                                  Some "The generated SQL may have misunderstood. Please try describing your query in more detail, or provide table and field names.";
                                QueryError.sql := Some formatted_sql;
                                QueryError.validation_details := validation_details |},
                         (calls5 ++ noted self [CallIncrement VALIDATION_FAILED labels])%list)
                      else
                        (inl {| QueryResponse.sql := formatted_sql;
                                QueryResponse.results := results;
                                QueryResponse.metadata :=
                                  {| QueryMetadata.rows := length results;
                                     QueryMetadata.execution_time_ms := execution_time_ms;
                                     QueryMetadata.columns := columns |};
                                QueryResponse.database := database_name self |},
                         (calls5 ++ noted self [CallIncrement VALIDATION_SUCCESS labels])%list)
                  end
              end
          end
    end.

End WithSqlglot.

End QueryProcessor.

(** ** multi_database_server.py: the [query] tool *)

Module Server.
Import StandardMetrics QueryProcessor.

(** The module's globals once [ensure_initialized] has run: the name of
    [settings.get_default_database()] if there is one, the processors by
    database name (a dict, in insertion order), the rate limiter, and
    whether a collector is attached. *)
Record t : Type := {
  default_database : option string;
  query_processors : list (string * QueryProcessor.t);
  rate_limiter : option RateLimiter.t;
  metrics_collector : bool
}.

Definition set_rate_limiter (self : t) (limiter : option RateLimiter.t) : t :=
  {| default_database := default_database self;
     query_processors := query_processors self;
     rate_limiter := limiter;
     metrics_collector := metrics_collector self |}.

(** [query_processors.get(db_name)] *)
Fixpoint get {A : Type} (key : string) (d : list (string * A)) : option A :=
  match d with
  | [] => None
  | (k, v) :: d' => if String.eqb k key then Some v else get key d'
  end.

(** [get_database_name(requested_db)]; the exception is a [ValueError]. *)
Definition get_database_name (self : t) (requested_db : option string) : Outcome string :=
  let default :=
    match default_database self with
    | Some name => Return name
    | None => Raise (MkExc OtherException "No default database configured")
    end in
  match requested_db with
  | Some db =>
      if nonempty_str db then
        if negb (str_in db (map fst (query_processors self))) then
          Raise (MkExc OtherException
                   ("Database '" +:+ db +:+ "' not found. Available: "
                    +:+ join ", " (map fst (query_processors self))))
        else Return db
      else default
  | None => default
  end.

(** What the tool returns: [response.model_dump()], or a dict with the keys
    [error] and [message]. *)
Inductive Reply : Type :=
| Dumped (response : QueryResponse.t + QueryError.t)
| Failed (error message : string).

(** The readings of [time.time()] during one call: in the rate limiter, at
    the start of the call, the duration computed at its end, and the
    durations of the pipeline. *)
Record Times : Type := {
  current_time : Q;
  query_start_time : Q;
  duration_ms : Q;
  clock : Clock
}.

Section WithSqlglot.

Variable parse_one : string -> Outcome Sqlglot.Expression.
Variable to_sql : Sqlglot.Expression -> Outcome string.
Variable expr_str : Sqlglot.Expression -> string.

(** [str(error_type)] on the [error] of a [QueryError]. *)
Variable error_type_str : ErrorType.t -> string.

(** [if metrics_collector: ...] *)
Definition noted (self : t) (cs : list MetricsCall) : list MetricsCall :=
  if metrics_collector self then cs else [].

(** [response.database = db_name] *)
Definition with_database (response : QueryResponse.t) (db_name : string) : QueryResponse.t :=
  {| QueryResponse.sql := QueryResponse.sql response;
     QueryResponse.results := QueryResponse.results response;
     QueryResponse.metadata := QueryResponse.metadata response;
     QueryResponse.database := db_name |}.

(** The rate-limit check of [query]: the message when the request is
    denied, the globals afterwards, the calls on the collector. *)
Definition check_limit (self : t) (times : Times) (db_name : string)
  : option (option string) * t * list MetricsCall :=
  match rate_limiter self with
  | Some limiter =>
      let '((is_allowed, error_msg), limiter') :=
        RateLimiter.check_rate_limit db_name (current_time times) limiter in
      (if is_allowed then None else Some error_msg,
       set_rate_limiter self (Some limiter'),
       (noted self [CallIncrement RATE_LIMIT_CHECKS None]
        ++ if is_allowed then []
           else noted self [CallIncrement RATE_LIMIT_EXCEEDED
                                          (Some [("database", db_name)])])%list)
  | None => (None, self, [])
  end.

(** The part of [query] that hands the request to the processor of the
    database. *)
Definition dispatch (self : t) (times : Times) (query_text db_name : string)
  : Reply * list MetricsCall :=
  match get db_name (query_processors self) with
  | None =>
      (Failed "internal_error" ("Query processor not found for database: " +:+ db_name),
       noted self [CallIncrement QUERY_ERROR
                     (Some [("database", db_name);
                            ("error_type", "processor_not_found")])])
  | Some processor =>
      let request := {| QueryRequest.query := query_text;
                        QueryRequest.database := Some db_name |} in
      let '(response, processor_calls) :=
        process_query parse_one to_sql expr_str processor (clock times) request in
      match response with
      | inl r =>
          (Dumped (inl (with_database r db_name)),
           (processor_calls
            ++ noted self
                 [CallIncrement QUERY_SUCCESS (Some [("database", db_name)]);
                  CallRecordHistogram SQL_EXECUTION_ROWS
                    (inject_Z (Z.of_nat (QueryMetadata.rows (QueryResponse.metadata r))))
                    (Some [("database", db_name)])])%list)
      | inr err =>
          (Dumped (inr err),
           (processor_calls
            ++ noted self
                 [CallIncrement QUERY_ERROR
                    (Some [("database", db_name);
                           ("error_type", error_type_str (QueryError.error err))])])%list)
      end
  end.

(** The [try] block of [query], from the rate limit on. *)
Definition query_in (self : t) (times : Times) (query_text db_name : string)
  : Reply * t * list MetricsCall :=
  let '(limited, self1, calls1) := check_limit self times db_name in
  match limited with
  | Some error_msg =>
      (Failed "rate_limit_exceeded" (message_or error_msg "Too many requests"), self1, calls1)
  | None =>
      let '(reply, calls2) := dispatch self times query_text db_name in
      (reply, self1, (calls1 ++ calls2)%list)
  end.

(** [query(query, database=None)]: the reply, the globals afterwards, and
    the calls made on the collector, in order. *)
Definition query (self : t) (times : Times) (query_text : string) (database : option string)
  : Reply * t * list MetricsCall :=
  let started := noted self [CallIncrement QUERY_TOTAL None] in
  let finished :=
    if metrics_collector self && negb (Qeq_bool (query_start_time times) 0) then
      [CallRecordTimer QUERY_DURATION (duration_ms times)
                       (Some [("database",
                               match database with
                               | Some db => if nonempty_str db then db else "default"
                               | None => "default"
                               end)])]
    else [] in
  match get_database_name self database with
  | Raise e =>
      (Failed "invalid_database" (exc_str e), self,
       (started
        ++ noted self [CallIncrement QUERY_ERROR (Some [("error_type", "invalid_database")])]
        ++ finished)%list)
  | Return db_name =>
      let '(reply, self', calls) := query_in self times query_text db_name in
      (reply, self', (started ++ calls ++ finished)%list)
  end.

End WithSqlglot.

End Server.

(** ** core/multi_database_executor.py: [_check_explain_cost] *)

Module ExplainCost.
Import Security Executor.

(** [s[n:]] *)
Fixpoint drop (n : nat) (s : string) : string :=
  match n, s with
  | O, _ => s
  | S n', String.String _ s' => drop n' s'
  | S _, String.EmptyString => String.EmptyString
  end.

(** [s.partition(sep)] for a non-empty [sep]: the text before and the text
    after the first occurrence, if there is one. *)
Fixpoint partition (sep s : string) : option (string * string) :=
  if String.prefix sep s then Some (String.EmptyString, drop (String.length sep) s)
  else
    match s with
    | String.EmptyString => None
    | String.String c s' =>
        match partition sep s' with
        | Some (before, after) => Some (String.String c before, after)
        | None => None
        end
    end.

(** [s.split(sep)[1]]: the text between the first and the second
    occurrence of [sep]; [IndexError] when [sep] does not occur. *)
Definition second_piece (sep s : string) : Outcome string :=
  match partition sep s with
  | None => Raise (MkExc OtherException "list index out of range")
  | Some (_, rest) =>
      match partition sep rest with
      | Some (piece, _) => Return piece
      | None => Return rest
      end
  end.

(** White space of [str.split()], on ASCII. *)
Definition is_space (c : ascii) : bool :=
  let n := N_of_ascii c in
  (((9 <=? n) && (n <=? 13)) || ((28 <=? n) && (n <=? 32)))%N.

Fixpoint take_token (s : string) : string :=
  match s with
  | String.EmptyString => String.EmptyString
  | String.String c s' => if is_space c then String.EmptyString
                          else String.String c (take_token s')
  end.

(** [s.split()[0]]: [IndexError] when [s] holds white space only. *)
Fixpoint first_token (s : string) : Outcome string :=
  match s with
  | String.EmptyString => Raise (MkExc OtherException "list index out of range")
  | String.String c s' => if is_space c then first_token s' else Return (take_token s)
  end.

(** [row[key]] on a record. *)
Fixpoint item (key : string) (row : Row) : Outcome PyValue :=
  match row with
  | [] => Raise (MkExc OtherException key)
  | (k, v) :: row' => if String.eqb k key then Return v else item key row'
  end.

(** [explain_result[0]["QUERY PLAN"]] *)
Definition query_plan (explain_result : list Row) : Outcome PyValue :=
  match explain_result with
  | [] => Raise (MkExc OtherException "list index out of range")
  | row :: _ => item "QUERY PLAN" row
  end.

Section WithPython.

(** [str(value)], [float(text)] and the text of a float in an f-string. *)
Variable py_str : PyValue -> string.
Variable float : string -> Outcome Q.
Variable float_str : Q -> string.

(** The body of the [try]. *)
Definition check_cost (policy : DatabaseAccessPolicy) (fetch : string -> Outcome (list Row))
           (sql : string) : Outcome unit :=
  do explain_result <- fetch ("EXPLAIN " +:+ sql);
  do plan <- query_plan explain_result;
  let cost_str := py_str plan in
  match partition "cost=" cost_str with
  | Some _ =>
      do after_cost <- second_piece "cost=" cost_str;
      do cost_part <- first_token after_cost;
      do total_text <- second_piece ".." cost_part;
      do total_cost <- float total_text;
      match max_explain_cost policy with
      | Some max_cost =>
          if negb (Qeq_bool max_cost 0) && Qgtb total_cost max_cost then
            Raise (MkExc PermissionError
                     ("Query cost (" +:+ float_str total_cost
                      +:+ ") exceeds maximum allowed cost (" +:+ float_str max_cost +:+ ")"))
          else Return tt
      | None => Return tt
      end
  | None => Return tt
  end.

(** [_check_explain_cost(conn, sql)], for the policy of the executor:
    [fetch] is [conn.fetch]. *)
Definition _check_explain_cost (policy : DatabaseAccessPolicy)
           (fetch : string -> Outcome (list Row)) (sql : string) : Outcome unit :=
  match check_cost policy fetch sql with
  | Return _ => Return tt
  | Raise e =>
      match exc_class e with
      | PermissionError => Raise e
      | _ => Return tt
      end
  end.

(** [DatabaseExecutor.execute_query] with this check: the connection of an
    attempt serves both the plan and the rows. *)
Definition execute_query (execution_time : Q)
           (parse_one : string -> Outcome Sqlglot.Expression)
           (to_sql : Sqlglot.Expression -> Outcome string)
           (p : Pool) (policy : DatabaseAccessPolicy) (sql : string) (max_rows : Z)
  : Outcome QueryResult :=
  db_execute_query execution_time parse_one to_sql
                   (fun attempt final => _check_explain_cost policy (p attempt) final)
                   {| db_pool := Some p; access_policy := Some policy |} sql max_rows.

End WithPython.

End ExplainCost.

(** ** core/result_validator.py *)

Module ResultValidator.
Import Executor.

(** [s.replace(old, "")] for a non-empty [old]: [skip] characters of a
    match are still to be dropped. *)
Fixpoint remove_from (old : string) (skip : nat) (s : string) : string :=
  match s with
  | String.EmptyString => String.EmptyString
  | String.String c s' =>
      match skip with
      | S k => remove_from old k s'
      | O =>
          if String.prefix old s then remove_from old (String.length old - 1) s'
          else String.String c (remove_from old O s')
      end
  end.

Definition remove (old s : string) : string := remove_from old O s.

Section WithClient.

(** The test of the [except] clause of [retry_on_api_error]. *)
Variable is_api_error : PyExc -> bool.

(** [s.strip()] and [s.lower()] of Python's [str], with its own notion of
    white space and of letter case (that of Unicode). *)
Variable strip : string -> string.
Variable lower : string -> string.

(** The body of [validate_results]: [completion] is the outcome of the
    call of the model, up to [response.choices[0].message.content]. *)
Definition validate_results_once (completion : Outcome (option string))
           (results : list (list (string * PyValue))) : Outcome (bool * option string) :=
  if negb (nonempty results) then Return (true, None)
  else
    try_except
      (do content <- completion;
       match content with
       | None => Return (true, None)
       | Some answer =>
           let answer := lower (strip answer) in
           if Metrics.startswith answer "valid" then Return (true, None)
           else if Metrics.startswith answer "invalid" then
             Return (false, Some (strip (remove "invalid:" answer)))
           else Return (true, None)
       end)
      (fun _ => Return (true, None)).

(** [validate_results], under [@retry_on_api_error(max_attempts=2)]:
    [completion attempt] is the outcome of the model in that attempt. *)
Definition validate_results (completion : nat -> Outcome (option string))
           (results : list (list (string * PyValue)))
  : Outcome (bool * option string) * list Q :=
  Retry.retry_on_api_error is_api_error 2 2 2
    (fun attempt => validate_results_once (completion attempt) results).

End WithClient.

End ResultValidator.

(** ** A function called by its quoted name

    [SELECT "pg_read_file"('/etc/passwd')]: PostgreSQL calls the same
    function whether its name is written bare or between double quotes.
    The parser makes the quoted name of a function it does not know an
    identifier node with [quoted=True], and [str] of such a node prints
    the quotes. *)

Module QuotedCall.
Import Sqlglot.

Definition dquote : ascii := Ascii.ascii_of_N 34.

(** A name between double quotes. *)
Definition quoted (s : string) : string :=
  String.String dquote (s +:+ String.String dquote String.EmptyString).

(** [Identifier(this=name, quoted=True)] *)
Definition quoted_identifier (name : string) : Expression :=
  Node O Identifier [("this", name); ("quoted", "True")] [].

(** The text [SELECT "pg_read_file"('/etc/passwd')] and its syntax tree. *)
Definition sql : string := "SELECT " +:+ quoted "pg_read_file" +:+ "('/etc/passwd')".

Definition select_quoted_pg_read_file : Expression :=
  Samples.select_
    [Node O Anonymous []
          [("this", quoted_identifier "pg_read_file");
           ("expressions", Samples.literal "/etc/passwd")]]
    None None.

(** [SELECT PG_READ_FILE('/etc/passwd')]: a bare name is kept as written. *)
Definition select_upper_pg_read_file : Expression :=
  Samples.select_ [Samples.anonymous "PG_READ_FILE" [Samples.literal "/etc/passwd"]]
                  None None.

(** The parser of the samples, with the two statements above. *)
Definition parse_one (text : string) : Outcome Expression :=
  if String.eqb text sql then Return select_quoted_pg_read_file
  else if String.eqb text "SELECT PG_READ_FILE('/etc/passwd')"
       then Return select_upper_pg_read_file
       else Samples.parse_one text.

(** [str(e)], which prints a quoted identifier between its quotes. *)
Definition expr_str (e : Expression) : string :=
  match cls e, assoc "quoted" (strs e) with
  | Identifier, Some "True" => quoted (default "" (assoc "this" (strs e)))
  | _, _ => Samples.expr_str e
  end.

End QuotedCall.

(* ===================================================================== *)
(** * Part II: properties                                                 *)
(* ===================================================================== *)

(** Scenario S4: capacity 3, window 60 s, five probes at [t = 0] for the
    key [db1] are answered allow, allow, allow, deny, deny, and the usage
    afterwards is 3 requests with none remaining. *)
Example rate_limit_scenario :
  let l0 := RateLimiter.init
              {| RateLimiter.max_requests := 3; RateLimiter.time_window := 60;
                 RateLimiter.enabled := true |} in
  let c := RateLimiter.CheckRateLimit "db1" 0 in
  map (fun a => match a with RateLimiter.Checked (b, _) => b | _ => false end)
      (fst (RateLimiter.run [c; c; c; c; c] l0))
  = [true; true; true; false; false]
  /\ fst (RateLimiter.get_current_usage "db1" 0 (snd (RateLimiter.run [c; c; c; c; c] l0)))
     = {| RateLimiter.current_requests := 3; RateLimiter.usage_max_requests := 3;
          RateLimiter.usage_time_window := 60; RateLimiter.remaining_requests := 0 |}
  /\ nth 3 (fst (RateLimiter.run [c; c; c; c; c] l0)) RateLimiter.ResetDone
     = RateLimiter.Checked
         (false, Some "Rate limit exceeded: 3/3 requests in 60s window. Retry after 60 seconds.").
Proof. vm_compute. repeat split; reflexivity. Qed.

Example make_key_sorted :
  Metrics._make_key "requests" (Some [("db", "db1"); ("app", "x")])
  = "requests{app=x,db=db1}".
Proof. vm_compute. reflexivity. Qed.

Example should_collect_gate :
  Metrics._should_collect (Metrics.init true true false true) "mcp.sql.generated" = false
  /\ Metrics._should_collect (Metrics.init true true false true) "custom.metric" = true.
Proof. vm_compute. split; reflexivity. Qed.


(** ** Rate limiter *)

Section RateLimiterProps.
Import RateLimiter.

Lemma filter_length_mono {A : Type} (p q : A -> bool) (l : list A) :
  (forall x, p x = true -> q x = true) ->
  (length (List.filter p l) <= length (List.filter q l))%nat.
Proof.
  intros Hpq. induction l as [|x l IH]; simpl; [lia|].
  destruct (p x) eqn:Hp.
  - rewrite (Hpq x Hp). simpl. lia.
  - destruct (q x); simpl; lia.
Qed.

Lemma filter_length_bound {A : Type} (p : A -> bool) (l : list A) :
  (length (List.filter p l) <= length l)%nat.
Proof.
  induction l as [|x l IH]; simpl; [lia|]. destruct (p x); simpl; lia.
Qed.

Lemma step_config (c : Call) (self : t) : config (snd (step c self)) = config self.
Proof.
  destruct c as [key now|key now|key]; simpl.
  - unfold check_rate_limit.
    destruct (negb (enabled (config self))); [reflexivity|].
    destruct (_ <=? _); [|reflexivity].
    destruct (prune _ _); reflexivity.
  - unfold get_current_usage. destruct (records self !! key); reflexivity.
  - unfold reset. destruct key as [k|]; [destruct (String.eqb k "")|]; reflexivity.
Qed.

Lemma run_config (cs : list Call) (self : t) : config (snd (run cs self)) = config self.
Proof.
  revert self. induction cs as [|c cs IH]; intros self; simpl; [reflexivity|].
  pose proof (step_config c self) as Hc.
  destruct (step c self) as [a self']. simpl in Hc.
  specialize (IH self'). destruct (run cs self') as [answers self'']. simpl in *.
  congruence.
Qed.

Lemma record_of_within_capacity (self : t) (key : string) :
  0 <= max_requests (config self) ->
  within_capacity self ->
  Z.of_nat (length (timestamps (record_of self key))) <= max_requests (config self).
Proof.
  intros HN Hinv. unfold record_of.
  destruct (records self !! key) as [record|] eqn:Hk; simpl; [eauto | lia].
Qed.

Lemma check_rate_limit_within_capacity (key : string) (now : Q) (self : t) :
  0 <= max_requests (config self) ->
  within_capacity self ->
  within_capacity (snd (check_rate_limit key now self)).
Proof.
  intros HN Hinv. unfold check_rate_limit.
  destruct (negb (enabled (config self))); [exact Hinv|].
  pose proof (record_of_within_capacity self key HN Hinv) as Hrec.
  set (ts := prune _ _).
  assert (Hts : (length ts <= length (timestamps (record_of self key)))%nat)
    by apply filter_length_bound.
  assert (Hstore : forall l,
             Z.of_nat (length l) <= max_requests (config self) ->
             within_capacity (set_records self (<[key := {| timestamps := l |}]> (records self)))).
  { intros l Hl k r. unfold set_records; simpl.
    destruct (decide (key = k)) as [->|Hne].
    - rewrite lookup_insert_eq. intros [= <-]. exact Hl.
    - rewrite lookup_insert_ne by exact Hne. apply Hinv. }
  destruct (max_requests (config self) <=? Z.of_nat (length ts)) eqn:Hfull.
  - assert (Hgoal : within_capacity
                      (set_records self (<[key := {| timestamps := ts |}]> (records self))))
      by (apply Hstore; lia).
    destruct ts; exact Hgoal.
  - simpl. apply Hstore. apply Z.leb_gt in Hfull. rewrite length_app. simpl. lia.
Qed.

Lemma step_within_capacity (c : Call) (self : t) :
  0 <= max_requests (config self) ->
  within_capacity self ->
  within_capacity (snd (step c self)).
Proof.
  intros HN Hinv. destruct c as [key now|key now|key]; simpl.
  - pose proof (check_rate_limit_within_capacity key now self HN Hinv) as H.
    destruct (check_rate_limit key now self). exact H.
  - unfold get_current_usage. destruct (records self !! key); exact Hinv.
  - assert (Hempty : within_capacity (set_records self ∅)).
    { intros k r. unfold set_records; simpl. rewrite lookup_empty. discriminate. }
    unfold reset. destruct key as [k|]; [|exact Hempty].
    destruct (String.eqb k ""); [exact Hempty|].
    intros k' r. unfold set_records; simpl.
    intros Hk'. apply lookup_delete_Some in Hk' as [_ Hk']. eauto.
Qed.

Lemma run_within_capacity (cs : list Call) (self : t) :
  0 <= max_requests (config self) ->
  within_capacity self ->
  within_capacity (snd (run cs self)).
Proof.
  revert self. induction cs as [|c cs IH]; intros self HN Hinv; simpl; [exact Hinv|].
  pose proof (step_within_capacity c self HN Hinv) as Hstep.
  pose proof (step_config c self) as Hcfg.
  destruct (step c self) as [a self']. simpl in *.
  specialize (IH self'). rewrite Hcfg in IH. specialize (IH HN Hstep).
  destruct (run cs self') as [answers self'']. exact IH.
Qed.

Lemma init_within_capacity (cfg : RateLimitConfig) : within_capacity (init cfg).
Proof. intros key record. simpl. rewrite lookup_empty. discriminate. Qed.

(** C5, as amended.  On an enabled limiter of capacity [N >= 0] and window
    [W], after any sequence of calls: the record of every key holds at most
    [N] timestamps, so at most [N] in the window [[now - W, now]] for any
    [now]; and when a probe at [now] is allowed, fewer than [N] timestamps of
    the record were newer than [now - W] just before it, in particular fewer
    than [N] lay in the half-open window [(now - W, now]]. *)
Theorem rate_limit_window_invariant
        (cfg : RateLimitConfig) (cs : list Call) (key : string) (now : Q) :
  enabled cfg = true ->
  0 <= max_requests cfg ->
  Z.of_nat (length (timestamps (record_of (after cfg cs) key))) <= max_requests cfg
  /\ Z.of_nat (count_closed_window (after cfg cs) key now) <= max_requests cfg
  /\ (fst (fst (check_rate_limit key now (after cfg cs))) = true ->
      Z.of_nat (count_live (after cfg cs) key now) < max_requests cfg
      /\ Z.of_nat (count_open_window (after cfg cs) key now) < max_requests cfg).
Proof.
  intros Hen HN. unfold after.
  pose proof (run_config cs (init cfg)) as Hcfg. simpl in Hcfg.
  assert (Hinv : within_capacity (snd (run cs (init cfg)))).
  { apply run_within_capacity; [exact HN | apply init_within_capacity]. }
  set (self := snd (run cs (init cfg))) in *.
  assert (Hlen : Z.of_nat (length (timestamps (record_of self key))) <= max_requests cfg).
  { rewrite <- Hcfg. apply record_of_within_capacity; [rewrite Hcfg; exact HN | exact Hinv]. }
  split; [exact Hlen|]. split.
  - unfold count_closed_window.
    pose proof (filter_length_bound
                  (fun ts => Qle_bool (now - inject_Z (time_window (config self)))%Q ts
                             && Qle_bool ts now)
                  (timestamps (record_of self key))) as Hle.
    lia.
  - intros Hallowed.
    assert (Hlive : Z.of_nat (count_live self key now) < max_requests cfg).
    { unfold check_rate_limit in Hallowed. rewrite Hcfg in Hallowed.
      rewrite Hen in Hallowed. simpl in Hallowed.
      unfold count_live. rewrite Hcfg.
      destruct (max_requests cfg <=? _) eqn:Hfull.
      - destruct (prune _ _); discriminate Hallowed.
      - apply Z.leb_gt in Hfull. exact Hfull. }
    split; [exact Hlive|].
    assert (Hle : (count_open_window self key now <= count_live self key now)%nat).
    { unfold count_open_window, count_live, prune. apply filter_length_mono.
      intros x Hx. apply andb_true_iff in Hx as [Hx _]. exact Hx. }
    lia.
Qed.

Lemma rate_limit_window_invariant_witness :
  let cfg := {| max_requests := 3; time_window := 60; enabled := true |} in
  let cs := [CheckRateLimit "db1" 0; CheckRateLimit "db1" 0] in
  Z.of_nat (length (timestamps (record_of (after cfg cs) "db1"))) <= 3
  /\ Z.of_nat (count_closed_window (after cfg cs) "db1" 0) <= 3
  /\ (fst (fst (check_rate_limit "db1" 0 (after cfg cs))) = true ->
      Z.of_nat (count_live (after cfg cs) "db1" 0) < 3
      /\ Z.of_nat (count_open_window (after cfg cs) "db1" 0) < 3).
Proof.
  exact (rate_limit_window_invariant
           {| max_requests := 3; time_window := 60; enabled := true |}
           [CheckRateLimit "db1" 0; CheckRateLimit "db1" 0] "db1" 0
           eq_refl ltac:(simpl; lia)).
Defined.

(** C5 as the design document words it, with the closed window
    [[now - W, now]], fails on the boundary: with capacity 1 and a window of
    one second, a probe at [t = 0] is recorded, and the probe at [t = 1] is
    allowed although the timestamp [0] lies in [[0, 1]].  (A negative
    capacity, which the configuration accepts, is below the size of even an
    empty record.) *)
Lemma closed_window_boundary_counterexample :
  let cfg := {| max_requests := 1; time_window := 1; enabled := true |} in
  let self := after cfg [CheckRateLimit "db1" 0] in
  let negative := {| max_requests := -1; time_window := 1; enabled := true |} in
  (fst (fst (check_rate_limit "db1" 1 self)) = true
   /\ count_closed_window self "db1" 1 = 1%nat
   /\ ~ (Z.of_nat (count_closed_window self "db1" 1) < max_requests cfg))
  /\ ~ (Z.of_nat (count_closed_window (after negative [CheckRateLimit "db1" 0]) "db1" 0)
        <= max_requests negative).
Proof.
  vm_compute. repeat split; try reflexivity; intros H; try discriminate H.
  apply H. reflexivity.
Qed.

Lemma run_without_usage (cs : list Call) (self : t) :
  snd (run cs self) = snd (run (List.filter (fun c => negb (is_usage c)) cs) self)
  /\ List.filter is_checked (fst (run cs self))
     = List.filter is_checked
         (fst (run (List.filter (fun c => negb (is_usage c)) cs) self)).
Proof.
  revert self. induction cs as [|c cs IH]; intros self; [split; reflexivity|].
  destruct c as [key now|key now|key]; simpl.
  - destruct (check_rate_limit key now self) as [r self'].
    specialize (IH self') as [IHs IHa].
    destruct (run cs self') as [a1 s1].
    destruct (run (List.filter _ cs) self') as [a2 s2].
    simpl in *. split; [exact IHs | f_equal; exact IHa].
  - assert (Hsame : snd (get_current_usage key now self) = self).
    { unfold get_current_usage. destruct (records self !! key); reflexivity. }
    destruct (get_current_usage key now self) as [u self']. simpl in Hsame. subst self'.
    specialize (IH self) as [IHs IHa].
    destruct (run cs self) as [a1 s1]. simpl in *. split; assumption.
  - specialize (IH (reset key self)) as [IHs IHa].
    destruct (run cs (reset key self)) as [a1 s1].
    destruct (run (List.filter _ cs) (reset key self)) as [a2 s2].
    simpl in *. split; assumption.
Qed.

(** C10.  [get_current_usage] returns the limiter as it found it, whatever
    the key and the time; hence, in any sequence of calls, dropping the calls
    of [get_current_usage] changes neither the answers of the probes nor the
    limiter that results. *)
Theorem get_current_usage_read_only :
  (forall key now self, snd (get_current_usage key now self) = self)
  /\ (forall cs self,
        snd (run cs self) = snd (run (List.filter (fun c => negb (is_usage c)) cs) self)
        /\ List.filter is_checked (fst (run cs self))
           = List.filter is_checked
               (fst (run (List.filter (fun c => negb (is_usage c)) cs) self)))
  /\ (forall key now key' now' self,
        check_rate_limit key' now' (snd (get_current_usage key now self))
        = check_rate_limit key' now' self).
Proof.
  assert (Hsame : forall key now self, snd (get_current_usage key now self) = self).
  { intros key now self. unfold get_current_usage.
    destruct (records self !! key); reflexivity. }
  split; [exact Hsame|]. split.
  - exact run_without_usage.
  - intros key now key' now' self. rewrite Hsame. reflexivity.
Qed.

Lemma rate_limit_capacity (cfg : RateLimitConfig) (cs : list Call) (key : string) :
  0 <= max_requests cfg ->
  config (after cfg cs) = cfg
  /\ Z.of_nat (length (timestamps (record_of (after cfg cs) key))) <= max_requests cfg.
Proof.
  intros HN. unfold after.
  pose proof (run_config cs (init cfg)) as Hcfg. simpl in Hcfg.
  split; [exact Hcfg|]. rewrite <- Hcfg at 2.
  apply record_of_within_capacity; [rewrite Hcfg; exact HN|].
  apply run_within_capacity; [exact HN | apply init_within_capacity].
Qed.

End RateLimiterProps.

(** ** Metrics collector *)

Section MetricsProps.
Import Metrics.








End MetricsProps.

(** ** Executors *)

Section ExecutorProps.
Import Executor.

Lemma slice_to_firstn {A : Type} (l : list A) (n : Z) :
  0 <= n -> slice_to l n = firstn (Z.to_nat n) l.
Proof.
  intros Hn. unfold slice_to. destruct (n <? 0) eqn:Hneg; [|reflexivity].
  apply Z.ltb_lt in Hneg. lia.
Qed.

Lemma collect_rows_cap (rows : list Row) (max_rows : Z) (execution_time : Q) :
  (Z.of_nat (length rows) = max_rows ->
   fst (fst (collect_rows rows max_rows execution_time)) = map dict rows)
  /\ (Z.of_nat (length rows) = max_rows + 1 ->
      fst (fst (collect_rows rows max_rows execution_time))
      = map dict (firstn (Z.to_nat max_rows) rows)
      /\ length (fst (fst (collect_rows rows max_rows execution_time))) = Z.to_nat max_rows).
Proof.
  unfold collect_rows; simpl. split.
  - intros Hlen. destruct (Z.of_nat (length rows) >? max_rows) eqn:Hgt; [|reflexivity].
    apply Z.gtb_lt in Hgt. lia.
  - intros Hlen.
    assert (Hgt : (Z.of_nat (length rows) >? max_rows) = true) by (apply Z.gtb_lt; lia).
    rewrite Hgt.
    assert (Hslice : slice_to rows max_rows = firstn (Z.to_nat max_rows) rows).
    { destruct (Z.eq_dec max_rows (-1)) as [->|Hne].
      - destruct rows; [reflexivity | simpl in Hlen; lia].
      - apply slice_to_firstn. lia. }
    rewrite Hslice. split; [reflexivity|].
    rewrite length_map, length_firstn. lia.
Qed.

Lemma retry_twice {A : Type} (func : nat -> Outcome A) (r : A) :
  retry_on_db_error 2 func = Return r <->
  func O = Return r
  \/ (exists e, func O = Raise e /\ is_db_error e = true /\ func 1%nat = Return r).
Proof.
  unfold retry_on_db_error; simpl. split.
  - destruct (func O) as [a|e] eqn:H0; [intros [= ->]; left; reflexivity|].
    destruct (is_db_error e) eqn:He; [|discriminate].
    destruct (func 1%nat) as [a|e'] eqn:H1.
    + intros [= ->]. right. exists e. auto.
    + destruct (is_db_error e'); discriminate.
  - intros [H0 | (e & H0 & He & H1)].
    + rewrite H0. reflexivity.
    + rewrite H0, He, H1. reflexivity.
Qed.

(** [retry_on_db_error(max_attempts=2)]: the decorated call returns a
    value exactly when the first attempt returns it, or the first attempt
    raises a connection or interface error and the second attempt returns
    it; an error of another class is not retried, and the error of the last
    attempt is the one raised. *)
Theorem retry_on_db_error_two_attempts {A : Type} (func : nat -> Outcome A) :
  (forall r,
      retry_on_db_error 2 func = Return r <->
      func O = Return r
      \/ (exists e, func O = Raise e /\ is_db_error e = true /\ func 1%nat = Return r))
  /\ (forall e, func O = Raise e -> is_db_error e = false ->
                retry_on_db_error 2 func = Raise e)
  /\ (forall e e', func O = Raise e -> is_db_error e = true -> func 1%nat = Raise e' ->
                   retry_on_db_error 2 func = Raise e').
Proof.
  split; [intros r; apply retry_twice|]. split.
  - intros e H0 He. unfold retry_on_db_error; simpl. rewrite H0, He. reflexivity.
  - intros e e' H0 He H1. unfold retry_on_db_error; simpl. rewrite H0, He, H1.
    destruct (is_db_error e'); reflexivity.
Qed.

(** C6.  What an executor returns are the fetched rows passed through the
    size check: a result set of exactly [max_rows] rows is returned whole,
    one of [max_rows + 1] rows is cut to its first [max_rows] rows, and the
    call returns (it does not raise).  This holds for [SQLExecutor] and for
    [DatabaseExecutor], on the first attempt or on the retry. *)
Theorem execute_query_row_cap
        (execution_time : Q)
        (parse_one : string -> Outcome Sqlglot.Expression)
        (to_sql : Sqlglot.Expression -> Outcome string)
        (_check_explain_cost : nat -> string -> Outcome unit) :
  (forall (rows : list Row) (max_rows : Z),
      (Z.of_nat (length rows) = max_rows ->
       fst (fst (collect_rows rows max_rows execution_time)) = map dict rows)
      /\ (Z.of_nat (length rows) = max_rows + 1 ->
          fst (fst (collect_rows rows max_rows execution_time))
          = map dict (firstn (Z.to_nat max_rows) rows)
          /\ length (fst (fst (collect_rows rows max_rows execution_time)))
             = Z.to_nat max_rows))
  /\ (forall (self : SQLExecutor) (p : Pool) (sql : string) (rows : list Row),
        pool self = Some p ->
        p O sql = Return rows ->
        sql_execute_query execution_time self sql
        = Return (collect_rows rows (max_rows (limits self)) execution_time))
  /\ (forall (self : SQLExecutor) (p : Pool) (sql : string) (r : QueryResult),
        pool self = Some p ->
        sql_execute_query execution_time self sql = Return r ->
        exists attempt rows,
          (attempt < 2)%nat /\ p attempt sql = Return rows
          /\ r = collect_rows rows (max_rows (limits self)) execution_time)
  /\ (forall (self : DatabaseExecutor) (p : Pool) (sql final : string) (max_rows : Z)
             (rows : list Row),
        db_pool self = Some p ->
        final_sql parse_one to_sql self sql = Return final ->
        explain_gate _check_explain_cost self O final = Return tt ->
        p O final = Return rows ->
        db_execute_query execution_time parse_one to_sql _check_explain_cost self sql max_rows
        = Return (collect_rows rows max_rows execution_time))
  /\ (forall (self : DatabaseExecutor) (p : Pool) (sql : string) (max_rows : Z)
             (r : QueryResult),
        db_pool self = Some p ->
        db_execute_query execution_time parse_one to_sql _check_explain_cost self sql max_rows
        = Return r ->
        exists attempt final rows,
          (attempt < 2)%nat
          /\ final_sql parse_one to_sql self sql = Return final
          /\ p attempt final = Return rows
          /\ r = collect_rows rows max_rows execution_time).
Proof.
  split; [intros rows max_rows; apply collect_rows_cap|].
  assert (Hsql : forall (self : SQLExecutor) p sql attempt r,
             pool self = Some p ->
             sql_execute_query_once execution_time self sql attempt = Return r ->
             exists rows, p attempt sql = Return rows
                          /\ r = collect_rows rows (max_rows (limits self)) execution_time).
  { intros self p sql attempt r Hp. unfold sql_execute_query_once. rewrite Hp.
    destruct (p attempt sql) as [rows|e] eqn:Hrows; simpl; [|discriminate].
    intros [= <-]. exists rows. auto. }
  assert (Hdb : forall (self : DatabaseExecutor) p sql max_rows attempt r,
             db_pool self = Some p ->
             db_execute_query_once execution_time parse_one to_sql _check_explain_cost
                                   self sql max_rows attempt = Return r ->
             exists final rows,
               final_sql parse_one to_sql self sql = Return final
               /\ p attempt final = Return rows
               /\ r = collect_rows rows max_rows execution_time).
  { intros self p sql max_rows attempt r Hp. unfold db_execute_query_once. rewrite Hp.
    destruct (final_sql parse_one to_sql self sql) as [final|e] eqn:Hf; simpl; [|discriminate].
    destruct (explain_gate _ self attempt final) as [[]|e]; simpl; [|discriminate].
    destruct (p attempt final) as [rows|e] eqn:Hrows; simpl; [|discriminate].
    intros [= <-]. exists final, rows. auto. }
  repeat split.
  - intros self p sql rows Hp Hrows. apply retry_twice. left.
    unfold sql_execute_query_once. rewrite Hp, Hrows. reflexivity.
  - intros self p sql r Hp Hr. apply retry_twice in Hr as [H0 | (e & _ & _ & H1)].
    + destruct (Hsql self p sql O r Hp H0) as (rows & ? & ?). exists O, rows. auto.
    + destruct (Hsql self p sql 1%nat r Hp H1) as (rows & ? & ?). exists 1%nat, rows. auto.
  - intros self p sql final max_rows rows Hp Hfinal Hgate Hrows. apply retry_twice. left.
    unfold db_execute_query_once. rewrite Hp, Hfinal. simpl. rewrite Hgate. simpl.
    rewrite Hrows. reflexivity.
  - intros self p sql max_rows r Hp Hr. apply retry_twice in Hr as [H0 | (e & _ & _ & H1)].
    + destruct (Hdb self p sql max_rows O r Hp H0) as (final & rows & ? & ? & ?).
      exists O, final, rows. auto.
    + destruct (Hdb self p sql max_rows 1%nat r Hp H1) as (final & rows & ? & ? & ?).
      exists 1%nat, final, rows. auto.
Qed.

Lemma execute_query_row_cap_witness :
  let rows : list Row := [[("id", VInt 1)]; [("id", VInt 2)]] in
  let p : Pool := fun _ _ => Return rows in
  let limits2 := {| max_rows := 2; max_execution_time := 30 |} in
  let limits1 := {| max_rows := 1; max_execution_time := 30 |} in
  sql_execute_query 5 {| pool := Some p; limits := limits2 |} "SELECT id FROM t"
  = Return (map dict rows, [{| name := "id"; type := "int" |}], 5%Q)
  /\ sql_execute_query 5 {| pool := Some p; limits := limits1 |} "SELECT id FROM t"
     = Return (map dict (firstn 1 rows), [{| name := "id"; type := "int" |}], 5%Q).
Proof.
  cbv zeta.
  destruct (execute_query_row_cap 5 Samples.parse_one Samples.to_sql (fun _ _ => Return tt))
    as (_ & Hsql & _).
  split.
  - exact (Hsql {| pool := Some (fun _ _ => Return [[("id", VInt 1)]; [("id", VInt 2)]]);
                   limits := {| max_rows := 2; max_execution_time := 30 |} |}
                _ "SELECT id FROM t" _ eq_refl eq_refl).
  - exact (Hsql {| pool := Some (fun _ _ => Return [[("id", VInt 1)]; [("id", VInt 2)]]);
                   limits := {| max_rows := 1; max_execution_time := 30 |} |}
                _ "SELECT id FROM t" _ eq_refl eq_refl).
Defined.

End ExecutorProps.

(** ** Breadth-first walk of a syntax tree *)

Section SqlglotProps.
Import Sqlglot.

Lemma size_children (e : Expression) : size e = S (list_sum (map size (children e))).
Proof.
  destruct e as [u c ss ks]. unfold children. simpl. f_equal.
  induction ks as [|[k x] ks IH]; simpl; [reflexivity | rewrite IH; reflexivity].
Qed.

Lemma size_pos (e : Expression) : (0 < size e)%nat.
Proof. rewrite size_children. lia. Qed.

Lemma list_sum_size_app (q1 q2 : list Expression) :
  list_sum (map size (q1 ++ q2)) = (list_sum (map size q1) + list_sum (map size q2))%nat.
Proof. rewrite map_app, list_sum_app. reflexivity. Qed.

(** With enough fuel the walk reaches every node below the queue. *)
Lemma bfs_complete (fuel : nat) :
  forall queue : list Expression,
    (list_sum (map size queue) <= fuel)%nat ->
    forall t x, In t queue -> subexpr x t -> In x (bfs fuel queue).
Proof.
  induction fuel as [|fuel IH]; intros queue Hfuel t x Ht Hsub.
  - destruct queue as [|n q]; [destruct Ht|].
    simpl in Hfuel. pose proof (size_pos n). lia.
  - destruct queue as [|n q]; [destruct Ht|].
    simpl. simpl in Hfuel.
    assert (Hrest : (list_sum (map size (q ++ children n)) <= fuel)%nat).
    { rewrite list_sum_size_app. rewrite (size_children n) in Hfuel. lia. }
    destruct Ht as [<-|Ht].
    + inversion Hsub as [|e k Hin Hk]; subst.
      * left. reflexivity.
      * right. apply (IH _ Hrest k x); [apply in_or_app; right; exact Hin | exact Hk].
    + right. apply (IH _ Hrest t x); [apply in_or_app; left; exact Ht | exact Hsub].
Qed.

Lemma walk_complete (e x : Expression) : subexpr x e -> In x (walk e).
Proof.
  intros Hsub. unfold walk. apply (bfs_complete (size e) [e]) with (t := e).
  - simpl. lia.
  - left. reflexivity.
  - exact Hsub.
Qed.

Lemma find_all_complete (p : ExprClass -> bool) (e x : Expression) :
  subexpr x e -> p (cls x) = true -> In x (find_all p e).
Proof.
  intros Hsub Hp. unfold find_all. apply filter_In. split; [apply walk_complete; exact Hsub|exact Hp].
Qed.

Lemma bfs_sound (fuel : nat) :
  forall (queue : list Expression) (x : Expression),
    In x (bfs fuel queue) -> exists t, In t queue /\ subexpr x t.
Proof.
  induction fuel as [|fuel IH]; intros queue x Hx; [destruct Hx|].
  destruct queue as [|n q]; [destruct Hx|].
  simpl in Hx. destruct Hx as [<-|Hx].
  - exists n. split; [left; reflexivity | constructor].
  - apply IH in Hx as (t & Ht & Hsub).
    apply in_app_or in Ht as [Ht|Ht].
    + exists t. split; [right; exact Ht | exact Hsub].
    + exists n. split; [left; reflexivity | eapply subexpr_below; eauto].
Qed.

Lemma walk_sound (e x : Expression) : In x (walk e) -> subexpr x e.
Proof.
  intros Hx. apply bfs_sound in Hx as (t & [<-|[]] & Hsub). exact Hsub.
Qed.

Lemma subexpr_trans (x y z : Expression) : subexpr x y -> subexpr y z -> subexpr x z.
Proof.
  intros Hxy Hyz. induction Hyz as [|e k Hin Hyk IH]; [exact Hxy|].
  eapply subexpr_below; eauto.
Qed.

Lemma walk_root (e : Expression) : exists rest, walk e = e :: rest.
Proof.
  unfold walk. rewrite size_children. simpl. eexists. reflexivity.
Qed.

End SqlglotProps.

(** ** SQL validator *)

Section SQLValidatorProps.
Import Sqlglot SQLValidator.

Lemma str_in_In (x : string) (l : list string) : str_in x l = true <-> In x l.
Proof.
  unfold str_in. rewrite existsb_exists. split.
  - intros (y & Hy & Heq). apply String.eqb_eq in Heq. subst. exact Hy.
  - intros Hx. exists x. split; [exact Hx | apply String.eqb_refl].
Qed.



(** C2.  A dangerous function called by its quoted name is accepted.  The
    validator reads the name of a function that the parser does not know
    off [str(node.this)]; for a name written between double quotes this
    is the name with its quotes, which is not in the list.  So
    [SELECT PG_READ_FILE('/etc/passwd')] is rejected, whatever the letter
    case, while [SELECT "pg_read_file"('/etc/passwd')] is accepted, although
    its tree holds a function node whose bare name is [pg_read_file]. *)
Theorem quoted_dangerous_function_accepted
        (parse_one : string -> Outcome Expression) (expr_str : Expression -> string) :
  parse_one QuotedCall.sql = Return QuotedCall.select_quoted_pg_read_file ->
  parse_one "SELECT PG_READ_FILE('/etc/passwd')"
  = Return QuotedCall.select_upper_pg_read_file ->
  expr_str (QuotedCall.quoted_identifier "pg_read_file") = QuotedCall.quoted "pg_read_file" ->
  validate_sql parse_one expr_str "SELECT PG_READ_FILE('/etc/passwd')"
  = (false, Some "Dangerous functions detected: pg_read_file")
  /\ validate_sql parse_one expr_str QuotedCall.sql = (true, None)
  /\ exists node,
      subexpr node QuotedCall.select_quoted_pg_read_file
      /\ is_func (cls node) = true
      /\ name node = "pg_read_file"
      /\ matches_ci (name node) "pg_read_file"
      /\ In "pg_read_file" dangerous_function_names
      /\ func_identifier expr_str node = QuotedCall.quoted "pg_read_file".
Proof.
  intros Hquoted Hupper Hstr.
  split; [|split].
  - unfold validate_sql. rewrite Hupper. vm_compute. reflexivity.
  - unfold validate_sql. rewrite Hquoted.
    change (is_select (cls QuotedCall.select_quoted_pg_read_file)) with true.
    cbn [negb].
    assert (Hfuncs : _check_dangerous_functions expr_str
                       QuotedCall.select_quoted_pg_read_file = []).
    { unfold _check_dangerous_functions.
      assert (Hfound : find_all is_func QuotedCall.select_quoted_pg_read_file
                       = [Node O Anonymous []
                               [("this", QuotedCall.quoted_identifier "pg_read_file");
                                ("expressions", Samples.literal "/etc/passwd")]])
        by (vm_compute; reflexivity).
      rewrite Hfound. cbn [map]. unfold func_name, func_identifier, str_this.
      cbn [cls strs assoc arg kids String.eqb Ascii.eqb Bool.eqb].
      rewrite Hstr. vm_compute. reflexivity. }
    rewrite Hfuncs. cbn [nonempty].
    assert (Hsub : _check_subqueries QuotedCall.select_quoted_pg_read_file = None)
      by (vm_compute; reflexivity).
    rewrite Hsub. reflexivity.
  - exists (Node O Anonymous []
                 [("this", QuotedCall.quoted_identifier "pg_read_file");
                  ("expressions", Samples.literal "/etc/passwd")]).
    split.
    { eapply subexpr_below; [|apply subexpr_here]. left. reflexivity. }
    split; [reflexivity|]. split; [reflexivity|]. split; [reflexivity|].
    split; [vm_compute; tauto|].
    unfold func_identifier, str_this.
    cbn [cls strs assoc arg kids String.eqb Ascii.eqb Bool.eqb].
    exact Hstr.
Qed.

Lemma quoted_dangerous_function_accepted_witness :
  validate_sql QuotedCall.parse_one QuotedCall.expr_str "SELECT PG_READ_FILE('/etc/passwd')"
  = (false, Some "Dangerous functions detected: pg_read_file")
  /\ validate_sql QuotedCall.parse_one QuotedCall.expr_str QuotedCall.sql = (true, None).
Proof.
  destruct (quoted_dangerous_function_accepted QuotedCall.parse_one QuotedCall.expr_str
              eq_refl eq_refl eq_refl) as (Hupper & Hquoted & _).
  split; [exact Hupper | exact Hquoted].
Defined.

(** C9.  [format_sql] never raises: it returns a string for every input,
    and that string is the input itself when the text does not parse and
    when the generator raises on the parsed tree. *)
Theorem format_sql_total_fallback
        (parse_one : string -> Outcome Expression)
        (to_sql : Expression -> Outcome string) (sql : string) :
  (exists formatted, format_sql parse_one to_sql sql = Return formatted)
  /\ (forall e, parse_one sql = Raise e -> format_sql parse_one to_sql sql = Return sql)
  /\ (forall parsed e,
        parse_one sql = Return parsed -> to_sql parsed = Raise e ->
        format_sql parse_one to_sql sql = Return sql)
  /\ (forall parsed formatted,
        parse_one sql = Return parsed -> to_sql parsed = Return formatted ->
        format_sql parse_one to_sql sql = Return formatted).
Proof.
  unfold format_sql, try_except, bind.
  destruct (parse_one sql) as [parsed|e] eqn:Hparse.
  - destruct (to_sql parsed) as [formatted|e] eqn:Hgen.
    + split; [exists formatted; reflexivity|].
      split; [discriminate|]. split.
      * intros parsed' e [= <-]. rewrite Hgen. discriminate.
      * intros parsed' formatted' [= <-]. rewrite Hgen. intros [= <-]. reflexivity.
    + split; [exists sql; reflexivity|].
      split; [discriminate|]. split.
      * reflexivity.
      * intros parsed' formatted' [= <-]. rewrite Hgen. discriminate.
  - split; [exists sql; reflexivity|].
    split; [reflexivity|]. split; discriminate.
Qed.

(** Formatting twice.  What the second pass does on a text that the first
    pass printed is decided by the parser and the generator alone; for a
    pair that is stable in the sense above, formatting a formatted text
    changes nothing.  Whether [sqlglot] is such a pair is not settled
    here. *)
Lemma format_sql_idempotent
        (parse_one : string -> Outcome Expression)
        (to_sql : Expression -> Outcome string) (sql : string) :
  print_stable parse_one to_sql ->
  (do formatted <- format_sql parse_one to_sql sql; format_sql parse_one to_sql formatted)
  = format_sql parse_one to_sql sql.
Proof.
  intros Hstable. unfold format_sql at 1 3. unfold try_except, bind.
  destruct (parse_one sql) as [parsed|e] eqn:Hparse.
  - destruct (to_sql parsed) as [formatted|e] eqn:Hgen.
    + unfold format_sql, try_except, bind.
      destruct (parse_one formatted) as [parsed'|e] eqn:Hparse'; [|reflexivity].
      destruct (to_sql parsed') as [formatted'|e] eqn:Hgen'; [|reflexivity].
      rewrite (Hstable sql parsed formatted parsed' formatted'); auto.
    + unfold format_sql, try_except, bind. rewrite Hparse, Hgen. reflexivity.
  - unfold format_sql, try_except, bind. rewrite Hparse. reflexivity.
Qed.

Lemma assoc_in {A : Type} (key : string) (l : list (string * A)) (v : A) :
  assoc key l = Some v -> In v (map snd l).
Proof.
  induction l as [|[k x] l IH]; simpl; [discriminate|].
  destruct (String.eqb k key); [intros [= ->]; left; reflexivity | right; auto].
Qed.

Lemma samples_parse_one_in (sql : string) (e : Expression) :
  Samples.parse_one sql = Return e -> In e (map snd Samples.statements).
Proof.
  unfold Samples.parse_one.
  destruct (assoc sql _) as [e'|] eqn:Ha; [|discriminate].
  intros [= <-]. apply assoc_in in Ha.
  rewrite map_app, map_map in Ha. apply in_app_or in Ha.
  destruct Ha as [Ha|Ha]; exact Ha.
Qed.

Lemma samples_print_stable : print_stable Samples.parse_one Samples.to_sql.
Proof.
  intros sql parsed formatted parsed' formatted' Hp Hg Hp' Hg'.
  apply samples_parse_one_in in Hp.
  assert (Hall : Forall (fun e =>
                           match Samples.parse_one (Samples.render (size e) e) with
                           | Return e' =>
                               Samples.render (size e') e' = Samples.render (size e) e
                           | Raise _ => True
                           end) (map snd Samples.statements)).
  { vm_compute. repeat constructor. }
  pose proof (proj1 (List.Forall_forall _ _) Hall parsed Hp) as Hone.
  cbv beta in Hone. unfold Samples.to_sql in Hg, Hg'. injection Hg as <-. injection Hg' as <-.
  rewrite Hp' in Hone. exact Hone.
Qed.

Lemma format_sql_idempotent_witness :
  (do formatted <- format_sql Samples.parse_one Samples.to_sql "select id from orders";
   format_sql Samples.parse_one Samples.to_sql formatted)
  = format_sql Samples.parse_one Samples.to_sql "select id from orders".
Proof.
  exact (format_sql_idempotent Samples.parse_one Samples.to_sql "select id from orders"
           samples_print_stable).
Defined.

Example select_only_enforcement :
  validate_sql Samples.parse_one Samples.expr_str "DELETE FROM users"
  = (false, Some "Only SELECT queries are allowed. Detected: Delete")
  /\ validate_sql Samples.parse_one Samples.expr_str "SELECT pg_read_file('/etc/passwd')"
     = (false, Some "Dangerous functions detected: pg_read_file")
  /\ validate_sql Samples.parse_one Samples.expr_str "SELECT * FROM WHERE"
     = (false, Some "SQL syntax error: Invalid expression / Unexpected token").
Proof. vm_compute. repeat split; reflexivity. Qed.

Example format_sql_sample :
  format_sql Samples.parse_one Samples.to_sql "select id from orders"
  = Return "SELECT id FROM orders"
  /\ format_sql Samples.parse_one Samples.to_sql "SELECT * FROM WHERE"
     = Return "SELECT * FROM WHERE".
Proof. split; vm_compute; reflexivity. Qed.

End SQLValidatorProps.

(** ** Access-control rewriter *)

Section RewriterProps.
Import Sqlglot Security SQLAccessControlRewriter.

Lemma table_step_blocked
      (parse_one : string -> Outcome Expression) (policy : DatabaseAccessPolicy)
      (t : Expression) (blocked : list string) (h : Heap) :
  fst (table_step parse_one policy (blocked, h) t)
  = if checked_blocked policy t then (blocked ++ [reported_name t])%list else blocked.
Proof.
  unfold table_step, checked_blocked, reported_name, checked_schema.
  destruct (is_table_blocked policy _ _); [reflexivity|].
  destruct (get_row_filter policy _ _) as [rf|]; [destruct (nonempty_str rf)|]; reflexivity.
Qed.

Lemma table_loop_blocked
      (parse_one : string -> Outcome Expression) (policy : DatabaseAccessPolicy)
      (tables : list Expression) (blocked : list string) (h : Heap) :
  fst (fold_left (table_step parse_one policy) tables (blocked, h))
  = (blocked ++ map reported_name (List.filter (checked_blocked policy) tables))%list.
Proof.
  revert blocked h. induction tables as [|t tables IH]; intros blocked h.
  - simpl. rewrite app_nil_r. reflexivity.
  - cbn [fold_left List.filter].
    pose proof (table_step_blocked parse_one policy t blocked h) as Hstep.
    destruct (table_step parse_one policy (blocked, h) t) as [blocked' h'].
    simpl in Hstep. subst blocked'. rewrite IH.
    destruct (checked_blocked policy t); [|reflexivity].
    simpl. rewrite <- app_assoc. reflexivity.
Qed.

(** X1.  Every table reference whose name, under the schema that the loop
    reads off it ([catalog], or [public] when that is empty), or whose bare
    name is on the block list is reported as [schema.table], in the order of
    the walk; no violation stops the loop. *)
Theorem scan_blocked_tables
      (parse_one : string -> Outcome Expression) (policy : DatabaseAccessPolicy)
      (parsed : Expression) (next : nat) :
  fst (fst (scan parse_one policy (parsed, next)))
  = map reported_name (List.filter (checked_blocked policy) (find_all is_table parsed)).
Proof.
  unfold scan. simpl.
  pose proof (table_loop_blocked parse_one policy (find_all is_table parsed) [] (parsed, next))
    as H.
  destruct (fold_left _ _ _) as [blocked [parsed' next']]. simpl in H. subst blocked.
  reflexivity.
Qed.

Lemma nonempty_app_nil {A : Type} (l1 l2 : list A) :
  nonempty l1 || nonempty l2 = false <-> (l1 ++ l2)%list = [].
Proof. destruct l1, l2; simpl; split; intros H; try discriminate; reflexivity. Qed.

(** C3, as amended.  A result that lists a blocked table or column is a
    denial.  A denial either lists a blocked table or column, or reports an
    exception that the rewriter caught (the statement did not parse, or the
    generator raised), and then both lists are empty. *)
Theorem denial_iff_blocked_or_error
        (parse_one : string -> Outcome Expression)
        (to_sql : Expression -> Outcome string)
        (policy : DatabaseAccessPolicy) (sql : string) :
  (SecurityValidationResult.is_valid (rewrite_and_validate parse_one to_sql policy sql)
   = false
   <-> (SecurityValidationResult.blocked_tables
          (rewrite_and_validate parse_one to_sql policy sql)
        ++ SecurityValidationResult.blocked_columns
             (rewrite_and_validate parse_one to_sql policy sql))%list <> []
       \/ exists e,
            rewrite_and_validate_try parse_one to_sql policy sql = Raise e
            /\ rewrite_and_validate parse_one to_sql policy sql = access_control_error e)
  /\ (forall r,
        rewrite_and_validate_try parse_one to_sql policy sql = Return r ->
        rewrite_and_validate parse_one to_sql policy sql = r
        /\ (SecurityValidationResult.is_valid r = false
            <-> (SecurityValidationResult.blocked_tables r
                 ++ SecurityValidationResult.blocked_columns r)%list <> []))
  /\ (forall e,
        parse_one sql = Raise e ->
        rewrite_and_validate parse_one to_sql policy sql = access_control_error e).
Proof.
  assert (Hret : forall r,
             rewrite_and_validate_try parse_one to_sql policy sql = Return r ->
             SecurityValidationResult.is_valid r = false
             <-> (SecurityValidationResult.blocked_tables r
                  ++ SecurityValidationResult.blocked_columns r)%list <> []).
  { intros r. unfold rewrite_and_validate_try, bind.
    destruct (parse_one sql) as [parsed0|e]; [|discriminate].
    destruct (scan parse_one policy (fresh parsed0 0)) as [[bt bc] parsed].
    destruct (nonempty bt || nonempty bc) eqn:Hne.
    - intros [= <-]. simpl. split; [intros _ Hnil | reflexivity].
      apply nonempty_app_nil in Hnil. congruence.
    - destruct (to_sql parsed) as [text|e]; [|discriminate].
      intros [= <-]. simpl. split; [discriminate | intros H; exfalso; apply H; reflexivity]. }
  unfold rewrite_and_validate.
  destruct (rewrite_and_validate_try parse_one to_sql policy sql) as [r|e] eqn:Htry.
  - split; [|split].
    + rewrite (Hret r eq_refl). split; [intros H; left; exact H|].
      intros [H | (e & He & _)]; [exact H | discriminate He].
    + intros r' [= <-]. split; [reflexivity | apply Hret; reflexivity].
    + intros e He. unfold rewrite_and_validate_try in Htry. rewrite He in Htry.
      discriminate Htry.
  - split; [|split].
    + simpl. split; [intros _; right; exists e; auto | reflexivity].
    + intros r [=].
    + intros e' He. unfold rewrite_and_validate_try in Htry. rewrite He in Htry.
      simpl in Htry. injection Htry as ->. reflexivity.
Qed.

(** C3 as the design document words it fails: a statement that does not
    parse is denied, and the denial lists no table and no column. *)
Lemma parse_failure_denial_counterexample :
  let r := rewrite_and_validate Samples.parse_one Samples.to_sql
             Samples.block_secret_users "SELECT * FROM WHERE" in
  SecurityValidationResult.is_valid r = false
  /\ (SecurityValidationResult.blocked_tables r
      ++ SecurityValidationResult.blocked_columns r)%list = [].
Proof. vm_compute. split; reflexivity. Qed.

(** The rewriter consults the parser, besides the statement itself, only on
    the row filters of the policy. *)
Lemma apply_row_filter_ext
      (parse_one parse_one' : string -> Outcome Expression)
      (h : Heap) (table_node : Expression) (row_filter : string) :
  parse_one ("SELECT * FROM t WHERE " +:+ row_filter)
  = parse_one' ("SELECT * FROM t WHERE " +:+ row_filter) ->
  _apply_row_filter parse_one h table_node row_filter
  = _apply_row_filter parse_one' h table_node row_filter.
Proof. intros Heq. unfold _apply_row_filter. rewrite Heq. reflexivity. Qed.

Lemma get_row_filter_in (policy : DatabaseAccessPolicy) (schema_ table_ row_filter_ : string) :
  get_row_filter policy schema_ table_ = Some row_filter_ ->
  exists r, In r (table_rules policy) /\ row_filter r = Some row_filter_.
Proof.
  unfold get_row_filter, get_table_access.
  destruct (List.find _ _) as [r|] eqn:Hfind; [|discriminate].
  intros Hr. exists r. split; [|exact Hr].
  apply find_some in Hfind. apply Hfind.
Qed.

Lemma scan_ext
      (parse_one parse_one' : string -> Outcome Expression)
      (policy : DatabaseAccessPolicy) (h : Heap) :
  (forall r row_filter_,
      In r (table_rules policy) -> row_filter r = Some row_filter_ ->
      parse_one ("SELECT * FROM t WHERE " +:+ row_filter_)
      = parse_one' ("SELECT * FROM t WHERE " +:+ row_filter_)) ->
  scan parse_one policy h = scan parse_one' policy h.
Proof.
  intros Hagree.
  assert (Hstep : forall acc t,
             table_step parse_one policy acc t = table_step parse_one' policy acc t).
  { intros [blocked h'] t. unfold table_step.
    destruct (is_table_blocked policy _ _); [reflexivity|].
    destruct (get_row_filter policy _ _) as [rf|] eqn:Hrf; [|reflexivity].
    destruct (nonempty_str rf); [|reflexivity].
    apply get_row_filter_in in Hrf as (r & Hin & Hr).
    rewrite (apply_row_filter_ext parse_one parse_one' h' t rf (Hagree r rf Hin Hr)).
    reflexivity. }
  unfold scan.
  assert (Hfold : forall tables acc,
             fold_left (table_step parse_one policy) tables acc
             = fold_left (table_step parse_one' policy) tables acc).
  { induction tables as [|t tables IH]; intros acc; simpl; [reflexivity|].
    rewrite Hstep. apply IH. }
  rewrite Hfold. reflexivity.
Qed.

(** X2.  In a statement whose root is a SELECT, the SELECT that
    [_apply_row_filter] picks for a table is always the root, wherever the
    table is read. *)
Theorem enclosing_select_root (parsed table_node : Expression) :
  is_select (cls parsed) = true -> enclosing_select parsed table_node = Some parsed.
Proof.
  intros Hroot. unfold enclosing_select.
  set (P := fun select_node : Expression =>
              existsb (fun tbl => Nat.eqb (uid tbl) (uid table_node))
                      (find_all is_table select_node)).
  destruct (List.find P (find_all is_select parsed)) as [s|] eqn:Hfind;
    [|rewrite Hroot; reflexivity].
  f_equal.
  destruct (walk_root parsed) as [rest Hwalk].
  unfold find_all in Hfind. rewrite Hwalk in Hfind. simpl in Hfind.
  rewrite Hroot in Hfind. simpl in Hfind.
  destruct (P parsed) eqn:HP; [injection Hfind as <-; reflexivity|].
  exfalso. apply find_some in Hfind as [Hin HPs].
  apply filter_In in Hin as [Hin _].
  assert (Hsub : subexpr s parsed).
  { apply walk_sound. rewrite Hwalk. right. exact Hin. }
  unfold P in HPs, HP. apply existsb_exists in HPs as (tbl & Htbl & Huid).
  assert (Htbl' : In tbl (find_all is_table parsed)).
  { unfold find_all in Htbl. apply filter_In in Htbl as [Hw Hc].
    apply find_all_complete; [|exact Hc].
    eapply subexpr_trans; [apply walk_sound; exact Hw | exact Hsub]. }
  assert (Hex : existsb (fun tbl => Nat.eqb (uid tbl) (uid table_node))
                        (find_all is_table parsed) = true).
  { apply existsb_exists. exists tbl. auto. }
  rewrite Hex in HP. discriminate HP.
Qed.

Lemma enclosing_select_root_witness :
  let parsed := fst (fresh Samples.select_from_subquery O) in
  Forall (fun table_node => enclosing_select parsed table_node = Some parsed)
         (find_all is_table parsed).
Proof.
  apply List.Forall_forall. intros table_node _.
  exact (enclosing_select_root (fst (fresh Samples.select_from_subquery O)) table_node
           eq_refl).
Defined.

(** C1 on [SELECT * FROM secret.users] with [blocked_tables =
    ["secret.users"]].  The policy blocks the table under its schema
    [secret], yet the loop reads the qualifier from [catalog], which is empty
    for a two-part name, checks the reference as [public.users], and reports
    nothing: whatever the generator prints is returned as a valid rewrite. *)
Theorem explicit_schema_checked_as_public
        (parse_one : string -> Outcome Expression)
        (to_sql : Expression -> Outcome string) :
  parse_one "SELECT * FROM secret.users" = Return Samples.select_from_secret_users ->
  is_table_blocked Samples.block_secret_users "secret" "users" = true
  /\ map db (find_all is_table Samples.select_from_secret_users) = ["secret"]
  /\ map checked_schema (find_all is_table Samples.select_from_secret_users) = ["public"]
  /\ SecurityValidationResult.blocked_tables
       (rewrite_and_validate parse_one to_sql Samples.block_secret_users
          "SELECT * FROM secret.users") = []
  /\ forall text,
      to_sql (fst (fresh Samples.select_from_secret_users O)) = Return text ->
      rewrite_and_validate parse_one to_sql Samples.block_secret_users
        "SELECT * FROM secret.users"
      = {| SecurityValidationResult.is_valid := true;
           SecurityValidationResult.error_message := None;
           SecurityValidationResult.blocked_tables := [];
           SecurityValidationResult.blocked_columns := [];
           SecurityValidationResult.rewritten_sql := Some text |}.
Proof.
  intros Hparse.
  split; [reflexivity|]. split; [reflexivity|]. split; [reflexivity|].
  unfold rewrite_and_validate, rewrite_and_validate_try, bind. rewrite Hparse.
  assert (Hscan : scan parse_one Samples.block_secret_users
                       (fresh Samples.select_from_secret_users O)
                  = ([], [], fst (fresh Samples.select_from_secret_users O)))
    by (vm_compute; reflexivity).
  rewrite Hscan. simpl nonempty. simpl orb. cbv iota.
  split.
  - destruct (to_sql _); reflexivity.
  - intros text Htext. rewrite Htext. reflexivity.
Qed.

Lemma explicit_schema_checked_as_public_witness :
  rewrite_and_validate Samples.parse_one Samples.to_sql Samples.block_secret_users
    "SELECT * FROM secret.users"
  = {| SecurityValidationResult.is_valid := true;
       SecurityValidationResult.error_message := None;
       SecurityValidationResult.blocked_tables := [];
       SecurityValidationResult.blocked_columns := [];
       SecurityValidationResult.rewritten_sql := Some "SELECT * FROM secret.users" |}.
Proof.
  exact (proj2 (proj2 (proj2 (proj2
           (explicit_schema_checked_as_public Samples.parse_one Samples.to_sql eq_refl))))
           "SELECT * FROM secret.users" eq_refl).
Defined.

(** C4 on [SELECT id FROM (SELECT id FROM orders) AS sub] with the row filter
    [user_id = current_user_id()] on [orders].  The statement has two
    SELECTs; [orders] is read by the inner one.  After the rewrite the outer
    SELECT carries the filter as its WHERE clause and the inner SELECT, the
    innermost one that contains the table, has none. *)
Theorem row_filter_lands_on_outermost_select
        (parse_one : string -> Outcome Expression)
        (to_sql : Expression -> Outcome string) :
  parse_one "SELECT id FROM (SELECT id FROM orders) AS sub"
  = Return Samples.select_from_subquery ->
  parse_one "SELECT * FROM t WHERE user_id = current_user_id()"
  = Return Samples.filter_user_id ->
  exists rewritten,
    scan parse_one Samples.orders_row_filter (fresh Samples.select_from_subquery O)
    = ([], [], rewritten)
    /\ map (option_map Samples.expr_str) (where_clauses rewritten)
       = [Some "WHERE user_id = current_user_id()"; None]
    /\ map (fun select => map table_name (find_all is_table select))
           (find_all is_select rewritten)
       = [["orders"]; ["orders"]]
    /\ Samples.expr_str rewritten
       = "SELECT id FROM (SELECT id FROM orders) AS sub WHERE user_id = current_user_id()"
    /\ forall text,
        to_sql rewritten = Return text ->
        rewrite_and_validate parse_one to_sql Samples.orders_row_filter
          "SELECT id FROM (SELECT id FROM orders) AS sub"
        = {| SecurityValidationResult.is_valid := true;
             SecurityValidationResult.error_message := None;
             SecurityValidationResult.blocked_tables := [];
             SecurityValidationResult.blocked_columns := [];
             SecurityValidationResult.rewritten_sql := Some text |}.
Proof.
  intros Hparse Hfilter.
  assert (Hscan : scan parse_one Samples.orders_row_filter
                       (fresh Samples.select_from_subquery O)
                  = scan Samples.parse_one Samples.orders_row_filter
                         (fresh Samples.select_from_subquery O)).
  { apply scan_ext. intros r row_filter [<-|[]] [= <-]. exact Hfilter. }
  unfold rewrite_and_validate, rewrite_and_validate_try, bind.
  rewrite Hparse, Hscan.
  eexists. split; [vm_compute; reflexivity|].
  split; [vm_compute; reflexivity|]. split; [vm_compute; reflexivity|].
  split; [vm_compute; reflexivity|].
  intros text Htext.
  match goal with
  | |- context [scan Samples.parse_one ?p ?h] =>
      let v := eval vm_compute in (scan Samples.parse_one p h) in
      change (scan Samples.parse_one p h) with v
  end.
  cbv iota beta. simpl nonempty. simpl orb. cbv iota.
  rewrite Htext. reflexivity.
Qed.

Lemma row_filter_lands_on_outermost_select_witness :
  exists rewritten,
    scan Samples.parse_one Samples.orders_row_filter (fresh Samples.select_from_subquery O)
    = ([], [], rewritten)
    /\ map (option_map Samples.expr_str) (where_clauses rewritten)
       = [Some "WHERE user_id = current_user_id()"; None]
    /\ map (fun select => map table_name (find_all is_table select))
           (find_all is_select rewritten)
       = [["orders"]; ["orders"]]
    /\ Samples.expr_str rewritten
       = "SELECT id FROM (SELECT id FROM orders) AS sub WHERE user_id = current_user_id()"
    /\ forall text,
        Samples.to_sql rewritten = Return text ->
        rewrite_and_validate Samples.parse_one Samples.to_sql Samples.orders_row_filter
          "SELECT id FROM (SELECT id FROM orders) AS sub"
        = {| SecurityValidationResult.is_valid := true;
             SecurityValidationResult.error_message := None;
             SecurityValidationResult.blocked_tables := [];
             SecurityValidationResult.blocked_columns := [];
             SecurityValidationResult.rewritten_sql := Some text |}.
Proof.
  exact (row_filter_lands_on_outermost_select Samples.parse_one Samples.to_sql
           eq_refl eq_refl).
Defined.

(** The scenarios of the design document. *)
Example row_filter_injection :
  rewrite_and_validate Samples.parse_one Samples.to_sql Samples.orders_row_filter
    "select id from orders"
  = {| SecurityValidationResult.is_valid := true;
       SecurityValidationResult.error_message := None;
       SecurityValidationResult.blocked_tables := [];
       SecurityValidationResult.blocked_columns := [];
       SecurityValidationResult.rewritten_sql :=
         Some "SELECT id FROM orders WHERE user_id = current_user_id()" |}.
Proof. vm_compute. reflexivity. Qed.

Example column_denial :
  rewrite_and_validate Samples.parse_one Samples.to_sql Samples.deny_password_hash
    "SELECT password_hash FROM users"
  = {| SecurityValidationResult.is_valid := false;
       SecurityValidationResult.error_message :=
         Some "Blocked columns: public.users.password_hash";
       SecurityValidationResult.blocked_tables := [];
       SecurityValidationResult.blocked_columns := ["public.users.password_hash"];
       SecurityValidationResult.rewritten_sql := None |}.
Proof. vm_compute. reflexivity. Qed.

(** The other face of the qualifier slip: a block on [public.users] denies a
    read of [secret.users]. *)
Example other_schema_blocked_as_public :
  SecurityValidationResult.blocked_tables
    (rewrite_and_validate Samples.parse_one Samples.to_sql
       (Samples.policy [] ["public.users"]) "SELECT * FROM secret.users")
  = ["public.users"].
Proof. vm_compute. reflexivity. Qed.

End RewriterProps.

(** ** Rate limiter: keys, usage, expiry, sliding window *)

Section RateLimiterMoreProps.
Import RateLimiter RateLimiterTrace.

Lemma Qgtb_lt (x y : Q) : Qgtb x y = true <-> (y < x)%Q.
Proof.
  unfold Qgtb. rewrite negb_true_iff. split.
  - intros H. apply Qnot_le_lt. intros Hle. apply Qle_bool_iff in Hle. congruence.
  - intros H. destruct (Qle_bool x y) eqn:Hb; [|reflexivity].
    apply Qle_bool_iff in Hb. exfalso. apply (Qlt_not_le _ _ H Hb).
Qed.

Lemma check_rate_limit_records (key : string) (now : Q) (self : t) :
  enabled (config self) = true ->
  records (snd (check_rate_limit key now self))
  = <[key := {| timestamps :=
                  if max_requests (config self)
                     <=? Z.of_nat (length (prune (now - inject_Z (time_window (config self)))%Q
                                                 (timestamps (record_of self key))))
                  then prune (now - inject_Z (time_window (config self)))%Q
                             (timestamps (record_of self key))
                  else (prune (now - inject_Z (time_window (config self)))%Q
                              (timestamps (record_of self key)) ++ [now])%list |}]>
      (records self)
  /\ fst (fst (check_rate_limit key now self))
     = negb (max_requests (config self)
             <=? Z.of_nat (length (prune (now - inject_Z (time_window (config self)))%Q
                                         (timestamps (record_of self key))))).
Proof.
  intros Hen. unfold check_rate_limit. rewrite Hen. simpl.
  destruct (_ <=? _); [|split; reflexivity].
  destruct (prune _ _); split; reflexivity.
Qed.

(** X3.  Keys are independent: a probe, a usage query or a reset of one key
    leaves the record of every other key as it was, so the answer of a later
    probe of another key, and its usage, do not depend on it. *)
Theorem keys_are_independent
        (key key' : string) (now now' : Q) (self : t) :
  key <> key' -> key <> "" ->
  (records (snd (check_rate_limit key now self)) !! key' = records self !! key'
   /\ records (reset (Some key) self) !! key' = records self !! key')
  /\ fst (check_rate_limit key' now' (snd (check_rate_limit key now self)))
     = fst (check_rate_limit key' now' self)
  /\ fst (get_current_usage key' now' (snd (check_rate_limit key now self)))
     = fst (get_current_usage key' now' self)
  /\ fst (check_rate_limit key' now' (reset (Some key) self))
     = fst (check_rate_limit key' now' self).
Proof.
  intros Hne Hkey.
  assert (Hcfg : config (snd (check_rate_limit key now self)) = config self).
  { pose proof (step_config (CheckRateLimit key now) self) as H. simpl in H.
    destruct (check_rate_limit key now self). exact H. }
  assert (Hrec : records (snd (check_rate_limit key now self)) !! key' = records self !! key').
  { unfold check_rate_limit. destruct (negb (enabled (config self))); [reflexivity|].
    destruct (_ <=? _); [destruct (prune _ _)|]; simpl;
      rewrite lookup_insert_ne by exact Hne; reflexivity. }
  assert (Hreset : records (reset (Some key) self) !! key' = records self !! key').
  { unfold reset. destruct (String.eqb_spec key ""); [contradiction|].
    simpl. apply lookup_delete_ne. exact Hne. }
  assert (Hprobe : forall s,
             config s = config self -> records s !! key' = records self !! key' ->
             fst (check_rate_limit key' now' s) = fst (check_rate_limit key' now' self)).
  { intros s Hc Hr. unfold check_rate_limit, record_of. rewrite Hc, Hr. 
    destruct (negb (enabled (config self))); [reflexivity|].
    destruct (_ <=? _); [destruct (prune _ _)|]; reflexivity. }
  assert (Husage : forall s,
             config s = config self -> records s !! key' = records self !! key' ->
             fst (get_current_usage key' now' s) = fst (get_current_usage key' now' self)).
  { intros s Hc Hr. unfold get_current_usage. rewrite Hc, Hr.
    destruct (records self !! key'); reflexivity. }
  split; [split; assumption|].
  split; [apply Hprobe; assumption|]. split; [apply Husage; assumption|].
  apply Hprobe; [|exact Hreset].
  unfold reset. destruct (String.eqb key ""); reflexivity.
Qed.

Lemma keys_are_independent_witness :
  let self := after {| max_requests := 1; time_window := 60; enabled := true |}
                    [CheckRateLimit "db2" 0] in
  fst (check_rate_limit "db2" 1 (snd (check_rate_limit "db1" 1 self)))
  = fst (check_rate_limit "db2" 1 self)
  /\ fst (fst (check_rate_limit "db2" 1 self)) = false.
Proof.
  split; [|reflexivity].
  exact (proj1 (proj2 (keys_are_independent "db1" "db2" 1 1
                         (after {| max_requests := 1; time_window := 60; enabled := true |}
                                [CheckRateLimit "db2" 0])
                         ltac:(discriminate) ltac:(discriminate)))).
Defined.

(** X4.  On an enabled limiter a probe is allowed exactly when the usage
    read at the same moment shows fewer current requests than the maximum,
    that is, exactly when it shows a request remaining; the usage never
    reports a negative remainder. *)
Theorem usage_predicts_probe (key : string) (now : Q) (self : t) :
  enabled (config self) = true ->
  (fst (fst (check_rate_limit key now self)) = true
   <-> current_requests (fst (get_current_usage key now self)) < max_requests (config self))
  /\ (fst (fst (check_rate_limit key now self)) = true
      <-> 0 < remaining_requests (fst (get_current_usage key now self)))
  /\ (0 <= max_requests (config self) ->
      0 <= remaining_requests (fst (get_current_usage key now self)))
  /\ 0 <= current_requests (fst (get_current_usage key now self)).
Proof.
  intros Hen.
  destruct (check_rate_limit_records key now self Hen) as [_ Hans].
  rewrite Hans. unfold get_current_usage, record_of.
  destruct (records self !! key) as [record|]; simpl.
  - set (n := Z.of_nat (length (prune _ _))).
    assert (Hn : 0 <= n) by (unfold n; lia).
    rewrite negb_true_iff, Z.leb_gt. repeat split; intros; lia.
  - rewrite negb_true_iff, Z.leb_gt. repeat split; intros; lia.
Qed.

Lemma usage_predicts_probe_witness :
  let self := after {| max_requests := 2; time_window := 60; enabled := true |}
                    [CheckRateLimit "db1" 0] in
  (fst (fst (check_rate_limit "db1" 1 self)) = true
   <-> current_requests (fst (get_current_usage "db1" 1 self)) < 2)
  /\ (fst (fst (check_rate_limit "db1" 1 self)) = true
      <-> 0 < remaining_requests (fst (get_current_usage "db1" 1 self)))
  /\ (0 <= 2 -> 0 <= remaining_requests (fst (get_current_usage "db1" 1 self)))
  /\ 0 <= current_requests (fst (get_current_usage "db1" 1 self)).
Proof.
  exact (usage_predicts_probe "db1" 1
           (after {| max_requests := 2; time_window := 60; enabled := true |}
                  [CheckRateLimit "db1" 0]) eq_refl).
Defined.

Lemma prune_drops_expired (cutoff ts : Q) (l : list Q) :
  In ts l -> (ts <= cutoff)%Q -> (length (prune cutoff l) < length l)%nat.
Proof.
  intros Hin Hle. induction l as [|x l IH]; [destruct Hin|].
  simpl. destruct Hin as [->|Hin].
  - assert (Hx : Qgtb ts cutoff = false).
    { destruct (Qgtb ts cutoff) eqn:Hb; [|reflexivity].
      apply Qgtb_lt in Hb. exfalso. apply (Qlt_not_le _ _ Hb Hle). }
    rewrite Hx. pose proof (filter_length_bound (fun ts0 => Qgtb ts0 cutoff) l).
    unfold prune. lia.
  - specialize (IH Hin). destruct (Qgtb x cutoff); simpl; lia.
Qed.

(** X5.  Requests leave the window: on an enabled limiter of capacity
    [N >= 0], in any state that calls on a new limiter can produce, a probe
    is allowed as soon as one recorded timestamp of the key is [W] seconds
    old or older, and also whenever the record holds fewer than [N]
    timestamps; the allowed probe records its own time last. *)
Theorem expired_request_frees_a_slot
        (cfg : RateLimitConfig) (cs : list Call) (key : string) (now : Q) :
  enabled cfg = true ->
  0 <= max_requests cfg ->
  (Z.of_nat (length (timestamps (record_of (after cfg cs) key))) < max_requests cfg
   \/ exists ts, In ts (timestamps (record_of (after cfg cs) key))
                 /\ (ts <= now - inject_Z (time_window cfg))%Q) ->
  fst (check_rate_limit key now (after cfg cs)) = (true, None)
  /\ timestamps (record_of (snd (check_rate_limit key now (after cfg cs))) key)
     = (prune (now - inject_Z (time_window cfg))%Q
              (timestamps (record_of (after cfg cs) key)) ++ [now])%list.
Proof.
  intros Hen HN Hroom.
  destruct (rate_limit_capacity cfg cs key HN) as [Hcfg Hlen].
  set (self := after cfg cs) in *.
  assert (Hlt : Z.of_nat (length (prune (now - inject_Z (time_window cfg))%Q
                                        (timestamps (record_of self key))))
                < max_requests cfg).
  { destruct Hroom as [Hroom | (ts & Hin & Hexp)].
    - pose proof (filter_length_bound
                    (fun ts => Qgtb ts (now - inject_Z (time_window cfg))%Q)
                    (timestamps (record_of self key))).
      unfold prune. lia.
    - pose proof (prune_drops_expired _ _ _ Hin Hexp). lia. }
  unfold check_rate_limit. rewrite Hcfg, Hen. simpl.
  apply Z.leb_gt in Hlt. rewrite Hlt. simpl. split; [reflexivity|].
  unfold record_of at 1. simpl. rewrite lookup_insert_eq. reflexivity.
Qed.

Lemma expired_request_frees_a_slot_witness :
  let cfg := {| max_requests := 1; time_window := 1; enabled := true |} in
  fst (check_rate_limit "db1" (101 # 100) (after cfg [CheckRateLimit "db1" 0]))
  = (true, None)
  /\ timestamps (record_of (snd (check_rate_limit "db1" (101 # 100)
                                   (after cfg [CheckRateLimit "db1" 0]))) "db1")
     = (prune ((101 # 100) - inject_Z 1)%Q
              (timestamps (record_of (after cfg [CheckRateLimit "db1" 0]) "db1"))
        ++ [101 # 100])%list.
Proof.
  apply (expired_request_frees_a_slot
           {| max_requests := 1; time_window := 1; enabled := true |}
           [CheckRateLimit "db1" 0] "db1" (101 # 100) eq_refl).
  - simpl. lia.
  - right. exists 0%Q. split; [left; reflexivity | vm_compute; discriminate].
Defined.

(** X6.  [reset]: resetting one key removes its record, so that its usage
    reads zero and, when the capacity is positive and the limiter enabled,
    its next probe is allowed; resetting without a key, or with the empty
    string as the key, clears the records of all keys. *)
Theorem reset_clears_records (key : string) (now : Q) (self : t) :
  (key <> "" ->
   records (reset (Some key) self) !! key = None
   /\ current_requests (fst (get_current_usage key now (reset (Some key) self))) = 0
   /\ (enabled (config self) = true -> 0 < max_requests (config self) ->
       fst (check_rate_limit key now (reset (Some key) self)) = (true, None)))
  /\ records (reset None self) = ∅
  /\ reset (Some "") self = reset None self
  /\ (forall key', current_requests (fst (get_current_usage key' now (reset None self))) = 0).
Proof.
  split; [|split; [reflexivity|split; [reflexivity|]]].
  - intros Hkey. unfold reset. destruct (String.eqb_spec key ""); [contradiction|].
    assert (Hnone : records (set_records self (delete key (records self))) !! key = None)
      by (simpl; apply lookup_delete_eq).
    split; [exact Hnone|]. split.
    + unfold get_current_usage. rewrite Hnone. reflexivity.
    + intros Hen HN. unfold check_rate_limit, record_of. rewrite Hnone. simpl.
      rewrite Hen. cbn. change (Z.of_nat 0) with 0.
      destruct (max_requests (config self) <=? 0) eqn:Hle; [|reflexivity].
      apply Z.leb_le in Hle. lia.
  - intros key'. unfold get_current_usage, reset. simpl. rewrite lookup_empty. reflexivity.
Qed.

Lemma prune_prune (c c' : Q) (l : list Q) :
  (c <= c')%Q -> prune c' (prune c l) = prune c' l.
Proof.
  intros Hle. unfold prune. induction l as [|x l IH]; [reflexivity|]. simpl.
  destruct (Qgtb x c) eqn:Hc; simpl; [rewrite IH; reflexivity|].
  destruct (Qgtb x c') eqn:Hc'; [|exact IH].
  apply Qgtb_lt in Hc'. assert (Hc2 : Qgtb x c = true).
  { apply Qgtb_lt. eapply Qle_lt_trans; eauto. }
  congruence.
Qed.

Lemma prune_app (c : Q) (l1 l2 : list Q) :
  prune c (l1 ++ l2) = (prune c l1 ++ prune c l2)%list.
Proof. unfold prune. apply List.filter_app. Qed.

Lemma admitted_app (key : string) (pre post : list Q) (self : t) :
  fst (admitted key (pre ++ post) self)
  = (fst (admitted key pre self)
     ++ fst (admitted key post (snd (admitted key pre self))))%list
  /\ snd (admitted key (pre ++ post) self)
     = snd (admitted key post (snd (admitted key pre self))).
Proof.
  revert self. induction pre as [|t0 pre IH]; intros self; simpl; [split; reflexivity|].
  destruct (check_rate_limit key t0 self) as [r self'].
  specialize (IH self') as [IHa IHs].
  destruct (admitted key (pre ++ post) self') as [a s2].
  destruct (admitted key pre self') as [a1 s1]. simpl in *.
  subst. split; [destruct (fst r); reflexivity | reflexivity].
Qed.

Lemma admitted_invariant (key : string) (times : list Q) :
  forall (self : t) (history : list Q) (c : Q),
    enabled (config self) = true ->
    0 < time_window (config self) ->
    0 <= max_requests (config self) ->
    within_capacity self ->
    nondecreasing times ->
    (forall t, In t times -> (c <= t - inject_Z (time_window (config self)))%Q) ->
    timestamps (record_of self key) = prune c history ->
    exists c',
      timestamps (record_of (snd (admitted key times self)) key)
      = prune c' (history ++ fst (admitted key times self))
      /\ (forall now, (c <= now - inject_Z (time_window (config self)))%Q ->
                      (forall t, In t times -> (t <= now)%Q) ->
                      (c' <= now - inject_Z (time_window (config self)))%Q)
      /\ config (snd (admitted key times self)) = config self
      /\ within_capacity (snd (admitted key times self)).
Proof.
  induction times as [|t0 rest IH]; intros self history c Hen HW HN Hcap Hmono Hc Hrec.
  - exists c. simpl. rewrite app_nil_r. auto.
  - simpl. destruct Hmono as [Hfirst Hmono].
    destruct (check_rate_limit_records key t0 self Hen) as [Hrecs Hans].
    pose proof (check_rate_limit_within_capacity key t0 self HN Hcap) as Hcap'.
    pose proof (step_config (CheckRateLimit key t0) self) as Hcfg. simpl in Hcfg.
    destruct (check_rate_limit key t0 self) as [r self']. simpl in *.
    set (W := inject_Z (time_window (config self))) in *.
    assert (Hc0 : (c <= t0 - W)%Q) by (apply Hc; left; reflexivity).
    assert (Hself' : timestamps (record_of self' key)
                     = prune (t0 - W)%Q (history ++ (if fst r then [t0] else []))).
    { unfold record_of. rewrite Hrecs, lookup_insert_eq. simpl.
      rewrite Hans, Hrec, prune_prune by exact Hc0.
      rewrite prune_app.
      destruct (max_requests (config self)
                <=? Z.of_nat (length (prune (t0 - W)%Q history))); simpl.
      - rewrite app_nil_r. reflexivity.
      - assert (Hnew : Qgtb t0 (t0 - W) = true).
        { apply Qgtb_lt. unfold W.
          assert (0 < inject_Z (time_window (config self)))%Q
            by (change 0%Q with (inject_Z 0); rewrite <- Zlt_Qlt; exact HW).
          lra. }
        rewrite Hnew. reflexivity. }
    destruct (IH self' (history ++ (if fst r then [t0] else []))%list (t0 - W)%Q)
      as (c' & Hfinal & Hbound & Hcfg' & Hcapf).
    + rewrite Hcfg. exact Hen.
    + rewrite Hcfg. exact HW.
    + rewrite Hcfg. exact HN.
    + exact Hcap'.
    + exact Hmono.
    + intros t Ht. rewrite Hcfg. fold W. specialize (Hfirst t Ht). lra.
    + exact Hself'.
    + rewrite Hcfg in *. fold W in Hbound.
      destruct (admitted key rest self') as [a self'']. simpl in *.
      exists c'. split.
      * rewrite Hfinal. rewrite <- app_assoc. destruct (fst r); reflexivity.
      * split; [|split; [congruence | exact Hcapf]].
        intros now Hnow Hall. apply Hbound.
        -- specialize (Hall t0 (or_introl eq_refl)). lra.
        -- intros t Ht. apply Hall. right. exact Ht.
Qed.

(** X7.  The sliding window.  Let the probes of one key be made on a new,
    enabled limiter with capacity [N >= 0] and window [W > 0], at times that
    do not decrease.  Then at every moment [now] of the run (after any prefix
    [pre] of the probes, none of them later than [now]) at most [N] of the
    probes allowed so far lie in the window [(now - W, now]]. *)
Theorem sliding_window_bound
        (cfg : RateLimitConfig) (key : string) (pre post : list Q) (now : Q) :
  enabled cfg = true ->
  0 < time_window cfg ->
  0 <= max_requests cfg ->
  nondecreasing (pre ++ post) ->
  (forall t, In t pre -> (t <= now)%Q) ->
  fst (admitted key (pre ++ post) (init cfg))
  = (fst (admitted key pre (init cfg))
     ++ fst (admitted key post (snd (admitted key pre (init cfg)))))%list
  /\ Z.of_nat (in_window (time_window cfg) now (fst (admitted key pre (init cfg))))
     <= max_requests cfg.
Proof.
  intros Hen HW HN Hmono Hnow.
  split; [apply admitted_app|].
  assert (Hpre : nondecreasing pre).
  { clear -Hmono. induction pre as [|t0 pre IH]; simpl in *; [exact I|].
    destruct Hmono as [Hfirst Hmono]. split; [|apply IH; exact Hmono].
    intros t Ht. apply Hfirst. apply in_or_app. left. exact Ht. }
  set (c := match pre with [] => (now - inject_Z (time_window cfg))%Q
                     | t0 :: _ => (t0 - inject_Z (time_window cfg))%Q end).
  assert (Hc : forall t, In t pre -> (c <= t - inject_Z (time_window cfg))%Q).
  { destruct pre as [|t0 pre']; [intros t []|].
    intros t [<-|Ht]; unfold c; [lra|].
    destruct Hpre as [Hfirst _]. specialize (Hfirst t Ht). lra. }
  assert (Hcnow : (c <= now - inject_Z (time_window cfg))%Q).
  { destruct pre as [|t0 pre']; unfold c; [lra|].
    specialize (Hnow t0 (or_introl eq_refl)). lra. }
  destruct (admitted_invariant key pre (init cfg) [] c Hen HW HN
              (init_within_capacity cfg) Hpre Hc eq_refl)
    as (c' & Hfinal & Hbound & Hcfg & Hcap).
  simpl in Hfinal, Hbound, Hcfg.
  specialize (Hbound now Hcnow Hnow).
  pose proof (record_of_within_capacity _ key
                ltac:(rewrite Hcfg; exact HN) Hcap) as Hlen.
  rewrite Hcfg, Hfinal in Hlen. simpl in Hlen.
  set (A := fst (admitted key pre (init cfg))) in *.
  assert (H1 : (in_window (time_window cfg) now A
                <= length (prune (now - inject_Z (time_window cfg))%Q A))%nat).
  { unfold in_window, prune. apply filter_length_mono.
    intros x Hx. apply andb_true_iff in Hx as [Hx _]. exact Hx. }
  assert (H2 : (length (prune (now - inject_Z (time_window cfg))%Q A)
                <= length (prune c' A))%nat).
  { rewrite <- (prune_prune c' _ A Hbound). apply filter_length_bound. }
  lia.
Qed.

Lemma sliding_window_bound_witness :
  let cfg := {| max_requests := 2; time_window := 10; enabled := true |} in
  fst (admitted "db1" ([0; 1; 2]%Q ++ [11; 12]%Q)%list (init cfg))
  = (fst (admitted "db1" [0; 1; 2]%Q (init cfg))
     ++ fst (admitted "db1" [11; 12]%Q (snd (admitted "db1" [0; 1; 2]%Q (init cfg)))))%list
  /\ Z.of_nat (in_window 10 2 (fst (admitted "db1" [0; 1; 2]%Q (init cfg)))) <= 2.
Proof.
  apply (sliding_window_bound {| max_requests := 2; time_window := 10; enabled := true |}
           "db1" [0; 1; 2]%Q [11; 12]%Q 2 eq_refl).
  - reflexivity.
  - simpl. lia.
  - simpl. repeat split; intros t Ht;
      repeat (destruct Ht as [<-|Ht]; [vm_compute; discriminate|]); destruct Ht.
  - intros t Ht. repeat (destruct Ht as [<-|Ht]; [vm_compute; discriminate|]). destruct Ht.
Defined.

Example sliding_window_run :
  fst (admitted "db1" [0; 1; 2; 11; 12]%Q
         (init {| max_requests := 2; time_window := 10; enabled := true |}))
  = [0; 1; 11; 12]%Q.
Proof. vm_compute. reflexivity. Qed.

End RateLimiterMoreProps.

(** ** Metrics collector: sums, gauges, label order *)

Section MetricsMoreProps.
Import Metrics MetricsTrace.

Lemma step_flags (c : Call) (self : t) :
  enabled (step c self) = enabled self
  /\ collect_query (step c self) = collect_query self
  /\ collect_sql (step c self) = collect_sql self
  /\ collect_db (step c self) = collect_db self.
Proof.
  destruct c as [m v l|m v l|]; simpl.
  - unfold increment. destruct (negb (_should_collect self m)); repeat split.
  - unfold set_gauge. destruct (negb (_should_collect self m)); repeat split.
  - repeat split.
Qed.

Lemma step_should_collect (c : Call) (self : t) (metric : string) :
  _should_collect (step c self) metric = _should_collect self metric.
Proof.
  destruct (step_flags c self) as (He & Hq & Hs & Hd).
  unfold _should_collect. rewrite He, Hq, Hs, Hd. reflexivity.
Qed.

Lemma step_counter_after (c c' : Call) (self : t) (key : string) (before : Q) :
  counter_after (step c self) key before c' = counter_after self key before c'.
Proof.
  destruct c' as [m v l|m v l|]; simpl; [|reflexivity|reflexivity].
  rewrite step_should_collect. reflexivity.
Qed.

Lemma fold_counter_after (c : Call) (self : t) (key : string) (cs : list Call) :
  forall before,
    fold_left (counter_after (step c self) key) cs before
    = fold_left (counter_after self key) cs before.
Proof.
  induction cs as [|c' cs IH]; intros before; simpl; [reflexivity|].
  rewrite step_counter_after. apply IH.
Qed.

Lemma step_counter (c : Call) (self : t) (key : string) :
  default 0%Q (_counters (step c self) !! key)
  = counter_after self key (default 0%Q (_counters self !! key)) c.
Proof.
  destruct c as [m v l|m v l|]; simpl.
  - unfold increment. destruct (_should_collect self m); simpl; [|reflexivity].
    destruct (String.eqb_spec (_make_key m l) key) as [->|Hne].
    + rewrite lookup_insert_eq. reflexivity.
    + rewrite lookup_insert_ne by exact Hne. reflexivity.
  - unfold set_gauge. destruct (negb (_should_collect self m)); reflexivity.
  - rewrite lookup_empty. reflexivity.
Qed.

(** X8.  A counter follows its own increments.  After any sequence of
    calls, a counter reads what is obtained from its earlier reading by
    going through the calls in order: each collected [increment] that
    addresses its key adds its value to the reading, each [reset] puts it
    to zero, and no other call (another key, a metric that is not
    collected, a gauge) changes it.  The additions are those of the calls,
    in their order. *)
Theorem counter_follows_its_increments
        (self : t) (cs : list Call) (metric : string) (labels : Labels) :
  get_counter metric labels (run cs self)
  = fold_left (counter_after self (_make_key metric labels)) cs
              (get_counter metric labels self).
Proof.
  unfold get_counter. revert self. induction cs as [|c cs IH]; intros self; [reflexivity|].
  change (run (c :: cs) self) with (run cs (step c self)).
  rewrite IH, fold_counter_after, step_counter. reflexivity.
Qed.

Example counter_follows_its_increments_run :
  get_counter "requests" None
    (run [Increment "requests" 1 None; Increment "mcp.sql.generated" 7 None;
          SetGauge "requests" 9 None; Increment "requests" (5 # 2) None]
         (init true true false true))
  = (0 + 1 + (5 # 2))%Q.
Proof. vm_compute. reflexivity. Qed.

Lemma step_gauge_untouched (c : Call) (self : t) (key : string) :
  touches_gauge self key c = false -> _gauges (step c self) !! key = _gauges self !! key.
Proof.
  intros Ht. destruct c as [m v l|m v l|]; simpl in *; [| |discriminate].
  - unfold increment. destruct (negb (_should_collect self m)); reflexivity.
  - unfold set_gauge. destruct (_should_collect self m); simpl in *; [|reflexivity].
    destruct (String.eqb_spec (_make_key m l) key) as [->|Hne]; [discriminate|].
    apply lookup_insert_ne. exact Hne.
Qed.

Lemma step_touches_gauge (c c' : Call) (self : t) (key : string) :
  touches_gauge (step c self) key c' = touches_gauge self key c'.
Proof.
  destruct c' as [m v l|m v l|]; simpl; [reflexivity| |reflexivity].
  rewrite step_should_collect. reflexivity.
Qed.

Lemma run_gauge_untouched (cs : list Call) (self : t) (key : string) :
  forallb (fun c => negb (touches_gauge self key c)) cs = true ->
  _gauges (run cs self) !! key = _gauges self !! key.
Proof.
  revert self. induction cs as [|c cs IH]; intros self Hcs; [reflexivity|].
  simpl in Hcs. apply andb_true_iff in Hcs as [Hc Hcs]. apply negb_true_iff in Hc.
  change (run (c :: cs) self) with (run cs (step c self)).
  rewrite IH, (step_gauge_untouched c self key Hc); [reflexivity|].
  apply forallb_forall. intros c' Hc'. rewrite step_touches_gauge.
  apply (proj1 (forallb_forall _ _) Hcs c' Hc').
Qed.

Lemma run_should_collect (cs : list Call) (self : t) (metric : string) :
  _should_collect (run cs self) metric = _should_collect self metric.
Proof.
  revert self. induction cs as [|c cs IH]; intros self; [reflexivity|].
  change (run (c :: cs) self) with (run cs (step c self)).
  rewrite IH. apply step_should_collect.
Qed.

(** X9.  Gauges are last-writer-wins.  A gauge reads the value of the last
    collected [set_gauge] on its key: whatever calls came before it, and
    whatever calls came after that neither set this gauge nor reset the
    collector. *)
Theorem gauge_last_writer_wins
        (self : t) (before after : list Call) (metric : string) (value : Q)
        (labels : Labels) :
  _should_collect self metric = true ->
  forallb (fun c => negb (touches_gauge self (_make_key metric labels) c)) after = true ->
  get_gauge metric labels (run (before ++ SetGauge metric value labels :: after) self)
  = Some value.
Proof.
  intros Hcollect Hafter. unfold get_gauge, run. rewrite fold_left_app. simpl.
  fold (run before self). set (s1 := run before self).
  fold (run after (set_gauge metric value labels s1)).
  assert (Hc1 : _should_collect s1 metric = true)
    by (unfold s1; rewrite run_should_collect; exact Hcollect).
  rewrite run_gauge_untouched.
  - unfold set_gauge. rewrite Hc1. simpl. apply lookup_insert_eq.
  - apply forallb_forall. intros c Hc.
    pose proof (proj1 (forallb_forall _ _) Hafter c Hc) as Hn.
    destruct c as [m v l|m v l|]; simpl in *; [reflexivity| |exact Hn].
    assert (Hsc : _should_collect (set_gauge metric value labels s1) m
                  = _should_collect self m).
    { change (set_gauge metric value labels s1)
        with (step (SetGauge metric value labels) s1).
      rewrite step_should_collect. unfold s1. apply run_should_collect. }
    rewrite Hsc. exact Hn.
Qed.

Lemma gauge_last_writer_wins_witness :
  get_gauge "mcp.db.connections" None
    (run ([SetGauge "mcp.db.connections" 3 None]
          ++ SetGauge "mcp.db.connections" 5 None
             :: [Increment "mcp.db.connections" 1 None; SetGauge "other" 9 None])
         (init true true true true))
  = Some 5%Q.
Proof.
  exact (gauge_last_writer_wins (init true true true true)
           [SetGauge "mcp.db.connections" 3 None]
           [Increment "mcp.db.connections" 1 None; SetGauge "other" 9 None]
           "mcp.db.connections" 5 None eq_refl eq_refl).
Defined.

Lemma string_compare_refl (a : string) : String.compare a a = Eq.
Proof.
  pose proof (String.compare_antisym a a) as H.
  destruct (String.compare a a); [reflexivity | discriminate H | discriminate H].
Qed.

Lemma item_leb_spec (a b : string * string) :
  item_leb a b = true
  <-> (String.leb (fst a) (fst b) = true /\ fst a <> fst b)
      \/ (fst a = fst b /\ String.leb (snd a) (snd b) = true).
Proof.
  unfold item_leb, String.leb.
  destruct (String.compare (fst a) (fst b)) eqn:Hc.
  - apply String.compare_eq_iff in Hc. split; [auto|].
    intros [[_ Hne]|[_ H]]; [contradiction|exact H].
  - split; [|reflexivity]. intros _. left. split; [reflexivity|].
    intros Heq. rewrite Heq, string_compare_refl in Hc. discriminate Hc.
  - split; [discriminate|]. intros [[H _]|[Heq _]]; [discriminate|].
    rewrite Heq, string_compare_refl in Hc. discriminate Hc.
Qed.

Lemma string_leb_trans (a b c : string) :
  String.leb a b = true -> String.leb b c = true -> String.leb a c = true.
Proof.
  intros H1 H2. apply Is_true_true.
  apply (@transitivity _ String.le _ a b c); apply Is_true_true; assumption.
Qed.

Lemma item_leb_total (a b : string * string) : item_leb a b = true \/ item_leb b a = true.
Proof.
  rewrite !item_leb_spec.
  destruct (String.eqb_spec (fst a) (fst b)) as [Heq|Hne].
  - destruct (String.leb_total (snd a) (snd b)); [left; right; auto | right; right; auto].
  - destruct (String.leb_total (fst a) (fst b)); [left; left; auto | right; left; auto].
Qed.

Lemma item_leb_antisym (a b : string * string) :
  item_leb a b = true -> item_leb b a = true -> a = b.
Proof.
  rewrite !item_leb_spec. destruct a as [ka va], b as [kb vb]; simpl.
  intros [[H1 Hne]|[Heq H1]] [[H2 Hne']|[Heq' H2]]; try congruence.
  - exfalso. apply Hne. apply String.leb_antisym; assumption.
  - subst. f_equal. apply String.leb_antisym; assumption.
Qed.

Lemma item_leb_trans (a b c : string * string) :
  item_leb a b = true -> item_leb b c = true -> item_leb a c = true.
Proof.
  rewrite !item_leb_spec. destruct a as [ka va], b as [kb vb], c as [kc vc]; simpl.
  intros [[H1 Hne1]|[Heq1 H1]] [[H2 Hne2]|[Heq2 H2]]; subst.
  - left. split; [eapply string_leb_trans; eauto|].
    intros ->. apply Hne1. apply String.leb_antisym; assumption.
  - left. auto.
  - left. auto.
  - right. split; [reflexivity | eapply string_leb_trans; eauto].
Qed.

Lemma insert_item_comm (x y : string * string) (l : list (string * string)) :
  insert_item x (insert_item y l) = insert_item y (insert_item x l).
Proof.
  induction l as [|z l IH]; simpl.
  - destruct (item_leb x y) eqn:Hxy, (item_leb y x) eqn:Hyx; try reflexivity.
    + rewrite (item_leb_antisym x y Hxy Hyx). reflexivity.
    + destruct (item_leb_total x y); congruence.
  - destruct (item_leb y z) eqn:Hyz, (item_leb x z) eqn:Hxz; simpl.
    + destruct (item_leb x y) eqn:Hxy, (item_leb y x) eqn:Hyx; simpl;
        rewrite ?Hyz, ?Hxz; try reflexivity.
      * rewrite (item_leb_antisym x y Hxy Hyx). reflexivity.
      * destruct (item_leb_total x y); congruence.
    + destruct (item_leb x y) eqn:Hxy.
      * rewrite (item_leb_trans x y z Hxy Hyz) in Hxz. discriminate.
      * simpl. rewrite Hxz, Hyz. reflexivity.
    + destruct (item_leb y x) eqn:Hyx.
      * rewrite (item_leb_trans y x z Hyx Hxz) in Hyz. discriminate.
      * simpl. rewrite Hxz, Hyz. reflexivity.
    + rewrite Hxz, Hyz. rewrite IH. reflexivity.
Qed.

Lemma sorted_perm (items items' : list (string * string)) :
  Permutation items items' -> sorted items = sorted items'.
Proof.
  induction 1 as [|x l l' _ IH|x y l|l1 l2 l3 _ IH1 _ IH2]; simpl.
  - reflexivity.
  - rewrite IH. reflexivity.
  - apply insert_item_comm.
  - congruence.
Qed.

(** X10.  The key of a metric does not depend on the order in which the
    labels were given: two label dictionaries with the same items yield the
    same key.  Without labels, and with an empty dictionary, the key is the
    metric name. *)
Theorem make_key_ignores_label_order
        (metric : string) (items items' : list (string * string)) :
  Permutation items items' ->
  _make_key metric (Some items) = _make_key metric (Some items')
  /\ _make_key metric None = metric
  /\ _make_key metric (Some []) = metric.
Proof.
  intros Hperm. split; [|split; reflexivity].
  destruct items as [|i items], items' as [|i' items'].
  - reflexivity.
  - apply Permutation_nil in Hperm. discriminate.
  - apply Permutation_sym, Permutation_nil in Hperm. discriminate.
  - unfold _make_key. rewrite (sorted_perm _ _ Hperm). reflexivity.
Qed.

Lemma make_key_ignores_label_order_witness :
  _make_key "requests" (Some [("db", "db1"); ("app", "x"); ("zone", "a")])
  = _make_key "requests" (Some [("zone", "a"); ("db", "db1"); ("app", "x")])
  /\ _make_key "requests" None = "requests"
  /\ _make_key "requests" (Some []) = "requests".
Proof.
  apply (make_key_ignores_label_order "requests"
           [("db", "db1"); ("app", "x"); ("zone", "a")]
           [("zone", "a"); ("db", "db1"); ("app", "x")]).
  change [("db", "db1"); ("app", "x"); ("zone", "a")]
    with ([("db", "db1"); ("app", "x")] ++ [("zone", "a")])%list.
  apply (Permutation_app_comm [("db", "db1"); ("app", "x")] [("zone", "a")]).
Defined.

End MetricsMoreProps.

(** ** Metrics collector: histograms, timers, percentiles *)

Section MetricsTablesProps.
Import Metrics MetricsTables.

Lemma lastn_short {A : Type} (n : nat) (l : list A) :
  (length l <= n)%nat -> lastn n l = l.
Proof. intros H. unfold lastn. replace (length l - n)%nat with O by lia. reflexivity. Qed.

Lemma lastn_length {A : Type} (n : nat) (l : list A) :
  length (lastn n l) = Nat.min n (length l).
Proof. unfold lastn. rewrite length_skipn. lia. Qed.

Lemma lastn_lastn_app {A : Type} (n : nat) (l l2 : list A) :
  lastn n (lastn n l ++ l2) = lastn n (l ++ l2).
Proof.
  destruct (Nat.le_gt_cases (length l) n) as [Hle|Hgt].
  - rewrite (lastn_short n l Hle). reflexivity.
  - unfold lastn at 1 3. rewrite !length_app.
    fold (lastn n l). rewrite lastn_length.
    replace (Nat.min n (length l) + length l2 - n)%nat with (length l2) by lia.
    replace (length l + length l2 - n)%nat with (length l2 + (length l - n))%nat by lia.
    rewrite <- skipn_skipn. f_equal.
    rewrite skipn_app. replace (length l - n - length l)%nat with O by lia.
    reflexivity.
Qed.

Lemma lastn_map {A B : Type} (f : A -> B) (n : nat) (l : list A) :
  map f (lastn n l) = lastn n (map f l).
Proof. unfold lastn. rewrite length_map. symmetry. apply skipn_map. Qed.

Lemma record_histogram_stored (metric : string) (v : Q) (labels_ : Labels) (self : t) :
  _should_collect (base self) metric = true ->
  stored metric labels_ (record_histogram metric v labels_ self)
  = lastn 1000 (stored metric labels_ self ++ [v]).
Proof.
  intros Hc. unfold stored, record_histogram. rewrite Hc. simpl.
  rewrite lookup_insert_eq. simpl.
  set (appended := (default [] (_histograms self !! _make_key metric labels_)
                    ++ [{| value := v; labels := default [] labels_ |}])%list).
  assert (Hkept : (if (1000 <? length appended)%nat then lastn 1000 appended else appended)
                  = lastn 1000 appended).
  { destruct (1000 <? length appended)%nat eqn:Hlen; [reflexivity|].
    apply Nat.ltb_ge in Hlen. symmetry. apply lastn_short. exact Hlen. }
  rewrite Hkept, lastn_map. unfold appended. rewrite map_app. reflexivity.
Qed.

Lemma record_histogram_base (metric : string) (v : Q) (labels_ : Labels) (self : t) :
  base (record_histogram metric v labels_ self) = base self.
Proof. unfold record_histogram. destruct (negb _); reflexivity. Qed.

(** X11.  A histogram keeps the most recent 1000 samples.  After recording
    values for a collected metric, the values stored under its key are the
    last 1000 of the earlier ones followed by the new ones, in order; so
    1500 samples on a new collector leave exactly the last 1000. *)
Theorem histogram_keeps_last_1000
        (metric : string) (labels_ : Labels) (values : list Q) (self : t) :
  _should_collect (base self) metric = true ->
  (length (stored metric labels_ self) <= 1000)%nat ->
  stored metric labels_ (record_histograms metric labels_ values self)
  = lastn 1000 (stored metric labels_ self ++ values)
  /\ length (stored metric labels_ (record_histograms metric labels_ values self))
     = Nat.min 1000 (length (stored metric labels_ self) + length values).
Proof.
  intros Hc Hlen.
  assert (Hmain : stored metric labels_ (record_histograms metric labels_ values self)
                  = lastn 1000 (stored metric labels_ self ++ values)).
  { revert self Hc Hlen. induction values as [|v values IH]; intros self Hc Hlen.
    - simpl. rewrite app_nil_r. symmetry. apply lastn_short. exact Hlen.
    - simpl. rewrite IH.
      + rewrite (record_histogram_stored metric v labels_ self Hc).
        rewrite lastn_lastn_app, <- app_assoc. reflexivity.
      + rewrite record_histogram_base. exact Hc.
      + rewrite (record_histogram_stored metric v labels_ self Hc), lastn_length. lia. }
  split; [exact Hmain|]. rewrite Hmain, lastn_length, length_app. reflexivity.
Qed.

Lemma histogram_keeps_last_1000_witness :
  let values := map (fun n => inject_Z (Z.of_nat n)) (seq 0 1500) in
  let self := MetricsTables.init true true true true in
  stored "mcp.sql.execution.rows" None
         (record_histograms "mcp.sql.execution.rows" None values self)
  = lastn 1000 (stored "mcp.sql.execution.rows" None self ++ values)
  /\ length (stored "mcp.sql.execution.rows" None
                    (record_histograms "mcp.sql.execution.rows" None values self))
     = Nat.min 1000 (length (stored "mcp.sql.execution.rows" None self) + length values).
Proof.
  apply (histogram_keeps_last_1000 "mcp.sql.execution.rows" None
           (map (fun n => inject_Z (Z.of_nat n)) (seq 0 1500))
           (MetricsTables.init true true true true) eq_refl).
  unfold stored, MetricsTables.init. simpl _histograms. rewrite lookup_empty.
  simpl. lia.
Defined.

Lemma minimum_spec (l : list Q) :
  forall x, In (minimum x l) (x :: l) /\ forall y, In y (x :: l) -> (minimum x l <= y)%Q.
Proof.
  unfold minimum. induction l as [|z l IH]; intros x; simpl.
  - split; [left; reflexivity|]. intros y [<-|[]]. apply Qle_refl.
  - destruct (IH (py_min2 x z)) as [Hin Hle]. split.
    + destruct Hin as [Heq|Hin]; [|right; right; exact Hin].
      rewrite <- Heq. unfold py_min2. destruct (Qgtb x z); [right; left|left]; reflexivity.
    + assert (Hx : (py_min2 x z <= x)%Q /\ (py_min2 x z <= z)%Q).
      { unfold py_min2. destruct (Qgtb x z) eqn:Hg.
        - apply Qgtb_lt in Hg. split; [apply Qlt_le_weak; exact Hg | apply Qle_refl].
        - split; [apply Qle_refl|]. destruct (Qlt_le_dec z x) as [Hlt|Hle']; [|exact Hle'].
          apply Qgtb_lt in Hlt. congruence. }
      intros y [<-|[<-|Hy]].
      * eapply Qle_trans; [apply Hle; left; reflexivity | apply Hx].
      * eapply Qle_trans; [apply Hle; left; reflexivity | apply Hx].
      * apply Hle. right. exact Hy.
Qed.

Lemma maximum_spec (l : list Q) :
  forall x, In (maximum x l) (x :: l) /\ forall y, In y (x :: l) -> (y <= maximum x l)%Q.
Proof.
  unfold maximum. induction l as [|z l IH]; intros x; simpl.
  - split; [left; reflexivity|]. intros y [<-|[]]. apply Qle_refl.
  - destruct (IH (py_max2 x z)) as [Hin Hle]. split.
    + destruct Hin as [Heq|Hin]; [|right; right; exact Hin].
      rewrite <- Heq. unfold py_max2. destruct (Qgtb z x); [right; left|left]; reflexivity.
    + assert (Hx : (x <= py_max2 x z)%Q /\ (z <= py_max2 x z)%Q).
      { unfold py_max2. destruct (Qgtb z x) eqn:Hg.
        - apply Qgtb_lt in Hg. split; [apply Qlt_le_weak; exact Hg | apply Qle_refl].
        - split; [apply Qle_refl|]. destruct (Qlt_le_dec x z) as [Hlt|Hle']; [|exact Hle'].
          apply Qgtb_lt in Hlt. congruence. }
      intros y [<-|[<-|Hy]].
      * eapply Qle_trans; [apply Hx | apply Hle; left; reflexivity].
      * eapply Qle_trans; [apply Hx | apply Hle; left; reflexivity].
      * apply Hle. right. exact Hy.
Qed.

Lemma update_fold (ds : list Q) :
  forall st,
    count (fold_left update ds st) = count st + Z.of_nat (length ds)
    /\ total (fold_left update ds st) = fold_left Qplus ds (total st)
    /\ (forall m, min st = Some m -> min (fold_left update ds st) = Some (minimum m ds))
    /\ (forall m, max st = Some m -> max (fold_left update ds st) = Some (maximum m ds)).
Proof.
  induction ds as [|d ds IH]; intros st.
  - simpl. repeat split; auto; lia.
  - simpl fold_left. destruct (IH (update st d)) as (Hc & Ht & Hmin & Hmax).
    repeat split.
    + rewrite Hc. simpl. lia.
    + rewrite Ht. reflexivity.
    + intros m Hm. rewrite (Hmin (py_min2 m d)); [reflexivity|]. simpl. rewrite Hm. reflexivity.
    + intros m Hm. rewrite (Hmax (py_max2 m d)); [reflexivity|]. simpl. rewrite Hm. reflexivity.
Qed.

Lemma update_fold_avg (ds : list Q) (st : MetricStats) :
  ds <> [] ->
  avg (fold_left update ds st)
  = (total (fold_left update ds st) / inject_Z (count (fold_left update ds st)))%Q.
Proof.
  intros Hne. destruct ds as [|d ds] using rev_ind; [contradiction|].
  rewrite fold_left_app. reflexivity.
Qed.

Lemma record_timers_lookup (metric : string) (labels_ : Labels) (ds : list Q) :
  forall self,
    _should_collect (base self) metric = true ->
    ds <> [] ->
    _timers (record_timers metric labels_ ds self) !! _make_key metric labels_
    = Some (fold_left update ds
              (default new_stats (_timers self !! _make_key metric labels_))).
Proof.
  induction ds as [|d ds IH]; intros self Hc Hne; [contradiction|].
  simpl.
  assert (Hstep : _timers (record_timer metric d labels_ self) !! _make_key metric labels_
                  = Some (update (default new_stats
                                          (_timers self !! _make_key metric labels_)) d)).
  { unfold record_timer. rewrite Hc. simpl. apply lookup_insert_eq. }
  assert (Hc' : _should_collect (base (record_timer metric d labels_ self)) metric = true).
  { unfold record_timer. rewrite Hc. simpl. exact Hc. }
  destruct ds as [|d' ds'].
  - simpl. exact Hstep.
  - change (fold_left (fun s d0 => record_timer metric d0 labels_ s) (d' :: ds')
                      (record_timer metric d labels_ self))
      with (record_timers metric labels_ (d' :: ds') (record_timer metric d labels_ self)).
    rewrite (IH _ Hc' ltac:(discriminate)), Hstep. reflexivity.
Qed.

(** X12.  Timer statistics are running aggregates.  After recording the
    durations [d0 :: rest] for a collected timer that had no record, the
    statistics read back are: the number of durations, the total obtained
    by adding them one after the other, in the order recorded, starting
    from zero, the smallest and the largest of them, and that total
    divided by the number.  The smallest and the largest are durations
    that were recorded and bound every one of them.  (Nothing is said of
    where the quotient lies.)  A timer that was never recorded reads
    [None]. *)
Theorem timer_stats_are_aggregates
        (metric : string) (labels_ : Labels) (d0 : Q) (rest : list Q) (self : t) :
  _should_collect (base self) metric = true ->
  _timers self !! _make_key metric labels_ = None ->
  get_timer_stats metric labels_ self = None
  /\ get_timer_stats metric labels_ (record_timers metric labels_ (d0 :: rest) self)
     = Some {| count := Z.of_nat (length (d0 :: rest));
               total := fold_left Qplus (d0 :: rest) 0%Q;
               min := Some (minimum d0 rest);
               max := Some (maximum d0 rest);
               avg := (fold_left Qplus (d0 :: rest) 0%Q
                       / inject_Z (Z.of_nat (length (d0 :: rest))))%Q |}
  /\ In (minimum d0 rest) (d0 :: rest)
  /\ In (maximum d0 rest) (d0 :: rest)
  /\ (forall d, In d (d0 :: rest) -> (minimum d0 rest <= d <= maximum d0 rest)%Q).
Proof.
  intros Hc Hnone.
  destruct (minimum_spec rest d0) as [Hmin_in Hmin_le].
  destruct (maximum_spec rest d0) as [Hmax_in Hmax_le].
  split; [unfold get_timer_stats; rewrite Hnone; reflexivity|].
  split.
  - unfold get_timer_stats.
    rewrite (record_timers_lookup metric labels_ (d0 :: rest) self Hc ltac:(discriminate)).
    rewrite Hnone. simpl default.
    set (st := fold_left update (d0 :: rest) new_stats).
    pose proof (update_fold_avg (d0 :: rest) new_stats ltac:(discriminate)) as Havg.
    fold st in Havg.
    assert (Hfields : count st = Z.of_nat (length (d0 :: rest))
                      /\ total st = sum (d0 :: rest)
                      /\ min st = Some (minimum d0 rest)
                      /\ max st = Some (maximum d0 rest)).
    { unfold st. simpl fold_left.
      destruct (update_fold rest (update new_stats d0)) as (H1 & H2 & H3 & H4).
      rewrite H1, H2, (H3 d0 eq_refl), (H4 d0 eq_refl).
      repeat split. simpl. lia. }
    destruct Hfields as (H1 & H2 & H3 & H4).
    assert (Hnz : (count st =? 0) = false).
    { apply Z.eqb_neq. rewrite H1. simpl. lia. }
    rewrite Hnz. f_equal.
    destruct st as [c t0 mn mx av]. simpl in *. subst. reflexivity.
  - split; [exact Hmin_in|]. split; [exact Hmax_in|].
    intros d Hd. split; [apply Hmin_le | apply Hmax_le]; exact Hd.
Qed.

Lemma timer_stats_are_aggregates_witness :
  let self := MetricsTables.init true true true true in
  get_timer_stats "mcp.query.duration_ms" None
    (record_timers "mcp.query.duration_ms" None [30; 10; 20]%Q self)
  = Some {| count := 3; total := (0 + 30 + 10 + 20)%Q;
            min := Some 10%Q; max := Some 30%Q;
            avg := ((0 + 30 + 10 + 20) / inject_Z 3)%Q |}.
Proof.
  exact (proj1 (proj2 (timer_stats_are_aggregates "mcp.query.duration_ms" None
                         30 [10; 20]%Q (MetricsTables.init true true true true)
                         eq_refl (lookup_empty _)))).
Defined.

Lemma insert_value_perm (x : Q) (l : list Q) : Permutation (insert_value x l) (x :: l).
Proof.
  induction l as [|y l IH]; simpl; [reflexivity|].
  destruct (Qle_bool x y); [reflexivity|].
  rewrite IH. apply perm_swap.
Qed.

Lemma sorted_values_perm (l : list Q) : Permutation (sorted_values l) l.
Proof.
  unfold sorted_values. induction l as [|x l IH]; simpl; [reflexivity|].
  rewrite insert_value_perm. constructor. exact IH.
Qed.

Lemma insert_value_sorted (x : Q) (l : list Q) :
  StronglySorted Qle l -> StronglySorted Qle (insert_value x l).
Proof.
  induction l as [|y l IH]; intros Hs; simpl.
  - constructor; constructor.
  - inversion Hs as [|? ? Hs' Hall]; subst.
    destruct (Qle_bool x y) eqn:Hxy.
    + apply Qle_bool_iff in Hxy. constructor; [exact Hs|].
      constructor; [exact Hxy|].
      eapply List.Forall_impl; [|exact Hall]. intros z Hz. eapply Qle_trans; eassumption.
    + assert (Hyx : (y <= x)%Q).
      { destruct (Qlt_le_dec y x) as [Hlt|Hle]; [apply Qlt_le_weak; exact Hlt|].
        apply Qle_bool_iff in Hle. congruence. }
      constructor; [apply IH; exact Hs'|].
      apply List.Forall_forall. intros z Hz.
      apply (Permutation_in _ (insert_value_perm x l)) in Hz.
      destruct Hz as [<-|Hz]; [exact Hyx|].
      rewrite List.Forall_forall in Hall. apply Hall. exact Hz.
Qed.

Lemma sorted_values_sorted (l : list Q) : StronglySorted Qle (sorted_values l).
Proof.
  unfold sorted_values. induction l as [|x l IH]; simpl; [constructor|].
  apply insert_value_sorted. exact IH.
Qed.

Lemma sorted_nth_le (l : list Q) :
  StronglySorted Qle l ->
  forall i j x y, (i <= j)%nat -> nth_error l i = Some x -> nth_error l j = Some y ->
                  (x <= y)%Q.
Proof.
  induction 1 as [|a l Hs IH Hall]; intros i j x y Hij Hi Hj.
  - destruct i; discriminate.
  - destruct i as [|i], j as [|j]; simpl in Hi, Hj.
    + injection Hi as <-. injection Hj as <-. apply Qle_refl.
    + injection Hi as <-. rewrite List.Forall_forall in Hall. apply Hall.
      eapply nth_error_In. exact Hj.
    + lia.
    + apply (IH i j); [lia | exact Hi | exact Hj].
Qed.

Lemma percentile_rank (values : list Q) (percentile : Z) :
  values <> [] -> 0 <= percentile ->
  exists x,
    _percentile values percentile = Return x
    /\ nth_error (sorted_values values)
         (Z.to_nat (Z.min (Z.quot (Z.of_nat (length values) * percentile) 100)
                          (Z.of_nat (length values) - 1)))
       = Some x.
Proof.
  intros Hne Hp.
  assert (Hlen : length (sorted_values values) = length values)
    by (apply Permutation_length, sorted_values_perm).
  assert (Hpos : (0 < length values)%nat) by (destruct values; [contradiction | simpl; lia]).
  set (k := Z.min (Z.quot (Z.of_nat (length values) * percentile) 100)
                  (Z.of_nat (length values) - 1)).
  assert (Hk : 0 <= k < Z.of_nat (length values)).
  { unfold k. split; [|lia]. apply Z.min_glb; [|lia]. apply Z.quot_pos; lia. }
  destruct (nth_error (sorted_values values) (Z.to_nat k)) as [x|] eqn:Hnth.
  - exists x. split; [|reflexivity].
    unfold _percentile. destruct values as [|v0 rest]; [contradiction|].
    cbv zeta. rewrite Hlen. fold k. unfold index.
    replace (k <? 0) with false by (symmetry; apply Z.ltb_ge; lia).
    replace (k <? 0) with false by (symmetry; apply Z.ltb_ge; lia).
    rewrite Hnth. reflexivity.
  - apply nth_error_None in Hnth. lia.
Qed.

Lemma percentile_order (values : list Q) (p q : Z) :
  values <> [] -> 0 <= p <= q ->
  exists a b,
    _percentile values p = Return a /\ _percentile values q = Return b
    /\ In a values /\ In b values /\ (a <= b)%Q.
Proof.
  intros Hne [Hp Hpq].
  destruct (percentile_rank values p Hne Hp) as (a & Ha & Hna).
  destruct (percentile_rank values q Hne ltac:(lia)) as (b & Hb & Hnb).
  exists a, b. split; [exact Ha|]. split; [exact Hb|].
  split; [|split].
  - eapply Permutation_in; [apply sorted_values_perm | eapply nth_error_In; exact Hna].
  - eapply Permutation_in; [apply sorted_values_perm | eapply nth_error_In; exact Hnb].
  - eapply (sorted_nth_le _ (sorted_values_sorted values)); [|exact Hna|exact Hnb].
    apply Z2Nat.inj_le.
    + apply Z.min_glb; [apply Z.quot_pos; [apply Z.mul_nonneg_nonneg|]; lia|].
      destruct values; [contradiction|simpl length; lia].
    + apply Z.min_glb; [apply Z.quot_pos; [apply Z.mul_nonneg_nonneg|]; lia|].
      destruct values; [contradiction|simpl length; lia].
    + apply Z.min_le_compat_r. apply Z.quot_le_mono; [lia|].
      apply Z.mul_le_mono_nonneg_l; lia.
Qed.

Lemma percentile_extremes (v0 : Q) (rest : list Q) (p : Z) :
  0 <= p ->
  exists a,
    _percentile (v0 :: rest) p = Return a
    /\ (minimum v0 rest <= a <= maximum v0 rest)%Q
    /\ (p = 0 -> (a == minimum v0 rest)%Q)
    /\ (100 <= p -> (a == maximum v0 rest)%Q).
Proof.
  intros Hp.
  destruct (minimum_spec rest v0) as [Hmin_in Hmin_le].
  destruct (maximum_spec rest v0) as [Hmax_in Hmax_le].
  destruct (percentile_rank (v0 :: rest) p ltac:(discriminate) Hp) as (a & Ha & Hna).
  assert (Hperm := sorted_values_perm (v0 :: rest)).
  assert (Hin : In a (v0 :: rest))
    by (eapply Permutation_in; [exact Hperm | eapply nth_error_In; exact Hna]).
  assert (Hlen : length (sorted_values (v0 :: rest)) = length (v0 :: rest))
    by (apply Permutation_length; exact Hperm).
  exists a. split; [exact Ha|]. split; [split; [apply Hmin_le | apply Hmax_le]; exact Hin|].
  split.
  - intros ->. apply Qle_antisym; [|apply Hmin_le; exact Hin].
    rewrite Z.mul_0_r in Hna. change (Z.quot 0 100) with 0 in Hna.
    rewrite Z.min_l in Hna by (simpl length; lia). change (Z.to_nat 0) with 0%nat in Hna.
    apply (Permutation_in _ (Permutation_sym Hperm)) in Hmin_in.
    apply In_nth_error in Hmin_in. destruct Hmin_in as [j Hj].
    apply (sorted_nth_le _ (sorted_values_sorted (v0 :: rest)) 0%nat j); [lia|exact Hna|exact Hj].
  - intros H100. apply Qle_antisym; [apply Hmax_le; exact Hin|].
    assert (Hq : Z.of_nat (length (v0 :: rest))
                 <= Z.quot (Z.of_nat (length (v0 :: rest)) * p) 100).
    { apply Z.quot_le_lower_bound; [lia|]. rewrite Z.mul_comm.
      apply Z.mul_le_mono_nonneg_l; lia. }
    rewrite Z.min_r in Hna by lia.
    apply (Permutation_in _ (Permutation_sym Hperm)) in Hmax_in.
    apply In_nth_error in Hmax_in. destruct Hmax_in as [j Hj].
    assert (Hjlt : (j < length (sorted_values (v0 :: rest)))%nat)
      by (apply nth_error_Some; rewrite Hj; discriminate).
    apply (sorted_nth_le _ (sorted_values_sorted (v0 :: rest)) j
                         (Z.to_nat (Z.of_nat (length (v0 :: rest)) - 1)));
      [lia | exact Hj | exact Hna].
Qed.



(** X14.  Histogram statistics.  With stored values [v0 :: rest],
    [get_histogram_stats] returns (it never raises) the number of values,
    their smallest and largest, and percentiles with
    [min <= p50 <= p95 <= p99 <= max].  (Nothing is said of the
    average.) *)
Theorem histogram_stats_ordered
        (metric : string) (labels_ : Labels) (self : t) (v0 : Q) (rest : list Q) :
  stored metric labels_ self = v0 :: rest ->
  exists st,
    get_histogram_stats metric labels_ self = Return (Some st)
    /\ h_count st = Z.of_nat (length (v0 :: rest))
    /\ h_min st = minimum v0 rest /\ h_max st = maximum v0 rest
    /\ (h_min st <= p50 st)%Q /\ (p50 st <= p95 st)%Q /\ (p95 st <= p99 st)%Q
    /\ (p99 st <= h_max st)%Q.
Proof.
  intros Hst. unfold stored in Hst. unfold get_histogram_stats. rewrite Hst.
  destruct (percentile_order (v0 :: rest) 50 95 ltac:(discriminate) ltac:(lia))
    as (a & b & Ha & Hb & _ & _ & Hab).
  destruct (percentile_order (v0 :: rest) 95 99 ltac:(discriminate) ltac:(lia))
    as (b' & c & Hb' & Hc & _ & _ & Hbc).
  assert (b' = b) by congruence. subst b'.
  destruct (percentile_extremes v0 rest 50 ltac:(lia)) as (a' & Ha' & [Hlo _] & _).
  destruct (percentile_extremes v0 rest 99 ltac:(lia)) as (c' & Hc' & [_ Hhi] & _).
  assert (a' = a) by congruence. assert (c' = c) by congruence. subst a' c'.
  rewrite Ha, Hb, Hc. simpl bind.
  eexists. split; [reflexivity|].
  cbn [h_count h_min h_max h_avg p50 p95 p99].
  split; [reflexivity|]. split; [reflexivity|]. split; [reflexivity|].
  split; [exact Hlo|]. split; [exact Hab|]. split; [exact Hbc|]. exact Hhi.
Qed.

Lemma histogram_stats_ordered_witness :
  exists st,
    get_histogram_stats "mcp.query.rows" None
      (record_histograms "mcp.query.rows" None [30; 10; 20]%Q
         (MetricsTables.init true true true true)) = Return (Some st)
    /\ h_count st = 3
    /\ h_min st = minimum 30 [10; 20]%Q /\ h_max st = maximum 30 [10; 20]%Q
    /\ (h_min st <= p50 st)%Q /\ (p50 st <= p95 st)%Q /\ (p95 st <= p99 st)%Q
    /\ (p99 st <= h_max st)%Q.
Proof.
  apply (histogram_stats_ordered "mcp.query.rows" None
           (record_histograms "mcp.query.rows" None [30; 10; 20]%Q
              (MetricsTables.init true true true true)) 30 [10; 20]%Q).
  reflexivity.
Defined.

End MetricsTablesProps.


(** ** SQL validator: what is accepted *)

Section SQLValidatorMoreProps.
Import Sqlglot SQLValidator.







End SQLValidatorMoreProps.


(** ** Access-control rewriter: columns, names, row filters that do not parse *)

Section RewriterMoreProps.
Import Sqlglot Security SQLAccessControlRewriter.

Lemma column_step_app (policy : DatabaseAccessPolicy) (parsed : Expression)
      (blocked : list string) (col_node : Expression) :
  column_step policy parsed blocked col_node
  = (blocked ++ column_step policy parsed [] col_node)%list.
Proof.
  unfold column_step.
  destruct (_get_table_for_column col_node parsed) as [tn|]; [|rewrite app_nil_r; reflexivity].
  destruct (nonempty_str tn); [|rewrite app_nil_r; reflexivity].
  destruct (_split_table_name tn) as [s t].
  destruct (str_in _ _); [reflexivity|].
  destruct (get_allowed_columns policy s t) as [allowed|]; [|rewrite app_nil_r; reflexivity].
  destruct (nonempty allowed && negb (str_in (name col_node) allowed));
    [reflexivity | rewrite app_nil_r; reflexivity].
Qed.

Lemma column_loop (policy : DatabaseAccessPolicy) (parsed : Expression)
      (cols : list Expression) (blocked : list string) :
  fold_left (column_step policy parsed) cols blocked
  = (blocked ++ flat_map (column_step policy parsed []) cols)%list.
Proof.
  revert blocked. induction cols as [|c cols IH]; intros blocked; simpl.
  - rewrite app_nil_r. reflexivity.
  - rewrite IH, column_step_app, <- app_assoc. reflexivity.
Qed.

Lemma column_step_verdict (policy : DatabaseAccessPolicy) (parsed col_node : Expression)
      (entry : string) :
  In entry (column_step policy parsed [] col_node) <->
  exists table_name,
    _get_table_for_column col_node parsed = Some table_name
    /\ table_name <> ""
    /\ entry = fst (_split_table_name table_name) +:+ "."
               +:+ snd (_split_table_name table_name) +:+ "." +:+ name col_node
    /\ (In (name col_node)
           (get_denied_columns policy (fst (_split_table_name table_name))
                               (snd (_split_table_name table_name)))
        \/ exists allowed_cols,
            get_allowed_columns policy (fst (_split_table_name table_name))
                                (snd (_split_table_name table_name)) = Some allowed_cols
            /\ allowed_cols <> []
            /\ ~ In (name col_node) allowed_cols).
Proof.
  unfold column_step.
  destruct (_get_table_for_column col_node parsed) as [tn|];
    [|split; [intros [] | intros (t & [=] & _)]].
  destruct (nonempty_str tn) eqn:Hne.
  2:{ split; [intros []|]. intros (t & [= <-] & Hn & _).
      unfold nonempty_str in Hne. apply negb_false_iff, String.eqb_eq in Hne. contradiction. }
  assert (Htn : tn <> "").
  { unfold nonempty_str in Hne. apply negb_true_iff, String.eqb_neq in Hne. exact Hne. }
  destruct (_split_table_name tn) as [s t] eqn:Hsplit. simpl fst. simpl snd.
  destruct (str_in (name col_node) (get_denied_columns policy s t)) eqn:Hden.
  - apply str_in_In in Hden. split.
    + intros [<-|[]]. exists tn. rewrite Hsplit. simpl. auto.
    + intros (tn' & [= <-] & _ & -> & _). rewrite Hsplit. left. reflexivity.
  - assert (Hnd : ~ In (name col_node) (get_denied_columns policy s t)).
    { intros Hin. apply str_in_In in Hin. congruence. }
    destruct (get_allowed_columns policy s t) as [allowed|] eqn:Hall.
    + destruct allowed as [|a0 allowed'].
      * simpl. split; [intros []|].
        intros (tn' & [= <-] & _ & _ & [Hd | (al & Hal & Hal' & _)]);
          rewrite Hsplit in *; simpl in *; [contradiction | congruence].
      * destruct (str_in (name col_node) (a0 :: allowed')) eqn:Hin; cbn [nonempty andb negb].
        -- apply str_in_In in Hin. split; [intros []|].
           intros (tn' & [= <-] & _ & _ & [Hd | (al & Hal & _ & Hnot)]);
             rewrite Hsplit in *; simpl in *; [contradiction|].
           rewrite Hall in Hal. injection Hal as <-. contradiction.
        -- split.
           ++ intros [<-|[]]. exists tn. rewrite Hsplit. simpl.
              split; [reflexivity|]. split; [exact Htn|]. split; [reflexivity|].
              right. exists (a0 :: allowed'). split; [exact Hall|]. split; [discriminate|].
              intros Hc. apply str_in_In in Hc. congruence.
           ++ intros (tn' & [= <-] & _ & -> & _). rewrite Hsplit. left. reflexivity.
    + split; [intros []|].
      intros (tn' & [= <-] & _ & _ & [Hd | (al & Hal & _)]);
        rewrite Hsplit in *; simpl in *; [contradiction | congruence].
Qed.

(** X16.  The column loop.  An entry is reported as a blocked column
    exactly when some column reference of the (rewritten) statement is
    attributed to a table name [t] -- its own qualifier, else the name of
    the first table of the statement -- and, under the schema and table
    that [_split_table_name] reads off [t], the column is on the deny list
    of the rule or the rule has a non-empty allow list that lacks it.  An
    empty allow list restricts nothing. *)
Theorem scan_blocked_columns
        (parse_one : string -> Outcome Expression) (policy : DatabaseAccessPolicy)
        (h : Heap) (entry : string) :
  In entry (snd (fst (scan parse_one policy h))) <->
  exists col_node table_name,
    In col_node (find_all is_column (snd (scan parse_one policy h)))
    /\ _get_table_for_column col_node (snd (scan parse_one policy h)) = Some table_name
    /\ table_name <> ""
    /\ entry = fst (_split_table_name table_name) +:+ "."
               +:+ snd (_split_table_name table_name) +:+ "." +:+ name col_node
    /\ (In (name col_node)
           (get_denied_columns policy (fst (_split_table_name table_name))
                               (snd (_split_table_name table_name)))
        \/ exists allowed_cols,
            get_allowed_columns policy (fst (_split_table_name table_name))
                                (snd (_split_table_name table_name)) = Some allowed_cols
            /\ allowed_cols <> []
            /\ ~ In (name col_node) allowed_cols).
Proof.
  unfold scan.
  destruct (fold_left (table_step parse_one policy) _ _) as [blocked [parsed next]].
  cbn [fst snd]. rewrite column_loop. cbn [app]. rewrite in_flat_map. split.
  - intros (col & Hcol & Hin). apply column_step_verdict in Hin as (tn & H).
    exists col, tn. split; [exact Hcol | exact H].
  - intros (col & tn & Hcol & H). exists col. split; [exact Hcol|].
    apply column_step_verdict. exists tn. exact H.
Qed.

Lemma split_dot_none (s : string) :
  split_dot s = None <-> ~ In "."%char (String.list_ascii_of_string s).
Proof.
  induction s as [|c s IH]; simpl.
  - split; [intros _ [] | reflexivity].
  - destruct (Ascii.eqb c ".") eqn:Hc.
    + apply Ascii.eqb_eq in Hc. subst c. split; [discriminate|].
      intros H. exfalso. apply H. left. reflexivity.
    + apply Ascii.eqb_neq in Hc. destruct (split_dot s) as [[a b]|].
      * split; [discriminate|]. intros H. exfalso.
        assert (Hin : In "."%char (String.list_ascii_of_string s)).
        { destruct (in_dec ascii_dec "."%char (String.list_ascii_of_string s)) as [Hi|Hni];
            [exact Hi | apply IH in Hni; discriminate]. }
        apply H. right. exact Hin.
      * split; [|reflexivity]. intros _ [Heq|Hin]; [contradiction|].
        apply (proj1 IH eq_refl). exact Hin.
Qed.

Lemma split_dot_app (a b : string) :
  split_dot a = None -> split_dot (a +:+ "." +:+ b) = Some (a, b).
Proof.
  induction a as [|c a IH]; simpl; [reflexivity|].
  destruct (Ascii.eqb c "."); [discriminate|].
  destruct (split_dot a) as [[x y]|] eqn:Ha; [discriminate|].
  intros _. rewrite (IH eq_refl). reflexivity.
Qed.

Lemma split_dot_some (s a b : string) :
  split_dot s = Some (a, b) -> s = a +:+ "." +:+ b /\ split_dot a = None.
Proof.
  revert a. induction s as [|c s IH]; intros a; simpl; [discriminate|].
  destruct (Ascii.eqb c ".") eqn:Hc.
  - apply Ascii.eqb_eq in Hc. subst c. intros [= <- <-]. split; reflexivity.
  - destruct (split_dot s) as [[x y]|]; [|discriminate].
    intros [= <- <-]. destruct (IH x eq_refl) as [-> Hx]. split; [reflexivity|].
    simpl. rewrite Hc, Hx. reflexivity.
Qed.

(** X17.  [_split_table_name] and the composition [schema.table].  A name
    built from a schema without a dot and a table splits back into the two;
    a name without a dot is a table of [public]; and whatever a dotted name
    splits into, joined by a dot, is the name again, the schema being the
    part before the first dot. *)
Theorem split_table_name_round_trip :
  (forall schema_ table_,
      ~ In "."%char (String.list_ascii_of_string schema_) ->
      _split_table_name (schema_ +:+ "." +:+ table_) = (schema_, table_))
  /\ (forall table_name,
        ~ In "."%char (String.list_ascii_of_string table_name) ->
        _split_table_name table_name = ("public", table_name))
  /\ (forall table_name,
        In "."%char (String.list_ascii_of_string table_name) ->
        table_name = fst (_split_table_name table_name) +:+ "."
                     +:+ snd (_split_table_name table_name)
        /\ ~ In "."%char (String.list_ascii_of_string (fst (_split_table_name table_name)))).
Proof.
  unfold _split_table_name. split; [|split].
  - intros s t Hs. apply split_dot_none in Hs. rewrite (split_dot_app s t Hs). reflexivity.
  - intros n Hn. apply split_dot_none in Hn. rewrite Hn. reflexivity.
  - intros n Hn. destruct (split_dot n) as [[a b]|] eqn:Hsplit.
    + apply split_dot_some in Hsplit as [-> Ha]. simpl. split; [reflexivity|].
      apply split_dot_none. exact Ha.
    + exfalso. apply (proj1 (split_dot_none n) Hsplit). exact Hn.
Qed.

Lemma apply_row_filter_raise
      (parse_one : string -> Outcome Expression) (h : Heap) (table_node : Expression)
      (row_filter_ : string) (e : PyExc) :
  parse_one ("SELECT * FROM t WHERE " +:+ row_filter_) = Raise e ->
  _apply_row_filter parse_one h table_node row_filter_ = h.
Proof.
  intros Hraise. unfold _apply_row_filter. destruct h as [parsed next].
  destruct (enclosing_select parsed table_node); [|reflexivity].
  rewrite Hraise. reflexivity.
Qed.

(** X18.  A row filter that does not parse is dropped without a trace.
    When the parser raises on every row filter of the policy, the table
    loop leaves the statement exactly as it was parsed: the statement that
    is printed and returned as the valid rewrite carries no filter. *)
Theorem unparsable_row_filters_fail_open
        (parse_one : string -> Outcome Expression) (policy : DatabaseAccessPolicy)
        (parsed : Expression) (next : nat) :
  (forall r row_filter_,
      In r (table_rules policy) -> row_filter r = Some row_filter_ ->
      exists e, parse_one ("SELECT * FROM t WHERE " +:+ row_filter_) = Raise e) ->
  snd (scan parse_one policy (parsed, next)) = parsed.
Proof.
  intros Hraise.
  assert (Hstep : forall blocked h t,
             snd (table_step parse_one policy (blocked, h) t) = h).
  { intros blocked h t. unfold table_step.
    destruct (is_table_blocked policy _ _); [reflexivity|].
    destruct (get_row_filter policy _ _) as [rf|] eqn:Hrf; [|reflexivity].
    destruct (nonempty_str rf); [|reflexivity].
    apply get_row_filter_in in Hrf as (r & Hin & Hr).
    destruct (Hraise r rf Hin Hr) as [e He].
    simpl. apply (apply_row_filter_raise parse_one h t rf e He). }
  assert (Hloop : forall tables blocked h,
             snd (fold_left (table_step parse_one policy) tables (blocked, h)) = h).
  { induction tables as [|t tables IH]; intros blocked h; [reflexivity|].
    change (fold_left (table_step parse_one policy) (t :: tables) (blocked, h))
      with (fold_left (table_step parse_one policy) tables
                      (table_step parse_one policy (blocked, h) t)).
    specialize (Hstep blocked h t).
    destruct (table_step parse_one policy (blocked, h) t) as [blocked' h'].
    simpl in Hstep. subst h'. apply IH. }
  unfold scan. cbn [fst].
  specialize (Hloop (find_all is_table parsed) [] (parsed, next)).
  destruct (fold_left _ _ _) as [blocked [parsed' next']]. simpl in Hloop.
  injection Hloop as -> ->. reflexivity.
Qed.

Lemma unparsable_row_filters_fail_open_witness :
  snd (scan Samples.parse_one
            (Samples.policy [Samples.rule "orders" None (Some "user_id = = 1")] [])
            (fresh Samples.select_id_from_orders O))
  = fst (fresh Samples.select_id_from_orders O).
Proof.
  apply (unparsable_row_filters_fail_open Samples.parse_one
           (Samples.policy [Samples.rule "orders" None (Some "user_id = = 1")] [])
           (fst (fresh Samples.select_id_from_orders O))
           (snd (fresh Samples.select_id_from_orders O))).
  intros r rf [<-|[]] [= <-]. eexists. vm_compute. reflexivity.
Defined.

End RewriterMoreProps.


(** ** Retry decorators *)

Section RetryProps.
Import Executor Retry.

Lemma iter_shift (backoff current_delay : Q) (m : nat) :
  map (fun j => Nat.iter j (fun d => (d * backoff)%Q) (current_delay * backoff)%Q) (seq 0 m)
  = map (fun j => Nat.iter j (fun d => (d * backoff)%Q) current_delay) (seq 1 m).
Proof.
  rewrite <- seq_shift, map_map. apply map_ext. intros j.
  symmetry. exact (Nat.iter_succ_r j (fun d => (d * backoff)%Q) current_delay).
Qed.

Lemma backoff_loop_spec {A : Type} (retryable : PyExc -> bool) (max_attempts : nat)
      (backoff : Q) (func : nat -> Outcome A) (turns : nat) :
  forall attempt current_delay,
    (0 < turns)%nat -> (attempt + turns = max_attempts)%nat ->
    exists k,
      (attempt <= k < max_attempts)%nat
      /\ fst (backoff_loop retryable max_attempts backoff func turns attempt current_delay)
         = func k
      /\ (forall j, (attempt <= j < k)%nat ->
                    exists e, func j = Raise e /\ retryable e = true)
      /\ (forall e, func k = Raise e -> retryable e = true -> k = (max_attempts - 1)%nat)
      /\ snd (backoff_loop retryable max_attempts backoff func turns attempt current_delay)
         = map (fun j => Nat.iter j (fun d => (d * backoff)%Q) current_delay)
               (seq 0 (k - attempt)).
Proof.
  induction turns as [|turns IH]; intros attempt current_delay Hpos Hsum; [lia|].
  simpl backoff_loop.
  destruct (func attempt) as [a|e] eqn:Hf.
  - exists attempt. rewrite Hf, Nat.sub_diag. simpl.
    repeat split; try lia. intros e; discriminate.
  - destruct (retryable e) eqn:Hr.
    + destruct (Nat.eqb attempt (max_attempts - 1)) eqn:Hlast.
      * apply Nat.eqb_eq in Hlast. exists attempt. rewrite Hf, Nat.sub_diag. simpl.
        repeat split; try lia.
      * apply Nat.eqb_neq in Hlast.
        destruct (IH (S attempt) (current_delay * backoff)%Q ltac:(lia) ltac:(lia))
          as (k & Hk & Hres & Hprev & Hstop & Hsleeps).
        destruct (backoff_loop retryable max_attempts backoff func turns (S attempt)
                               (current_delay * backoff)%Q) as [r sleeps].
        cbn [fst snd] in *. exists k.
        split; [lia|]. split; [exact Hres|]. split.
        -- intros j Hj. destruct (Nat.eq_dec j attempt) as [->|Hne].
           ++ exists e. auto.
           ++ apply Hprev. lia.
        -- split; [exact Hstop|].
           replace (k - attempt)%nat with (S (k - S attempt)) by lia.
           cbn [seq map Nat.iter nat_rect]. rewrite Hsleeps, iter_shift. reflexivity.
    + exists attempt. rewrite Hf, Nat.sub_diag. simpl.
      repeat split; try lia. intros e' [= <-] Hr'. congruence.
Qed.

(** X19.  The decorators with a growing delay ([retry_on_timeout],
    [retry_on_api_error]).  With [max_attempts = 0] the wrapped function is
    never called and the wrapper raises [RuntimeError].  Otherwise the
    wrapper gives the outcome of one attempt [k < max_attempts], every
    attempt before it raised an error of the retried classes, an error of
    these classes ends the loop only at the last attempt, and the wrapper
    slept exactly [k] times: first for [delay], then each time for the
    previous delay multiplied by [backoff], as [current_delay *= backoff]
    computes it (no closed form of the products is stated).  There is no
    sleep after the last attempt. *)
Theorem retry_backoff_schedule {A : Type} (retryable : PyExc -> bool)
        (max_attempts : nat) (delay backoff : Q) (func : nat -> Outcome A) :
  (max_attempts = O ->
   backoff_loop retryable max_attempts backoff func max_attempts O delay
   = (Raise (MkExc RuntimeError "Should not reach here"), []))
  /\ ((0 < max_attempts)%nat ->
      exists k,
        (k < max_attempts)%nat
        /\ fst (backoff_loop retryable max_attempts backoff func max_attempts O delay)
           = func k
        /\ length (snd (backoff_loop retryable max_attempts backoff func max_attempts O
                                     delay)) = k
        /\ (forall j, (j < k)%nat -> exists e, func j = Raise e /\ retryable e = true)
        /\ (forall e, func k = Raise e -> retryable e = true ->
                      k = (max_attempts - 1)%nat)
        /\ snd (backoff_loop retryable max_attempts backoff func max_attempts O delay)
           = map (fun j => Nat.iter j (fun current_delay => (current_delay * backoff)%Q)
                                    delay)
                 (seq 0 k)).
Proof.
  split.
  - intros ->. reflexivity.
  - intros Hpos.
    destruct (backoff_loop_spec retryable max_attempts backoff func max_attempts O delay
                                Hpos (Nat.add_0_l _))
      as (k & Hk & Hres & Hprev & Hstop & Hsleeps).
    rewrite Nat.sub_0_r in *. exists k.
    split; [lia|]. split; [exact Hres|].
    split; [rewrite Hsleeps, length_map, length_seq; reflexivity|].
    split; [intros j Hj; apply Hprev; lia|]. split; [exact Hstop | exact Hsleeps].
Qed.

Lemma retry_loop_spec {A : Type} (max_attempts : nat) (func : nat -> Outcome A)
      (turns : nat) :
  forall attempt,
    (0 < turns)%nat -> (attempt + turns = max_attempts)%nat ->
    exists k,
      (attempt <= k < max_attempts)%nat
      /\ retry_loop max_attempts func turns attempt = func k
      /\ (forall j, (attempt <= j < k)%nat ->
                    exists e, func j = Raise e /\ is_db_error e = true)
      /\ (forall e, func k = Raise e -> is_db_error e = true ->
                    k = (max_attempts - 1)%nat).
Proof.
  induction turns as [|turns IH]; intros attempt Hpos Hsum; [lia|].
  simpl retry_loop.
  destruct (func attempt) as [a|e] eqn:Hf.
  - exists attempt. rewrite Hf. repeat split; try lia. intros e; discriminate.
  - destruct (is_db_error e) eqn:Hr.
    + destruct (Nat.eqb attempt (max_attempts - 1)) eqn:Hlast.
      * apply Nat.eqb_eq in Hlast. exists attempt. rewrite Hf.
        repeat split; try lia.
      * apply Nat.eqb_neq in Hlast.
        destruct (IH (S attempt) ltac:(lia) ltac:(lia)) as (k & Hk & Hres & Hprev & Hstop).
        exists k. split; [lia|]. split; [exact Hres|]. split; [|exact Hstop].
        intros j Hj. destruct (Nat.eq_dec j attempt) as [->|Hne].
        -- exists e. auto.
        -- apply Hprev. lia.
    + exists attempt. rewrite Hf. repeat split; try lia.
      intros e' [= <-] Hr'. congruence.
Qed.

(** X20.  [retry_on_db_error] for any number of attempts.  With
    [max_attempts = 0] the wrapped function is never called and the wrapper
    raises [RuntimeError]; otherwise the wrapper gives the outcome of the
    first attempt that returns, raises an error that is not a connection or
    interface error, or is the last one, and every attempt before it raised
    a connection or interface error. *)
Theorem retry_on_db_error_attempts {A : Type} (max_attempts : nat)
        (func : nat -> Outcome A) :
  (max_attempts = O ->
   retry_on_db_error max_attempts func
   = Raise (MkExc RuntimeError "Should not reach here"))
  /\ ((0 < max_attempts)%nat ->
      exists k,
        (k < max_attempts)%nat
        /\ retry_on_db_error max_attempts func = func k
        /\ (forall j, (j < k)%nat -> exists e, func j = Raise e /\ is_db_error e = true)
        /\ (forall e, func k = Raise e -> is_db_error e = true ->
                      k = (max_attempts - 1)%nat)).
Proof.
  unfold retry_on_db_error. split.
  - intros ->. reflexivity.
  - intros Hpos.
    destruct (retry_loop_spec max_attempts func max_attempts O Hpos (Nat.add_0_l _))
      as (k & Hk & Hres & Hprev & Hstop).
    exists k. split; [lia|]. split; [exact Hres|].
    split; [intros j Hj; apply Hprev; lia | exact Hstop].
Qed.

Example retry_on_api_error_three_attempts :
  let is_api_error := fun e => String.eqb (exc_str e) "rate limit" in
  let func := fun attempt : nat =>
                if (attempt <? 2)%nat then Raise (MkExc OtherException "rate limit")
                else Return attempt in
  retry_on_api_error is_api_error 3 2 2 func = (Return 2%nat, [2; 2 * 2]%Q)
  /\ retry_on_api_error is_api_error 2 2 2 func
     = (Raise (MkExc OtherException "rate limit"), [2%Q]).
Proof. split; reflexivity. Qed.

End RetryProps.


(** ** The executor behind the access-control gate *)

Section ExecutorMoreProps.
Import Sqlglot Security SQLAccessControlRewriter Executor.






End ExecutorMoreProps.

(** ** The query pipeline *)

Section QueryProcessorProps.
Import Executor StandardMetrics QueryProcessor.

Lemma format_sql_returns
      (parse_one : string -> Outcome Sqlglot.Expression)
      (to_sql : Sqlglot.Expression -> Outcome string) (sql : string) :
  exists formatted, SQLValidator.format_sql parse_one to_sql sql = Return formatted.
Proof.
  unfold SQLValidator.format_sql, try_except, bind.
  destruct (parse_one sql) as [parsed|e]; [|eexists; reflexivity].
  destruct (to_sql parsed); eexists; reflexivity.
Qed.

(** X22.  Where a response comes from.  When [process_query] answers with
    a [QueryResponse], the schema was loaded, the generator returned a
    statement that [validate_sql] accepted, the statement executed is the
    output of [format_sql] on it (not the generated text), the rows are
    what the executor returned for that statement, the result validator
    passed them, and the response reports the formatted statement, the
    rows, their number and the database name. *)
Theorem process_query_response_provenance
        (parse_one : string -> Outcome Sqlglot.Expression)
        (to_sql : Sqlglot.Expression -> Outcome string)
        (expr_str : Sqlglot.Expression -> string)
        (self : QueryProcessor.t) (clock : Clock) (request : QueryRequest.t)
        (response : QueryResponse.t) :
  fst (process_query parse_one to_sql expr_str self clock request) = inl response ->
  schema self = true
  /\ exists sql columns details,
      generate_sql self (QueryRequest.query request) = Return sql
      /\ fst (SQLValidator.validate_sql parse_one expr_str sql) = true
      /\ SQLValidator.format_sql parse_one to_sql sql = Return (QueryResponse.sql response)
      /\ execute_query self (QueryResponse.sql response)
         = Return (QueryResponse.results response, columns,
                   QueryMetadata.execution_time_ms (QueryResponse.metadata response))
      /\ validate_results self (QueryRequest.query request) (QueryResponse.sql response)
                          (QueryResponse.results response) = Return (true, details)
      /\ QueryMetadata.rows (QueryResponse.metadata response)
         = length (QueryResponse.results response)
      /\ QueryMetadata.columns (QueryResponse.metadata response) = columns
      /\ QueryResponse.database response = database_name self.
Proof.
  unfold process_query.
  destruct (schema self); [|discriminate]. cbn [negb]. cbv zeta.
  destruct (generate_sql self (QueryRequest.query request)) as [sql|e] eqn:Hgen;
    [|discriminate].
  destruct (SQLValidator.validate_sql parse_one expr_str sql) as [is_valid error_msg]
    eqn:Hvalid.
  destruct is_valid; [|discriminate]. cbn [negb].
  destruct (SQLValidator.format_sql parse_one to_sql sql) as [formatted|e] eqn:Hformat;
    [|discriminate].
  destruct (execute_query self formatted) as [[[results columns] time]|e] eqn:Hexec;
    [|discriminate].
  destruct (validate_results self (QueryRequest.query request) formatted results)
    as [[ok details]|e] eqn:Hval; [|discriminate].
  destruct ok; [|discriminate]. cbn [negb fst].
  intros [= <-]. cbn. split; [reflexivity|].
  exists sql, columns, details. rewrite Hvalid. repeat split; try assumption; reflexivity.
Qed.

Lemma process_query_response_provenance_witness :
  let self :=
    {| schema := true;
       generate_sql := fun _ => Return "select id from orders";
       execute_query :=
         sql_executor 5
           {| pool := Some (fun _ _ => Return [[("id", VInt 1)]; [("id", VInt 2)]]);
              limits := {| max_rows := 1; max_execution_time := 30 |} |};
       validate_results := fun _ _ _ => Return (true, None);
       database_name := "db1";
       metrics := true |} in
  exists sql columns details,
    generate_sql self "all order ids" = Return sql
    /\ fst (SQLValidator.validate_sql Samples.parse_one Samples.expr_str sql) = true
    /\ SQLValidator.format_sql Samples.parse_one Samples.to_sql sql
       = Return "SELECT id FROM orders"
    /\ execute_query self "SELECT id FROM orders"
       = Return ([[("id", VInt 1)]], columns, 5%Q)
    /\ validate_results self "all order ids" "SELECT id FROM orders" [[("id", VInt 1)]]
       = Return (true, details)
    /\ 1%nat = length [[("id", VInt 1)]]
    /\ [{| name := "id"; type := "int" |}] = columns
    /\ "db1" = database_name self.
Proof.
  exact (proj2 (process_query_response_provenance
                  Samples.parse_one Samples.to_sql Samples.expr_str
                  {| schema := true;
                     generate_sql := fun _ => Return "select id from orders";
                     execute_query :=
                       sql_executor 5
                         {| pool := Some (fun _ _ =>
                                            Return [[("id", VInt 1)]; [("id", VInt 2)]]);
                            limits := {| max_rows := 1; max_execution_time := 30 |} |};
                     validate_results := fun _ _ _ => Return (true, None);
                     database_name := "db1";
                     metrics := true |}
                  {| sql_gen_duration := 1; sql_exec_duration := 2; val_duration := 3 |}
                  {| QueryRequest.query := "all order ids"; QueryRequest.database := None |}
                  {| QueryResponse.sql := "SELECT id FROM orders";
                     QueryResponse.results := [[("id", VInt 1)]];
                     QueryResponse.metadata :=
                       {| QueryMetadata.rows := 1;
                          QueryMetadata.execution_time_ms := 5;
                          QueryMetadata.columns := [{| name := "id"; type := "int" |}] |};
                     QueryResponse.database := "db1" |}
                  eq_refl)).
Defined.

(** X23.  A statement that the validator rejects is not executed.  When
    the generator returns a statement that [validate_sql] rejects, the
    answer is a [VALIDATION_FAILED] error that carries the validator's
    message and the generated statement, and neither the executor nor the
    result validator has any part in it: the answer and the metrics calls
    are the same for every executor and result validator. *)
Theorem rejected_statement_is_not_executed
        (parse_one : string -> Outcome Sqlglot.Expression)
        (to_sql : Sqlglot.Expression -> Outcome string)
        (expr_str : Sqlglot.Expression -> string)
        (self : QueryProcessor.t) (clock : Clock) (request : QueryRequest.t)
        (sql : string) :
  schema self = true ->
  generate_sql self (QueryRequest.query request) = Return sql ->
  fst (SQLValidator.validate_sql parse_one expr_str sql) = false ->
  fst (process_query parse_one to_sql expr_str self clock request)
  = inr {| QueryError.error := ErrorType.VALIDATION_FAILED;
           QueryError.message :=
             message_or (snd (SQLValidator.validate_sql parse_one expr_str sql))
                        "SQL validation failed";
           QueryError.suggestion :=
             Some "This system only supports SELECT queries. Please rephrase your query.";
           QueryError.sql := Some sql;
           QueryError.validation_details := None |}
  /\ increments SQL_EXECUTION_TOTAL
       (snd (process_query parse_one to_sql expr_str self clock request)) = O
  /\ forall execute_query' validate_results',
      process_query parse_one to_sql expr_str
        {| schema := schema self; generate_sql := generate_sql self;
           execute_query := execute_query'; validate_results := validate_results';
           database_name := database_name self; metrics := metrics self |}
        clock request
      = process_query parse_one to_sql expr_str self clock request.
Proof.
  intros Hschema Hgen Hreject. unfold process_query. cbn [schema generate_sql
    database_name metrics execute_query validate_results].
  rewrite Hschema, Hgen. cbn [negb]. cbv zeta.
  destruct (SQLValidator.validate_sql parse_one expr_str sql) as [is_valid error_msg].
  cbn [fst] in Hreject. subst is_valid. cbn [negb fst snd].
  split; [reflexivity|]. split; [|reflexivity].
  unfold noted. destruct (metrics self); reflexivity.
Qed.

Lemma rejected_statement_is_not_executed_witness :
  fst (process_query Samples.parse_one Samples.to_sql Samples.expr_str
         {| schema := true;
            generate_sql := fun _ => Return "DELETE FROM users";
            execute_query := fun _ => Return ([], [], 5%Q);
            validate_results := fun _ _ _ => Return (true, None);
            database_name := "db1";
            metrics := true |}
         {| sql_gen_duration := 1; sql_exec_duration := 2; val_duration := 3 |}
         {| QueryRequest.query := "remove every user"; QueryRequest.database := None |})
  = inr {| QueryError.error := ErrorType.VALIDATION_FAILED;
           QueryError.message := "Only SELECT queries are allowed. Detected: Delete";
           QueryError.suggestion :=
             Some "This system only supports SELECT queries. Please rephrase your query.";
           QueryError.sql := Some "DELETE FROM users";
           QueryError.validation_details := None |}.
Proof.
  exact (proj1 (rejected_statement_is_not_executed
                  Samples.parse_one Samples.to_sql Samples.expr_str
                  {| schema := true;
                     generate_sql := fun _ => Return "DELETE FROM users";
                     execute_query := fun _ => Return ([], [], 5%Q);
                     validate_results := fun _ _ _ => Return (true, None);
                     database_name := "db1";
                     metrics := true |}
                  {| sql_gen_duration := 1; sql_exec_duration := 2; val_duration := 3 |}
                  {| QueryRequest.query := "remove every user";
                     QueryRequest.database := None |}
                  "DELETE FROM users" eq_refl eq_refl eq_refl)).
Defined.

(** X24.  The counters of the pipeline balance.  On every path, with or
    without a collector, each generation counted in
    [mcp.sql.generation.total] is counted once as success or as error, and
    the same for the executions; a duration is recorded exactly for the
    successes.  The validations counted in [mcp.validation.total] are
    counted as success or failed except when the result validator raises:
    then the answer is an [INTERNAL_ERROR], and the total is one ahead. *)
Theorem pipeline_counters_balance
        (parse_one : string -> Outcome Sqlglot.Expression)
        (to_sql : Sqlglot.Expression -> Outcome string)
        (expr_str : Sqlglot.Expression -> string)
        (self : QueryProcessor.t) (clock : Clock) (request : QueryRequest.t) :
  let outcome := process_query parse_one to_sql expr_str self clock request in
  let calls := snd outcome in
  increments SQL_GENERATION_TOTAL calls
  = (increments SQL_GENERATION_SUCCESS calls + increments SQL_GENERATION_ERROR calls)%nat
  /\ increments SQL_EXECUTION_TOTAL calls
     = (increments SQL_EXECUTION_SUCCESS calls + increments SQL_EXECUTION_ERROR calls)%nat
  /\ timings SQL_GENERATION_DURATION calls = increments SQL_GENERATION_SUCCESS calls
  /\ timings SQL_EXECUTION_DURATION calls = increments SQL_EXECUTION_SUCCESS calls
  /\ increments VALIDATION_TOTAL calls
     = (increments VALIDATION_SUCCESS calls + increments VALIDATION_FAILED calls
        + match fst outcome with
          | inr err =>
              match QueryError.error err with
              | ErrorType.INTERNAL_ERROR => if metrics self then 1 else 0
              | _ => 0
              end
          | inl _ => 0
          end)%nat
  /\ (increments SQL_GENERATION_TOTAL calls <= 1)%nat
  /\ (increments SQL_EXECUTION_TOTAL calls <= increments SQL_GENERATION_SUCCESS calls)%nat
  /\ (increments VALIDATION_TOTAL calls <= increments SQL_EXECUTION_SUCCESS calls)%nat.
Proof.
  cbv zeta. unfold process_query.
  destruct (schema self); cbn [negb]; [|cbn; repeat split; lia]. cbv zeta.
  destruct (generate_sql self (QueryRequest.query request)) as [sql|e].
  2:{ unfold noted. destruct (metrics self); cbn; repeat split; lia. }
  destruct (SQLValidator.validate_sql parse_one expr_str sql) as [is_valid error_msg].
  destruct is_valid; cbn [negb].
  2:{ unfold noted. destruct (metrics self); cbn; repeat split; lia. }
  destruct (format_sql_returns parse_one to_sql sql) as [formatted ->].
  destruct (execute_query self formatted) as [[[results columns] time]|e].
  2:{ unfold noted. destruct (metrics self); cbn; repeat split; lia. }
  destruct (validate_results self (QueryRequest.query request) formatted results)
    as [[ok details]|e].
  2:{ unfold noted. destruct (metrics self); cbn; repeat split; lia. }
  destruct ok; cbn [negb]; unfold noted; destruct (metrics self); cbn; repeat split; lia.
Qed.



End QueryProcessorProps.


(** ** The [query] tool *)

Section ServerProps.
Import StandardMetrics QueryProcessor Server.

Lemma increments_app (metric : string) (cs1 cs2 : list MetricsCall) :
  increments metric (cs1 ++ cs2) = (increments metric cs1 + increments metric cs2)%nat.
Proof. unfold increments. rewrite List.filter_app, length_app. reflexivity. Qed.

Lemma observations_app (metric : string) (cs1 cs2 : list MetricsCall) :
  observations metric (cs1 ++ cs2)
  = (observations metric cs1 ++ observations metric cs2)%list.
Proof. unfold observations. apply omap_app. Qed.

(** The pipeline touches none of the counters of the tool. *)
Lemma process_query_tool_counters
      (parse_one : string -> Outcome Sqlglot.Expression)
      (to_sql : Sqlglot.Expression -> Outcome string)
      (expr_str : Sqlglot.Expression -> string)
      (processor : QueryProcessor.t) (clock : Clock) (request : QueryRequest.t) :
  let calls := snd (process_query parse_one to_sql expr_str processor clock request) in
  increments QUERY_TOTAL calls = O /\ increments QUERY_SUCCESS calls = O
  /\ increments QUERY_ERROR calls = O /\ increments RATE_LIMIT_EXCEEDED calls = O.
Proof.
  cbv zeta. unfold process_query.
  destruct (schema processor); cbn [negb]; [|cbn; repeat split]. cbv zeta.
  destruct (generate_sql processor (QueryRequest.query request)) as [sql|e].
  2:{ unfold QueryProcessor.noted. destruct (metrics processor); cbn; repeat split. }
  destruct (SQLValidator.validate_sql parse_one expr_str sql) as [is_valid error_msg].
  destruct is_valid; cbn [negb].
  2:{ unfold QueryProcessor.noted. destruct (metrics processor); cbn; repeat split. }
  destruct (SQLValidator.format_sql parse_one to_sql sql) as [formatted|e].
  2:{ unfold QueryProcessor.noted. destruct (metrics processor); cbn; repeat split. }
  destruct (execute_query processor formatted) as [[[results columns] time]|e].
  2:{ unfold QueryProcessor.noted. destruct (metrics processor); cbn; repeat split. }
  destruct (validate_results processor (QueryRequest.query request) formatted results)
    as [[ok details]|e].
  2:{ unfold QueryProcessor.noted. destruct (metrics processor); cbn; repeat split. }
  destruct ok; cbn [negb]; unfold QueryProcessor.noted; destruct (metrics processor); cbn;
    repeat split.
Qed.

(** The rows that the pipeline records for a response. *)
Lemma process_query_rows_observed
      (parse_one : string -> Outcome Sqlglot.Expression)
      (to_sql : Sqlglot.Expression -> Outcome string)
      (expr_str : Sqlglot.Expression -> string)
      (processor : QueryProcessor.t) (clock : Clock) (request : QueryRequest.t)
      (response : QueryResponse.t) :
  fst (process_query parse_one to_sql expr_str processor clock request) = inl response ->
  QueryMetadata.rows (QueryResponse.metadata response)
  = length (QueryResponse.results response)
  /\ observations SQL_EXECUTION_ROWS
                  (snd (process_query parse_one to_sql expr_str processor clock request))
     = if metrics processor
       then [inject_Z (Z.of_nat (length (QueryResponse.results response)))]
       else [].
Proof.
  unfold process_query.
  destruct (schema processor); [|discriminate]. cbn [negb]. cbv zeta.
  destruct (generate_sql processor (QueryRequest.query request)) as [sql|e]; [|discriminate].
  destruct (SQLValidator.validate_sql parse_one expr_str sql) as [is_valid error_msg].
  destruct is_valid; [|discriminate]. cbn [negb].
  destruct (SQLValidator.format_sql parse_one to_sql sql) as [formatted|e]; [|discriminate].
  destruct (execute_query processor formatted) as [[[results columns] time]|e];
    [|discriminate].
  destruct (validate_results processor (QueryRequest.query request) formatted results)
    as [[ok details]|e]; [|discriminate].
  destruct ok; [|discriminate]. cbn [negb fst snd].
  intros [= <-]. unfold QueryProcessor.noted. destruct (metrics processor);
    split; reflexivity.
Qed.

Lemma check_limit_calls (self : Server.t) (times : Times) (db_name : string) :
  let calls := snd (check_limit self times db_name) in
  increments QUERY_TOTAL calls = O /\ increments QUERY_SUCCESS calls = O
  /\ increments QUERY_ERROR calls = O
  /\ increments RATE_LIMIT_EXCEEDED calls
     = (if metrics_collector self
        then match fst (fst (check_limit self times db_name)) with
             | Some _ => 1 | None => 0
             end
        else 0)%nat
  /\ observations SQL_EXECUTION_ROWS calls = [].
Proof.
  cbv zeta. unfold check_limit.
  destruct (rate_limiter self) as [limiter|].
  - destruct (RateLimiter.check_rate_limit db_name (current_time times) limiter)
      as [[is_allowed error_msg] limiter'].
    unfold Server.noted.
    destruct is_allowed, (metrics_collector self); cbn; repeat split.
  - destruct (metrics_collector self); cbn; repeat split.
Qed.

Lemma dispatch_calls
      (parse_one : string -> Outcome Sqlglot.Expression)
      (to_sql : Sqlglot.Expression -> Outcome string)
      (expr_str : Sqlglot.Expression -> string)
      (error_type_str : ErrorType.t -> string)
      (self : Server.t) (times : Times) (query_text db_name : string) :
  let outcome := dispatch parse_one to_sql expr_str error_type_str self times query_text
                          db_name in
  increments QUERY_TOTAL (snd outcome) = O
  /\ increments RATE_LIMIT_EXCEEDED (snd outcome) = O
  /\ (increments QUERY_SUCCESS (snd outcome) + increments QUERY_ERROR (snd outcome))%nat
     = (if metrics_collector self then 1 else 0)%nat
  /\ increments QUERY_SUCCESS (snd outcome)
     = (if metrics_collector self
        then match fst outcome with Dumped (inl _) => 1 | _ => 0 end
        else 0)%nat.
Proof.
  cbv zeta. unfold dispatch.
  destruct (get db_name (query_processors self)) as [processor|].
  - pose proof (process_query_tool_counters
                  parse_one to_sql expr_str processor (clock times)
                  {| QueryRequest.query := query_text;
                     QueryRequest.database := Some db_name |}) as Hp.
    cbv zeta in Hp. destruct Hp as (Hp1 & Hp2 & Hp3 & Hp4).
    destruct (process_query parse_one to_sql expr_str processor (clock times) _)
      as [[r|err] pcalls]; cbn [fst snd] in *;
      rewrite !increments_app, ?Hp1, ?Hp2, ?Hp3, ?Hp4;
      unfold Server.noted; destruct (metrics_collector self); cbn; repeat split.
  - unfold Server.noted. destruct (metrics_collector self); cbn; repeat split.
Qed.

(** X26.  The rate limit comes before the pipeline.  When the limiter
    denies the resolved database name, the tool answers
    [rate_limit_exceeded] with the limiter's message, the limiter keeps
    the state that the denied probe left, and no processor is consulted:
    the reply and the metrics calls are the same whatever processors are
    registered under the same names. *)
Theorem rate_limited_query_skips_processor
        (parse_one : string -> Outcome Sqlglot.Expression)
        (to_sql : Sqlglot.Expression -> Outcome string)
        (expr_str : Sqlglot.Expression -> string)
        (error_type_str : ErrorType.t -> string)
        (self : Server.t) (times : Times) (query_text : string)
        (database : option string) (db_name : string) (limiter : RateLimiter.t) :
  get_database_name self database = Return db_name ->
  rate_limiter self = Some limiter ->
  fst (fst (RateLimiter.check_rate_limit db_name (current_time times) limiter)) = false ->
  fst (fst (query parse_one to_sql expr_str error_type_str self times query_text database))
  = Failed "rate_limit_exceeded"
           (message_or
              (snd (fst (RateLimiter.check_rate_limit db_name (current_time times) limiter)))
              "Too many requests")
  /\ rate_limiter
       (snd (fst (query parse_one to_sql expr_str error_type_str self times query_text
                        database)))
     = Some (snd (RateLimiter.check_rate_limit db_name (current_time times) limiter))
  /\ forall processors',
      map fst processors' = map fst (query_processors self) ->
      let self' := {| default_database := default_database self;
                      query_processors := processors';
                      rate_limiter := rate_limiter self;
                      metrics_collector := metrics_collector self |} in
      fst (fst (query parse_one to_sql expr_str error_type_str self' times query_text
                      database))
      = fst (fst (query parse_one to_sql expr_str error_type_str self times query_text
                        database))
      /\ snd (query parse_one to_sql expr_str error_type_str self' times query_text database)
         = snd (query parse_one to_sql expr_str error_type_str self times query_text
                      database).
Proof.
  intros Hname Hlimiter Hdenied.
  assert (Hquery : forall s,
             get_database_name s database = Return db_name ->
             rate_limiter s = Some limiter ->
             metrics_collector s = metrics_collector self ->
             fst (fst (query parse_one to_sql expr_str error_type_str s times query_text
                             database))
             = Failed "rate_limit_exceeded"
                      (message_or
                         (snd (fst (RateLimiter.check_rate_limit
                                      db_name (current_time times) limiter)))
                         "Too many requests")
             /\ rate_limiter
                  (snd (fst (query parse_one to_sql expr_str error_type_str s times
                                   query_text database)))
                = Some (snd (RateLimiter.check_rate_limit
                               db_name (current_time times) limiter))
             /\ snd (query parse_one to_sql expr_str error_type_str s times query_text
                           database)
                = snd (query parse_one to_sql expr_str error_type_str self times query_text
                             database)).
  { intros s Hs Hl Hm. unfold query, query_in, check_limit, Server.noted.
    rewrite Hs, Hname, Hl, Hlimiter, Hm.
    destruct (RateLimiter.check_rate_limit db_name (current_time times) limiter)
      as [[is_allowed error_msg] limiter'].
    cbn [fst snd] in Hdenied |- *. subst is_allowed. cbn. repeat split. }
  destruct (Hquery self Hname Hlimiter eq_refl) as (Hreply & Hstate & _).
  split; [exact Hreply|]. split; [exact Hstate|].
  intros processors' Hkeys self'.
  assert (Hname' : get_database_name self' database = Return db_name).
  { unfold get_database_name in *. subst self'. cbn [default_database query_processors].
    rewrite Hkeys. exact Hname. }
  destruct (Hquery self' Hname' Hlimiter eq_refl) as (Hreply' & _ & Hcalls').
  split; [rewrite Hreply, Hreply'; reflexivity | exact Hcalls'].
Qed.

Lemma rate_limited_query_skips_processor_witness :
  fst (fst (query Samples.parse_one Samples.to_sql Samples.expr_str (fun _ => "")
                  {| default_database := Some "db1";
                     query_processors :=
                       [("db1",
                         {| schema := true;
                            generate_sql := fun _ => Return "select id from orders";
                            execute_query := fun _ => Return ([], [], 5%Q);
                            validate_results := fun _ _ _ => Return (true, None);
                            database_name := "db1";
                            metrics := true |})];
                     rate_limiter :=
                       Some (snd (RateLimiter.check_rate_limit "db1" 0
                                    (RateLimiter.init
                                       {| RateLimiter.max_requests := 1;
                                          RateLimiter.time_window := 60;
                                          RateLimiter.enabled := true |})));
                     metrics_collector := true |}
                  {| current_time := 1; query_start_time := 1; duration_ms := 2;
                     clock := {| sql_gen_duration := 1; sql_exec_duration := 2;
                                 val_duration := 3 |} |}
                  "all order ids" None))
  = Failed "rate_limit_exceeded"
           (message_or
              (snd (fst (RateLimiter.check_rate_limit "db1" 1
                           (snd (RateLimiter.check_rate_limit "db1" 0
                                   (RateLimiter.init
                                      {| RateLimiter.max_requests := 1;
                                         RateLimiter.time_window := 60;
                                         RateLimiter.enabled := true |}))))))
              "Too many requests").
Proof.
  exact (proj1 (rate_limited_query_skips_processor
                  Samples.parse_one Samples.to_sql Samples.expr_str (fun _ => "")
                  {| default_database := Some "db1";
                     query_processors :=
                       [("db1",
                         {| schema := true;
                            generate_sql := fun _ => Return "select id from orders";
                            execute_query := fun _ => Return ([], [], 5%Q);
                            validate_results := fun _ _ _ => Return (true, None);
                            database_name := "db1";
                            metrics := true |})];
                     rate_limiter :=
                       Some (snd (RateLimiter.check_rate_limit "db1" 0
                                    (RateLimiter.init
                                       {| RateLimiter.max_requests := 1;
                                          RateLimiter.time_window := 60;
                                          RateLimiter.enabled := true |})));
                     metrics_collector := true |}
                  {| current_time := 1; query_start_time := 1; duration_ms := 2;
                     clock := {| sql_gen_duration := 1; sql_exec_duration := 2;
                                 val_duration := 3 |} |}
                  "all order ids" None "db1"
                  (snd (RateLimiter.check_rate_limit "db1" 0
                          (RateLimiter.init
                             {| RateLimiter.max_requests := 1;
                                RateLimiter.time_window := 60;
                                RateLimiter.enabled := true |})))
                  eq_refl eq_refl ltac:(vm_compute; reflexivity))).
Defined.

(** X27.  Every call of the tool is accounted for once.  Whatever the
    path, the calls made on the collector increment [mcp.query.total] as
    often as [mcp.query.success], [mcp.query.error] and
    [mcp.rate_limit.exceeded] together: once with a collector, never
    without.  Success is counted exactly for a dumped response.  A request
    for a database that does not exist leaves the rate limiter as it
    was. *)
Theorem query_counters_balance
        (parse_one : string -> Outcome Sqlglot.Expression)
        (to_sql : Sqlglot.Expression -> Outcome string)
        (expr_str : Sqlglot.Expression -> string)
        (error_type_str : ErrorType.t -> string)
        (self : Server.t) (times : Times) (query_text : string)
        (database : option string) :
  let outcome := query parse_one to_sql expr_str error_type_str self times query_text
                       database in
  let calls := snd outcome in
  increments QUERY_TOTAL calls = (if metrics_collector self then 1 else 0)%nat
  /\ increments QUERY_TOTAL calls
     = (increments QUERY_SUCCESS calls + increments QUERY_ERROR calls
        + increments RATE_LIMIT_EXCEEDED calls)%nat
  /\ increments QUERY_SUCCESS calls
     = (if metrics_collector self
        then match fst (fst outcome) with Dumped (inl _) => 1 | _ => 0 end
        else 0)%nat
  /\ (forall e, get_database_name self database = Raise e ->
                fst outcome = (Failed "invalid_database" (exc_str e), self)).
Proof.
  cbv zeta. unfold query.
  set (finished := if metrics_collector self && negb (Qeq_bool (query_start_time times) 0)
                   then _ else _).
  assert (Hfin : forall m, increments m finished = O).
  { intros m. unfold finished.
    destruct (metrics_collector self && negb (Qeq_bool (query_start_time times) 0));
      reflexivity. }
  destruct (get_database_name self database) as [db_name|e].
  2:{ cbn [fst snd]. rewrite !increments_app, !Hfin. unfold Server.noted.
      destruct (metrics_collector self); cbn;
        (repeat split; try lia; intros e' [= <-]; reflexivity). }
  unfold query_in.
  pose proof (check_limit_calls self times db_name) as Hc. cbv zeta in Hc.
  destruct Hc as (Hc1 & Hc2 & Hc3 & Hc4 & _).
  destruct (check_limit self times db_name) as [[limited self1] calls1].
  cbn [fst snd] in Hc1, Hc2, Hc3, Hc4.
  destruct limited as [error_msg|].
  - cbn [fst snd]. rewrite !increments_app, !Hfin, Hc1, Hc2, Hc3, Hc4.
    unfold Server.noted. destruct (metrics_collector self); cbn;
      (repeat split; try lia; discriminate).
  - pose proof (dispatch_calls parse_one to_sql expr_str error_type_str self times
                               query_text db_name) as Hd. cbv zeta in Hd.
    destruct Hd as (Hd1 & Hd2 & Hd3 & Hd4).
    destruct (dispatch parse_one to_sql expr_str error_type_str self times query_text
                       db_name) as [reply calls2].
    cbn [fst snd] in *. rewrite !increments_app, !Hfin, Hc1, Hc2, Hc3, Hc4, Hd1, Hd2, Hd4.
    unfold Server.noted.
    destruct (metrics_collector self); cbn in *;
      (repeat split; try lia; discriminate).
Qed.

(** X28.  The rows of a successful query are recorded twice.  The tool
    records the number of rows of a response in the histogram
    [mcp.sql.execution.rows], and so does the pipeline when it has a
    collector: with both attached, as the server sets them up, one
    successful call leaves two equal observations, and these are the only
    ones. *)
Theorem rows_histogram_recorded_twice
        (parse_one : string -> Outcome Sqlglot.Expression)
        (to_sql : Sqlglot.Expression -> Outcome string)
        (expr_str : Sqlglot.Expression -> string)
        (error_type_str : ErrorType.t -> string)
        (self : Server.t) (times : Times) (query_text : string)
        (database : option string) (db_name : string) (processor : QueryProcessor.t)
        (response : QueryResponse.t) :
  metrics_collector self = true ->
  get_database_name self database = Return db_name ->
  get db_name (query_processors self) = Some processor ->
  metrics processor = true ->
  fst (fst (query parse_one to_sql expr_str error_type_str self times query_text database))
  = Dumped (inl response) ->
  observations SQL_EXECUTION_ROWS
    (snd (query parse_one to_sql expr_str error_type_str self times query_text database))
  = [inject_Z (Z.of_nat (length (QueryResponse.results response)));
     inject_Z (Z.of_nat (length (QueryResponse.results response)))]
  /\ QueryResponse.database response = db_name.
Proof.
  intros Hcollector Hname Hget Hmetrics. unfold query, query_in.
  rewrite Hname.
  pose proof (check_limit_calls self times db_name) as Hc. cbv zeta in Hc.
  destruct Hc as (_ & _ & _ & _ & Hc).
  destruct (check_limit self times db_name) as [[limited self1] calls1].
  cbn [fst snd] in Hc.
  destruct limited as [error_msg|]; [discriminate|].
  unfold dispatch. rewrite Hget.
  pose proof (process_query_rows_observed
                parse_one to_sql expr_str processor (clock times)
                {| QueryRequest.query := query_text;
                   QueryRequest.database := Some db_name |}) as Hrows.
  destruct (process_query parse_one to_sql expr_str processor (clock times) _)
    as [[r|err] pcalls]; [|discriminate].
  cbn [fst snd] in *. intros [= <-].
  destruct (Hrows r eq_refl) as [Hlen Hobs]. rewrite Hmetrics in Hobs.
  rewrite !observations_app, Hc, Hobs. unfold Server.noted. rewrite Hcollector.
  cbn [with_database QueryResponse.results QueryResponse.database]. rewrite Hlen.
  destruct (true && negb (Qeq_bool (query_start_time times) 0)); cbn; split; reflexivity.
Qed.

Lemma rows_histogram_recorded_twice_witness :
  observations SQL_EXECUTION_ROWS
    (snd (query Samples.parse_one Samples.to_sql Samples.expr_str (fun _ => "")
                {| default_database := Some "db1";
                   query_processors :=
                     [("db1",
                       {| schema := true;
                          generate_sql := fun _ => Return "select id from orders";
                          execute_query :=
                            fun _ => Return ([[("id", Executor.VInt 1)];
                                              [("id", Executor.VInt 2)]], [], 5%Q);
                          validate_results := fun _ _ _ => Return (true, None);
                          database_name := "db1";
                          metrics := true |})];
                   rate_limiter := None;
                   metrics_collector := true |}
                {| current_time := 1; query_start_time := 1; duration_ms := 2;
                   clock := {| sql_gen_duration := 1; sql_exec_duration := 2;
                               val_duration := 3 |} |}
                "all order ids" None))
  = [inject_Z 2; inject_Z 2].
Proof.
  exact (proj1 (rows_histogram_recorded_twice
                  Samples.parse_one Samples.to_sql Samples.expr_str (fun _ => "")
                  {| default_database := Some "db1";
                     query_processors :=
                       [("db1",
                         {| schema := true;
                            generate_sql := fun _ => Return "select id from orders";
                            execute_query :=
                              fun _ => Return ([[("id", Executor.VInt 1)];
                                                [("id", Executor.VInt 2)]], [], 5%Q);
                            validate_results := fun _ _ _ => Return (true, None);
                            database_name := "db1";
                            metrics := true |})];
                     rate_limiter := None;
                     metrics_collector := true |}
                  {| current_time := 1; query_start_time := 1; duration_ms := 2;
                     clock := {| sql_gen_duration := 1; sql_exec_duration := 2;
                                 val_duration := 3 |} |}
                  "all order ids" None "db1"
                  {| schema := true;
                     generate_sql := fun _ => Return "select id from orders";
                     execute_query :=
                       fun _ => Return ([[("id", Executor.VInt 1)];
                                         [("id", Executor.VInt 2)]], [], 5%Q);
                     validate_results := fun _ _ _ => Return (true, None);
                     database_name := "db1";
                     metrics := true |}
                  {| QueryResponse.sql := "SELECT id FROM orders";
                     QueryResponse.results := [[("id", Executor.VInt 1)];
                                               [("id", Executor.VInt 2)]];
                     QueryResponse.metadata :=
                       {| QueryMetadata.rows := 2;
                          QueryMetadata.execution_time_ms := 5;
                          QueryMetadata.columns := [] |};
                     QueryResponse.database := "db1" |}
                  eq_refl eq_refl eq_refl eq_refl eq_refl)).
Defined.

End ServerProps.


(** ** The EXPLAIN cost check *)

Section ExplainCostProps.
Import Security Executor ExplainCost.

Lemma item_raise (key : string) (row : Row) (e : PyExc) :
  item key row = Raise e -> exc_class e = OtherException.
Proof.
  induction row as [|[k v] row IH]; simpl.
  - intros [= <-]. reflexivity.
  - destruct (String.eqb k key); [discriminate | exact IH].
Qed.

Lemma query_plan_raise (rows : list Row) (e : PyExc) :
  query_plan rows = Raise e -> exc_class e = OtherException.
Proof.
  destruct rows as [|row rows]; simpl.
  - intros [= <-]. reflexivity.
  - apply item_raise.
Qed.

Lemma second_piece_raise (sep s : string) (e : PyExc) :
  second_piece sep s = Raise e -> exc_class e = OtherException.
Proof.
  unfold second_piece. destruct (partition sep s) as [[before rest]|].
  - destruct (partition sep rest) as [[piece after]|]; discriminate.
  - intros [= <-]. reflexivity.
Qed.

Lemma first_token_raise (s : string) (e : PyExc) :
  first_token s = Raise e -> exc_class e = OtherException.
Proof.
  induction s as [|c s IH]; simpl.
  - intros [= <-]. reflexivity.
  - destruct (is_space c); [exact IH | discriminate].
Qed.

Lemma check_cost_permission
      (py_str : PyValue -> string) (float : string -> Outcome Q) (float_str : Q -> string)
      (policy : DatabaseAccessPolicy) (fetch : string -> Outcome (list Row))
      (sql : string) (e : PyExc) :
  (forall text e', float text = Raise e' -> exc_class e' <> PermissionError) ->
  (forall e', fetch ("EXPLAIN " +:+ sql) = Raise e' -> exc_class e' <> PermissionError) ->
  check_cost py_str float float_str policy fetch sql = Raise e ->
  exc_class e = PermissionError ->
  exists max_cost total_cost rows plan,
    max_explain_cost policy = Some max_cost
    /\ ~ (max_cost == 0)%Q /\ (max_cost < total_cost)%Q
    /\ fetch ("EXPLAIN " +:+ sql) = Return rows
    /\ query_plan rows = Return plan
    /\ partition "cost=" (py_str plan) <> None
    /\ e = MkExc PermissionError
             ("Query cost (" +:+ float_str total_cost
              +:+ ") exceeds maximum allowed cost (" +:+ float_str max_cost +:+ ")").
Proof.
  intros Hfloat Hfetch. unfold check_cost, bind.
  destruct (fetch ("EXPLAIN " +:+ sql)) as [rows|e0] eqn:Hrows.
  2:{ intros [= <-] Hc. exfalso. exact (Hfetch e0 eq_refl Hc). }
  destruct (query_plan rows) as [plan|e0] eqn:Hplan.
  2:{ intros [= <-] Hc. apply query_plan_raise in Hplan. congruence. }
  destruct (partition "cost=" (py_str plan)) as [parts|] eqn:Hpart; [|discriminate].
  destruct (second_piece "cost=" (py_str plan)) as [after_cost|e0] eqn:H1.
  2:{ intros [= <-] Hc. apply second_piece_raise in H1. congruence. }
  destruct (first_token after_cost) as [cost_part|e0] eqn:H2.
  2:{ intros [= <-] Hc. apply first_token_raise in H2. congruence. }
  destruct (second_piece ".." cost_part) as [total_text|e0] eqn:H3.
  2:{ intros [= <-] Hc. apply second_piece_raise in H3. congruence. }
  destruct (float total_text) as [total_cost|e0] eqn:H4.
  2:{ intros [= <-] Hc. exfalso. exact (Hfloat total_text e0 H4 Hc). }
  destruct (max_explain_cost policy) as [max_cost|]; [|discriminate].
  destruct (negb (Qeq_bool max_cost 0) && Qgtb total_cost max_cost) eqn:Hcmp;
    [|discriminate].
  intros [= <-] _. apply andb_true_iff in Hcmp as [Hnz Hgt].
  exists max_cost, total_cost, rows, plan.
  split; [reflexivity|]. split.
  { intros Heq. apply Qeq_bool_iff in Heq. rewrite Heq in Hnz. discriminate. }
  split; [apply Qgtb_lt; exact Hgt|]. split; [reflexivity|]. split; [exact Hplan|].
  split; [congruence | reflexivity].
Qed.

(** X29.  The EXPLAIN cost check fails open.  Provided [float] and the
    connection do not themselves raise [PermissionError]: the check
    either returns, or raises [PermissionError] because the policy has a
    non-zero [max_explain_cost] and the cost read off the plan exceeds it.
    Without a maximum, with a maximum of zero, when the EXPLAIN statement
    fails, or when the plan holds no [cost=], the check returns.  When the
    check raises inside [execute_query], that error is the outcome: the
    statement is not fetched and the call is not retried. *)
Theorem explain_cost_check_fails_open
        (py_str : PyValue -> string) (float : string -> Outcome Q) (float_str : Q -> string)
        (policy : DatabaseAccessPolicy) (fetch : string -> Outcome (list Row))
        (sql : string) :
  (forall text e, float text = Raise e -> exc_class e <> PermissionError) ->
  (forall e, fetch ("EXPLAIN " +:+ sql) = Raise e -> exc_class e <> PermissionError) ->
  (_check_explain_cost py_str float float_str policy fetch sql = Return tt
   \/ exists max_cost total_cost rows plan,
       max_explain_cost policy = Some max_cost
       /\ ~ (max_cost == 0)%Q /\ (max_cost < total_cost)%Q
       /\ fetch ("EXPLAIN " +:+ sql) = Return rows
       /\ query_plan rows = Return plan
       /\ partition "cost=" (py_str plan) <> None
       /\ _check_explain_cost py_str float float_str policy fetch sql
          = Raise (MkExc PermissionError
                     ("Query cost (" +:+ float_str total_cost
                      +:+ ") exceeds maximum allowed cost (" +:+ float_str max_cost
                      +:+ ")")))
  /\ (max_explain_cost policy = None ->
      _check_explain_cost py_str float float_str policy fetch sql = Return tt)
  /\ (forall max_cost,
        max_explain_cost policy = Some max_cost -> (max_cost == 0)%Q ->
        _check_explain_cost py_str float float_str policy fetch sql = Return tt)
  /\ (forall e, fetch ("EXPLAIN " +:+ sql) = Raise e ->
                _check_explain_cost py_str float float_str policy fetch sql = Return tt)
  /\ (forall rows plan,
        fetch ("EXPLAIN " +:+ sql) = Return rows -> query_plan rows = Return plan ->
        partition "cost=" (py_str plan) = None ->
        _check_explain_cost py_str float float_str policy fetch sql = Return tt)
  /\ (forall execution_time parse_one to_sql (p : Pool) statement max_rows e,
        p O = fetch ->
        require_explain policy = true ->
        final_sql parse_one to_sql {| db_pool := Some p; access_policy := Some policy |}
                  statement = Return sql ->
        _check_explain_cost py_str float float_str policy fetch sql = Raise e ->
        execute_query py_str float float_str execution_time parse_one to_sql p policy
                      statement max_rows = Raise e).
Proof.
  intros Hfloat Hfetch.
  assert (Hclass : forall e,
             _check_explain_cost py_str float float_str policy fetch sql = Raise e ->
             exc_class e = PermissionError
             /\ check_cost py_str float float_str policy fetch sql = Raise e).
  { intros e. unfold _check_explain_cost.
    destruct (check_cost py_str float float_str policy fetch sql) as [u|e0];
      [discriminate|].
    destruct (exc_class e0) eqn:Hc; try discriminate. intros [= <-]. auto. }
  assert (Hmain : _check_explain_cost py_str float float_str policy fetch sql = Return tt
                  \/ exists max_cost total_cost rows plan,
                      max_explain_cost policy = Some max_cost
                      /\ ~ (max_cost == 0)%Q /\ (max_cost < total_cost)%Q
                      /\ fetch ("EXPLAIN " +:+ sql) = Return rows
                      /\ query_plan rows = Return plan
                      /\ partition "cost=" (py_str plan) <> None
                      /\ _check_explain_cost py_str float float_str policy fetch sql
                         = Raise (MkExc PermissionError
                                    ("Query cost (" +:+ float_str total_cost
                                     +:+ ") exceeds maximum allowed cost ("
                                     +:+ float_str max_cost +:+ ")"))).
  { destruct (_check_explain_cost py_str float float_str policy fetch sql) as [[]|e] eqn:Hr;
      [left; reflexivity|].
    right. destruct (Hclass e eq_refl) as [Hc Hcost].
    destruct (check_cost_permission py_str float float_str policy fetch sql e
                                    Hfloat Hfetch Hcost Hc)
      as (max_cost & total_cost & rows & plan & H1 & H2 & H3 & H4 & H5 & H6 & ->).
    exists max_cost, total_cost, rows, plan. auto 10. }
  split; [exact Hmain|].
  split.
  { intros Hnone. destruct Hmain as [H | (m & t & r & pl & Hm & _)]; [exact H | congruence]. }
  split.
  { intros max_cost Hsome Hzero.
    destruct Hmain as [H | (m & t & r & pl & Hm & Hnz & _)]; [exact H|].
    exfalso. apply Hnz. congruence. }
  split.
  { intros e He. destruct Hmain as [H | (m & t & r & pl & _ & _ & _ & Hr & _)];
      [exact H | congruence]. }
  split.
  { intros rows plan Hrows Hplan Hpart.
    destruct Hmain as [H | (m & t & r & pl & _ & _ & _ & Hr & Hp & Hne & _)]; [exact H|].
    exfalso. apply Hne. congruence. }
  intros execution_time parse_one to_sql p statement max_rows e Hp Hreq Hfinal Hraise.
  destruct (Hclass e Hraise) as [Hc _].
  unfold execute_query, db_execute_query, retry_on_db_error. simpl retry_loop.
  unfold db_execute_query_once at 1. cbn [db_pool]. rewrite Hfinal. cbn [bind].
  unfold explain_gate. cbn [access_policy]. rewrite Hreq, Hp, Hraise. cbn [bind].
  unfold is_db_error. rewrite Hc. reflexivity.
Qed.

Lemma explain_cost_check_fails_open_witness :
  let py_str := fun v => match v with VStr s => s | _ => "" end in
  let float := fun text => if String.eqb text "28.00" then Return 28%Q
                           else Raise (MkExc OtherException "could not convert string to float") in
  let float_str := fun q : Q => pretty (Qnum q) in
  let policy := {| database_name := "db1"; default_access := READ; table_rules := [];
                   require_explain := true; max_explain_cost := Some 10%Q;
                   blocked_tables := [] |} in
  let fetch := fun _ : string =>
                 Return [[("QUERY PLAN",
                           VStr "Seq Scan on users  (cost=0.00..28.00 rows=1800 width=100)")]] in
  _check_explain_cost py_str float float_str policy fetch "SELECT * FROM users"
  = Raise (MkExc PermissionError "Query cost (28) exceeds maximum allowed cost (10)").
Proof.
  cbv zeta.
  destruct (proj1 (explain_cost_check_fails_open
                     (fun v => match v with VStr s => s | _ => "" end)
                     (fun text => if String.eqb text "28.00" then Return 28%Q
                                  else Raise (MkExc OtherException
                                                "could not convert string to float"))
                     (fun q : Q => pretty (Qnum q))
                     {| database_name := "db1"; default_access := READ; table_rules := [];
                        require_explain := true; max_explain_cost := Some 10%Q;
                        blocked_tables := [] |}
                     (fun _ : string =>
                        Return [[("QUERY PLAN",
                                  VStr "Seq Scan on users  (cost=0.00..28.00 rows=1800 width=100)")]])
                     "SELECT * FROM users"
                     ltac:(intros text e; cbv beta; destruct (String.eqb text "28.00");
                           [intros H; discriminate H | intros [= <-]; discriminate])
                     ltac:(cbv beta; intros e H; discriminate H)))
    as [Hret | (max_cost & total_cost & rows & plan & _ & _ & _ & _ & _ & _ & Hraise)].
  - vm_compute in Hret. discriminate Hret.
  - vm_compute. reflexivity.
Defined.

End ExplainCostProps.


(** ** The result validator *)

Section ResultValidatorProps.
Import Executor ResultValidator.

Lemma invalid_is_not_valid (answer : string) :
  Metrics.startswith answer "invalid" = true -> Metrics.startswith answer "valid" = false.
Proof.
  unfold Metrics.startswith. destruct answer as [|c answer]; [discriminate|].
  cbn [String.prefix]. destruct (ascii_dec "i" c) as [<-|]; [|discriminate].
  intros _. destruct (ascii_dec "v" "i") as [e|]; [discriminate e | reflexivity].
Qed.

(** X30.  The result validator never fails a query by accident, and its
    retry is dead code.  [validate_results] always returns, after a single
    attempt and without sleeping, whatever the model call does.  The
    verdict is negative exactly when there are rows and the model's answer,
    after Python's [strip()] and [lower()], starts with [invalid]; every
    other case -- no rows, an error of the model, no content, an answer of
    any other shape -- passes, and a pass carries no details. *)
Theorem validate_results_is_conservative
        (is_api_error : PyExc -> bool) (strip lower : string -> string)
        (completion : nat -> Outcome (option string))
        (results : list (list (string * PyValue))) :
  exists verdict,
    validate_results is_api_error strip lower completion results = (Return verdict, [])
    /\ validate_results_once strip lower (completion O) results = Return verdict
    /\ (fst verdict = false <->
        results <> []
        /\ exists answer,
            completion O = Return (Some answer)
            /\ Metrics.startswith (lower (strip answer)) "invalid" = true)
    /\ (fst verdict = true -> snd verdict = None)
    /\ (results = [] -> verdict = (true, None)).
Proof.
  assert (Hbody : exists verdict,
             validate_results_once strip lower (completion O) results = Return verdict
             /\ (fst verdict = false <->
                 results <> []
                 /\ exists answer,
                     completion O = Return (Some answer)
                     /\ Metrics.startswith (lower (strip answer)) "invalid" = true)
             /\ (fst verdict = true -> snd verdict = None)
             /\ (results = [] -> verdict = (true, None))).
  { unfold validate_results_once.
    destruct results as [|row results]; cbn [nonempty negb].
    - exists (true, None). split; [reflexivity|]. split; [|auto].
      split; [discriminate | intros [H _]; contradiction].
    - unfold try_except, bind.
      destruct (completion O) as [[answer|]|e] eqn:Hc.
      + destruct (Metrics.startswith (lower (strip answer)) "valid") eqn:Hvalid.
        * exists (true, None). split; [reflexivity|]. split; [|split; [auto|discriminate]].
          split; [discriminate|]. intros (_ & a & [= <-] & Hinv).
          apply invalid_is_not_valid in Hinv. congruence.
        * destruct (Metrics.startswith (lower (strip answer)) "invalid") eqn:Hinvalid.
          -- eexists. split; [reflexivity|]. cbn [fst snd].
             split; [|split; [discriminate|discriminate]].
             split; [|reflexivity]. intros _. split; [discriminate|].
             exists answer. auto.
          -- exists (true, None). split; [reflexivity|].
             split; [|split; [auto|discriminate]].
             split; [discriminate|]. intros (_ & a & [= <-] & Hinv). congruence.
      + exists (true, None). split; [reflexivity|]. split; [|split; [auto|discriminate]].
        split; [discriminate|]. intros (_ & a & [=] & _).
      + exists (true, None). split; [reflexivity|]. split; [|split; [auto|discriminate]].
        split; [discriminate|]. intros (_ & a & [=] & _). }
  destruct Hbody as (verdict & Hret & Hrest).
  exists verdict. split; [|split; [exact Hret | exact Hrest]].
  unfold validate_results, Retry.retry_on_api_error. simpl Retry.backoff_loop.
  rewrite Hret. reflexivity.
Qed.

End ResultValidatorProps.
